(** * FlexCell NX 1.14: ingestion, migration, calculation and batching

    A shallow embedding of the TypeScript sources

    - [utils.ts]      the logger, validators, filename heuristics,
                      [migrateOrderItem], [migrateHistoryBatch], storage
    - [pdfService.ts] [importPdfsToItems], the worker configuration
    - [emailService.ts] [formatItemForEmail], [splitIntoEmailBatches],
                      [sendBatchNotification]
    - [App.tsx]       [calculateItem], the state initialisers and the
                      handlers

    together with the part of the JavaScript run time these functions rely
    on: strings, regular expressions, IEEE-754 numbers and loosely typed
    values.

    Conventions of the embedding.

    - A JavaScript string is a [string]; every [ascii] stands for the code
      point of the same number, so strings range over U+0000..U+00FF
      (ASCII and Latin-1).  Non-ASCII letters of the source's literals are
      written with [chr].
    - A JavaScript number is a binary64 [float]; counters and lengths,
      which only ever hold small non-negative integers, are [nat] or [Z].
    - [Math.random], [new Date()], the answer to [window.confirm] and the
      build mode come from an explicit [World]; code that consults them
      runs in the state monad [M].  The logger stamps every line it
      writes with [new Date()], so a call of [logger.info], [logger.warn]
      or [logger.error] reads the clock once, and a call of
      [logger.debug] does so in a development build only.
    - [throw] is the [Throw] constructor of [Result]; promises that reject
      are data of the file being read.  The conversions [String],
      [parseFloat] and [parseInt] throw on a value that has no primitive
      form, and are modelled with their [TypeError].
    - A callback handed in by the caller ([onProgress]) is a computation
      of [M] that returns or throws. *)

From Stdlib Require Import ZArith NArith Bool List Ascii String Lia.
From Stdlib Require Import DecimalString.
From Stdlib Require Import Floats.PrimFloat Floats.SpecFloat Floats.FloatOps
  Floats.FloatAxioms.
Import ListNotations.

Set Warnings "-inexact-float,-register-all".

Local Open Scope string_scope.
Local Open Scope Z_scope.

(* ================================================================== *)
(** * Characters and strings *)
(* ================================================================== *)

Module Str.

Definition code (c : ascii) : Z := Z.of_N (N_of_ascii c).
Definition chr (n : Z) : string :=
  String (ascii_of_N (Z.to_N n)) EmptyString.

Definition between (lo hi : Z) (c : ascii) : bool :=
  (lo <=? code c) && (code c <=? hi).

Definition isDigit (c : ascii) : bool := between 48 57 c.
Definition isUpper (c : ascii) : bool := between 65 90 c.
Definition isLower (c : ascii) : bool := between 97 122 c.

(** [\w]: letters, digits and the underscore. *)
Definition isWordChar (c : ascii) : bool :=
  isLower c || isUpper c || isDigit c || (code c =? 95).

(** [\s] and StrWhiteSpaceChar below U+0100: TAB, LF, VT, FF, CR, SP, NBSP. *)
Definition isSpace (c : ascii) : bool :=
  between 9 13 c || (code c =? 32) || (code c =? 160).

Definition same (a : ascii) (c : ascii) : bool := code a =? code c.

(** [String.prototype.toLowerCase] on one code point below U+0100. *)
Definition lowerChar (c : ascii) : ascii :=
  if isUpper c || (between 192 222 c && negb (code c =? 215))
  then ascii_of_N (Z.to_N (code c + 32))
  else c.

Fixpoint toLowerCase (s : string) : string :=
  match s with
  | EmptyString => EmptyString
  | String c s' => String (lowerChar c) (toLowerCase s')
  end.

Fixpoint eqb_prefix (p s : string) : bool :=
  match p, s with
  | EmptyString, _ => true
  | String a p', String b s' => same a b && eqb_prefix p' s'
  | String _ _, EmptyString => false
  end.

Definition startsWith (s p : string) : bool := eqb_prefix p s.

Fixpoint drop (n : nat) (s : string) : string :=
  match n, s with
  | O, _ => s
  | S n', String _ s' => drop n' s'
  | S _, EmptyString => EmptyString
  end.

Fixpoint take (n : nat) (s : string) : string :=
  match n, s with
  | S n', String c s' => String c (take n' s')
  | _, _ => EmptyString
  end.

(** [s.endsWith(p)] *)
Definition endsWith (s p : string) : bool :=
  (String.length p <=? String.length s)%nat &&
  String.eqb (drop (String.length s - String.length p) s) p.

(** [s.substr(start, len)] for non-negative arguments. *)
Definition substr (start len : nat) (s : string) : string :=
  take len (drop start s).

(** [s.split(sep)[0]] for a one-character separator. *)
Fixpoint splitHead (sep : ascii) (s : string) : string :=
  match s with
  | EmptyString => EmptyString
  | String c s' => if same sep c then EmptyString else String c (splitHead sep s')
  end.

Fixpoint takeWhile (p : ascii -> bool) (s : string) : string :=
  match s with
  | String c s' => if p c then String c (takeWhile p s') else EmptyString
  | EmptyString => EmptyString
  end.

Fixpoint dropWhile (p : ascii -> bool) (s : string) : string :=
  match s with
  | String c s' => if p c then dropWhile p s' else s
  | EmptyString => EmptyString
  end.

(** [arr.join(sep)] *)
Fixpoint join (sep : string) (l : list string) : string :=
  match l with
  | [] => EmptyString
  | [x] => x
  | x :: rest => x ++ sep ++ join sep rest
  end.

(** [Buffer.byteLength(s, 'utf8')] as Node defines it: one byte below
    U+0080, two up to U+00FF. *)
Fixpoint byteLength (s : string) : nat :=
  match s with
  | EmptyString => O
  | String c s' => Nat.add (if code c <? 128 then 1%nat else 2%nat) (byteLength s')
  end.

Fixpoint repeat (c : ascii) (n : nat) : string :=
  match n with
  | O => EmptyString
  | S n' => String c (repeat c n')
  end.

(** Decimal digits of a non-negative integer. *)
Definition ofZ (z : Z) : string := NilZero.string_of_uint (N.to_uint (Z.to_N z)).
Definition ofNat (n : nat) : string := ofZ (Z.of_nat n).

(** Value of a run of decimal digits. *)
Definition digitsValue (s : string) : Z :=
  (fix go (acc : Z) (s : string) : Z :=
     match s with
     | EmptyString => acc
     | String c s' => go (10 * acc + (code c - 48)) s'
     end) 0 s.

End Str.

(* ================================================================== *)
(** * Regular expressions

  A backtracking matcher for the fragment of ECMAScript patterns that
  occurs in the sources: character classes, greedy bounded or unbounded
  repetition of a class, sequence, ordered alternative (an optional
  group is [Alt r Empty]), capture groups, [\b], [^] and [$].  The
  [i] flag is written into the classes ([Str.same] on both cases). *)
(* ================================================================== *)

Module Regex.

Inductive regex : Type :=
| Empty
| Class (p : ascii -> bool)
| Seq (r1 r2 : regex)
| Alt (r1 r2 : regex)
| Quant (lo : nat) (hi : option nat) (p : ascii -> bool)
| Group (i : nat) (r : regex)
| WordBoundary
| StartOfInput
| EndOfInput.

(** Matcher state: the character just before the current position, the
    input still to read, and the captures recorded so far. *)
Record mstate : Type := MState {
  prev : option ascii;
  rest : string;
  caps : list (nat * string)
}.

Definition wordBefore (st : mstate) : bool :=
  match prev st with Some c => Str.isWordChar c | None => false end.
Definition wordAfter (st : mstate) : bool :=
  match rest st with String c _ => Str.isWordChar c | EmptyString => false end.

Definition hasRoom (hi : option nat) : bool :=
  match hi with Some O => false | _ => true end.
Definition lessOne (hi : option nat) : option nat :=
  match hi with Some n => Some (Nat.pred n) | None => None end.

Section Match.
Context {R : Type}.

(** Greedy [p{lo,hi}]: take one more character when allowed, and fall
    back to stopping here when the rest of the pattern fails. *)
Fixpoint quant (p : ascii -> bool) (lo : nat) (hi : option nat)
         (pv : option ascii) (s : string) (cs : list (nat * string))
         (k : mstate -> option R) : option R :=
  let stop := match lo with O => k (MState pv s cs) | S _ => None end in
  match s with
  | String c s' =>
      if p c && hasRoom hi then
        match quant p (Nat.pred lo) (lessOne hi) (Some c) s' cs k with
        | Some r => Some r
        | None => stop
        end
      else stop
  | EmptyString => stop
  end.

Fixpoint run (r : regex) (st : mstate) (k : mstate -> option R) : option R :=
  match r with
  | Empty => k st
  | Class p =>
      match rest st with
      | String c s' => if p c then k (MState (Some c) s' (caps st)) else None
      | EmptyString => None
      end
  | Seq r1 r2 => run r1 st (fun st1 => run r2 st1 k)
  | Alt r1 r2 =>
      match run r1 st k with
      | Some x => Some x
      | None => run r2 st k
      end
  | Quant lo hi p => quant p lo hi (prev st) (rest st) (caps st) k
  | Group i r1 =>
      run r1 st (fun st1 =>
        let n := (String.length (rest st) - String.length (rest st1))%nat in
        k (MState (prev st1) (rest st1) ((i, Str.take n (rest st)) :: caps st1)))
  | WordBoundary => if xorb (wordBefore st) (wordAfter st) then k st else None
  | StartOfInput => match prev st with None => k st | Some _ => None end
  | EndOfInput => match rest st with EmptyString => k st | String _ _ => None end
  end.
End Match.

(** Outcome of a successful search: where the match starts, the matched
    text, the captures and the input after the match. *)
Record found : Type := Found {
  index : nat;
  matched : string;
  groups : list (nat * string);
  after : string
}.

Fixpoint searchFrom (r : regex) (i : nat) (pv : option ascii) (s : string)
  : option found :=
  match run r (MState pv s []) Some with
  | Some st =>
      Some (Found i (Str.take (String.length s - String.length (rest st)) s)
                  (caps st) (rest st))
  | None =>
      match s with
      | EmptyString => None
      | String c s' => searchFrom r (S i) (Some c) s'
      end
  end.

(** [s.match(r)] for a pattern without the [g] flag. *)
Definition exec (r : regex) (s : string) : option found := searchFrom r 0 None s.

(** [r.test(s)] *)
Definition test (r : regex) (s : string) : bool :=
  match exec r s with Some _ => true | None => false end.

(** [m[i]] for a capture group that took part in the match. *)
Definition group (i : nat) (m : found) : string :=
  match find (fun g => Nat.eqb (fst g) i) (groups m) with
  | Some g => snd g
  | None => EmptyString
  end.

(** [s.replace(r, by)] for a pattern without the [g] flag. *)
Definition replace (r : regex) (by_ : string) (s : string) : string :=
  match exec r s with
  | Some m => Str.take (index m) s ++ by_ ++ after m
  | None => s
  end.

(** The literal text [w], one class per character. *)
Fixpoint lit (w : string) : regex :=
  match w with
  | EmptyString => Empty
  | String c EmptyString => Class (Str.same c)
  | String c w' => Seq (Class (Str.same c)) (lit w')
  end.

(** The literal text [w] under the [i] flag; [w] is given in lower case. *)
Definition isNoCase (c : ascii) (x : ascii) : bool :=
  Str.same c x || (Str.isUpper x && Str.same c (Str.lowerChar x)).
Fixpoint litNoCase (w : string) : regex :=
  match w with
  | EmptyString => Empty
  | String c EmptyString => Class (isNoCase c)
  | String c w' => Seq (Class (isNoCase c)) (litNoCase w')
  end.

Definition seqs (rs : list regex) : regex := fold_right Seq Empty rs.
Definition opt (r : regex) : regex := Alt r Empty.
Definition star (p : ascii -> bool) : regex := Quant 0 None p.
Definition plus (p : ascii -> bool) : regex := Quant 1 None p.

End Regex.

(* ================================================================== *)
(** * Numbers

    JavaScript numbers are IEEE-754 binary64 values.  Arithmetic is the
    primitive arithmetic of [float]; conversions from and to decimal text
    are computed exactly over [Z] and rounded once, to nearest-even. *)
(* ================================================================== *)

Module Num.

Definition NaN : float := nan.
Definition Infinity : float := infinity.

(** The binary64 value nearest to [p / q], for [0 <= p] and [0 < q]. *)
Definition nearest (p q : Z) : float :=
  match p with
  | Zpos p' =>
      SF2Prim (SFdiv prec emax (S754_finite false p' 0)
                               (S754_finite false (Z.to_pos q) 0))
  | _ => zero
  end.

(** The binary64 value nearest to [d * 10^e], for [0 <= d]. *)
Definition nearest10 (d e : Z) : float :=
  if 0 <=? e then nearest (d * 10 ^ e) 1 else nearest d (10 ^ (- e)).

Definition ofZ (z : Z) : float :=
  if z <? 0 then (- nearest (- z) 1)%float else nearest z 1.

Definition negIf (neg : bool) (x : float) : float :=
  if neg then (- x)%float else x.

Definition isNegative (x : float) : bool := (x <? 0)%float.

(** A positive finite number as the exact fraction [fst / snd]. *)
Definition fraction (x : float) : Z * Z :=
  match Prim2SF x with
  | S754_finite _ m e =>
      if 0 <=? e then (Zpos m * 2 ^ e, 1) else (Zpos m, 2 ^ (- e))
  | _ => (0, 1)
  end.

(** [(n, d)] times [10^e]. *)
Definition scale10 (f : Z * Z) (e : Z) : Z * Z :=
  if 0 <=? e then (fst f * 10 ^ e, snd f) else (fst f, snd f * 10 ^ (- e)).

(** ** Number::toString, radix 10 *)

(** The least [n] with [x < 10^n]. *)
Definition magnitude (f : Z * Z) : Z :=
  let below n := let g := scale10 f (- n) in fst g <? snd g in
  match find below (map (fun i => Z.of_nat i - 324) (seq 0 640)) with
  | Some n => n
  | None => 310
  end.

(** Candidate decimal [s * 10^(n-k)] for [x], with its distance to [x] as
    a fraction. *)
Record decimal : Type := Decimal { dn : Z; dk : Z; ds : Z; dist : Z * Z }.

Definition candidates (x : float) (f : Z * Z) (k n : Z) : list decimal :=
  let g := scale10 f (k - n) in
  let lo := fst g / snd g in
  let ok s := (10 ^ (k - 1) <=? s) && (s <? 10 ^ k)
              && PrimFloat.Leibniz.eqb (nearest10 s (n - k)) x in
  map (fun s => Decimal n k s (scale10 (Z.abs (s * snd g - fst g), snd g) (n - k)))
      (filter ok [lo; lo + 1]).

Definition closer (a b : decimal) : bool :=
  let l := fst (dist a) * snd (dist b) in
  let r := fst (dist b) * snd (dist a) in
  (l <? r) || ((l =? r) && Z.even (ds a)).

Definition closest (l : list decimal) : option decimal :=
  fold_left (fun best c =>
               match best with
               | None => Some c
               | Some b => if closer b c then Some b else Some c
               end) l None.

(** The shortest decimal that reads back as [x]: least [k] first. *)
Definition shortest (x : float) : decimal :=
  let f := fraction x in
  let n0 := magnitude f in
  let try k := closest (candidates x f k n0 ++ candidates x f k (n0 + 1)) in
  match
    fold_left (fun found k => match found with Some d => Some d | None => try k end)
              (map Z.of_nat (seq 1 17)) None
  with
  | Some d => d
  | None => Decimal 0 1 0 (0, 1)
  end.

Definition zeros (n : Z) : string := Str.repeat "0" (Z.to_nat n).

Definition formatDecimal (d : decimal) : string :=
  let n := dn d in
  let k := dk d in
  let digits := Str.ofZ (ds d) in
  if (k <=? n) && (n <=? 21) then digits ++ zeros (n - k)
  else if (0 <? n) && (n <=? 21) then
    Str.take (Z.to_nat n) digits ++ "." ++ Str.drop (Z.to_nat n) digits
  else if (-6 <? n) && (n <=? 0) then "0." ++ zeros (- n) ++ digits
  else
    let e := n - 1 in
    let exponent := (if e <? 0 then "-" else "+") ++ Str.ofZ (Z.abs e) in
    if k =? 1 then digits ++ "e" ++ exponent
    else Str.take 1 digits ++ "." ++ Str.drop 1 digits ++ "e" ++ exponent.

Definition toString (x : float) : string :=
  if is_nan x then "NaN"
  else if is_zero x then "0"
  else
    let sign := if isNegative x then "-" else "" in
    let a := abs x in
    if is_infinity a then sign ++ "Infinity"
    else sign ++ formatDecimal (shortest a).

(** ** Number.prototype.toFixed *)

Definition toFixed (fd : nat) (x : float) : string :=
  if is_nan x then "NaN"
  else
    let a := abs x in
    if is_infinity a || (1e21 <=? a)%float then toString x
    else
      let sign := if isNegative x then "-" else "" in
      let g := scale10 (fraction a) (Z.of_nat fd) in
      (* nearest integer to [a * 10^fd], the larger one on a tie *)
      let n := (2 * fst g + snd g) / (2 * snd g) in
      let m := Str.ofZ n in
      let m := Str.repeat "0" (fd + 1 - String.length m) ++ m in
      let cut := (String.length m - fd)%nat in
      match fd with
      | O => sign ++ m
      | S _ => sign ++ Str.take cut m ++ "." ++ Str.drop cut m
      end.

(** ** parseFloat and parseInt on strings *)

Definition signOf (s : string) : bool * string :=
  match s with
  | String c s' =>
      if Str.same "-" c then (true, s')
      else if Str.same "+" c then (false, s') else (false, s)
  | EmptyString => (false, s)
  end.

(** The exponent part [e], [e+] or [e-] followed by digits, when present. *)
Definition exponentOf (s : string) : Z :=
  match s with
  | String c s' =>
      if Str.same "e" c || Str.same "E" c then
        let '(neg, t) := signOf s' in
        let ds := Str.takeWhile Str.isDigit t in
        match ds with
        | EmptyString => 0
        | _ => if neg then - Str.digitsValue ds else Str.digitsValue ds
        end
      else 0
  | EmptyString => 0
  end.

(** [parseFloat(s)]: the longest prefix of the trimmed input that is a
    decimal literal, [NaN] when there is none. *)
Definition parseFloat (s : string) : float :=
  let '(neg, t) := signOf (Str.dropWhile Str.isSpace s) in
  if Str.startsWith t "Infinity" then negIf neg Infinity
  else
    let ip := Str.takeWhile Str.isDigit t in
    let t1 := Str.drop (String.length ip) t in
    let '(fp, t2) :=
      match t1 with
      | String c u =>
          if Str.same "." c then
            let fp := Str.takeWhile Str.isDigit u in
            (match ip, fp with
             | EmptyString, EmptyString => (EmptyString, t1)
             | _, _ => (fp, Str.drop (String.length fp) u)
             end)
          else (EmptyString, t1)
      | EmptyString => (EmptyString, t1)
      end in
    match ip ++ fp with
    | EmptyString => NaN
    | ds =>
        negIf neg (nearest10 (Str.digitsValue ds)
                             (exponentOf t2 - Z.of_nat (String.length fp)))
    end.

(** [parseInt(s, 10)] *)
Definition parseInt (s : string) : float :=
  let '(neg, t) := signOf (Str.dropWhile Str.isSpace s) in
  match Str.takeWhile Str.isDigit t with
  | EmptyString => NaN
  | ds => negIf neg (nearest (Str.digitsValue ds) 1)
  end.

(** [Math.max(a, b)] *)
Definition max (a b : float) : float :=
  if is_nan a || is_nan b then NaN
  else if (a <? b)%float then b
  else if (b <? a)%float then a
  else if isNegative (1 / a)%float then b else a.

End Num.

(** [throw]: a computation returns a value or throws, with a message. *)
Inductive Result (A : Type) : Type :=
| Ok (a : A)
| Throw (message : string).
Arguments Ok {A} a.
Arguments Throw {A} message.

(* ================================================================== *)
(** * Loosely typed values

    The values an [any]-typed parameter ranges over: what [JSON.parse]
    produces from the stored data, plus [undefined].  Such a value holds
    no function. *)
(* ================================================================== *)

Module Js.

Inductive JsValue : Type :=
| JUndefined
| JNull
| JBool (b : bool)
| JNum (x : float)
| JStr (s : string)
| JArr (elems : list JsValue)
| JObj (props : list (string * JsValue)).

(** ToBoolean: what [!v] and [v || d] test. *)
Definition truthy (v : JsValue) : bool :=
  match v with
  | JUndefined | JNull => false
  | JBool b => b
  | JNum x => negb (is_zero x || is_nan x)
  | JStr s => negb (String.eqb s "")
  | JArr _ | JObj _ => true
  end.

(** [typeof v === 'object'] *)
Definition typeofObject (v : JsValue) : bool :=
  match v with
  | JNull | JArr _ | JObj _ => true
  | _ => false
  end.

Fixpoint lookup (k : string) (props : list (string * JsValue)) : JsValue :=
  match props with
  | [] => JUndefined
  | (k', v) :: rest => if String.eqb k k' then v else lookup k rest
  end.

(** [v.k] for a property name [k] that no prototype defines; reading it
    off an array, a string, a number or a boolean gives [undefined]. *)
Definition get (v : JsValue) (k : string) : JsValue :=
  match v with
  | JObj props => lookup k props
  | _ => JUndefined
  end.

(** [a || b] *)
Definition or (a b : JsValue) : JsValue := if truthy a then a else b.

(** [Object.prototype.hasOwnProperty.call(v, k)] on the properties of an
    object. *)
Definition hasOwn (k : string) (props : list (string * JsValue)) : bool :=
  existsb (fun p => String.eqb k (fst p)) props.

(** The message of the TypeError that ToPrimitive throws. *)
Definition cannotConvert : string := "Cannot convert object to primitive value".

(** [String(v)].  An object is converted by its [toString] method.  An
    own property [toString] hides [Object.prototype.toString]; its value
    is no function, and [valueOf], own or inherited, gives no primitive
    either: the conversion throws a TypeError.  An array is joined, which
    converts its elements in order. *)
Fixpoint toString (v : JsValue) : Result string :=
  match v with
  | JUndefined => Ok "undefined"
  | JNull => Ok "null"
  | JBool true => Ok "true"
  | JBool false => Ok "false"
  | JNum x => Ok (Num.toString x)
  | JStr s => Ok s
  | JArr elems =>
      match (fix each (l : list JsValue) : Result (list string) :=
               match l with
               | [] => Ok []
               | e :: l' =>
                   match (match e with
                          | JUndefined | JNull => Ok ""
                          | _ => toString e
                          end) with
                   | Throw message => Throw message
                   | Ok part =>
                       match each l' with
                       | Throw message => Throw message
                       | Ok parts => Ok (part :: parts)
                       end
                   end
               end) elems with
      | Throw message => Throw message
      | Ok parts => Ok (Str.join "," parts)
      end
  | JObj props =>
      if hasOwn "toString" props then Throw cannotConvert
      else Ok "[object Object]"
  end.

(** [parseFloat(v)] and [parseInt(v, 10)] convert their argument to a
    string first. *)
Definition parseFloat (v : JsValue) : Result float :=
  match toString v with
  | Ok s => Ok (Num.parseFloat s)
  | Throw message => Throw message
  end.
Definition parseInt (v : JsValue) : Result float :=
  match toString v with
  | Ok s => Ok (Num.parseInt s)
  | Throw message => Throw message
  end.

(** [x || d] on numbers *)
Definition numOr (x d : float) : float := if truthy (JNum x) then x else d.

End Js.

Import Js.

(* ================================================================== *)
(** * The world: random numbers, the clock, the confirmation prompt

    Every [new Date()] takes the next value of the clock, those of the
    logger included: [logger.info], [logger.warn] and [logger.error] read
    the clock once for the time stamp of their line, [logger.debug] does
    so in a development build only.  The text of a log line is written to
    the console and is not part of the world. *)
(* ================================================================== *)

(** A [Date] object, as far as the sources observe it. *)
Record Date : Type := {
  toISOString : string;
  getMonth : Z;
  getFullYear : Z
}.

Record World : Type := {
  (** the successive values of [Math.random().toString(36)] *)
  randomSource : nat -> string;
  randomCalls : nat;
  (** the successive values of [new Date()] *)
  clock : nat -> Date;
  clockCalls : nat;
  (** the user's answer to [window.confirm] *)
  userConfirms : bool;
  (** [process.env.NODE_ENV === 'development'] *)
  development : bool
}.

Definition M (A : Type) : Type := World -> A * World.

Definition ret {A : Type} (a : A) : M A := fun w => (a, w).
Definition bind {A B : Type} (m : M A) (f : A -> M B) : M B :=
  fun w => let (a, w') := m w in f a w'.

Declare Scope js_scope.
Delimit Scope js_scope with js.
Notation "x <- m ;; k" := (bind m (fun x => k))
  (at level 61, m at next level, right associativity) : js_scope.
Local Open Scope js_scope.

(** [Math.random().toString(36)] *)
Definition mathRandom36 : M string := fun w =>
  (randomSource w (randomCalls w),
   {| randomSource := randomSource w; randomCalls := S (randomCalls w);
      clock := clock w; clockCalls := clockCalls w;
      userConfirms := userConfirms w; development := development w |}).

(** The world after one reading of the clock. *)
Definition tick (w : World) : World :=
  {| randomSource := randomSource w; randomCalls := randomCalls w;
     clock := clock w; clockCalls := S (clockCalls w);
     userConfirms := userConfirms w; development := development w |}.

(** [new Date()] *)
Definition newDate : M Date := fun w => (clock w (clockCalls w), tick w).

(** [logger.info], [logger.warn], [logger.error]: the time stamp of the
    line is [new Date().toISOString()]. *)
Definition logInfo : M unit := fun w => (tt, tick w).
Definition logWarn : M unit := fun w => (tt, tick w).
Definition logError : M unit := fun w => (tt, tick w).

(** [logger.debug] *)
Definition logDebug : M unit := fun w =>
  (tt, if development w then tick w else w).

(** [window.confirm(...)] *)
Definition windowConfirm : M bool := fun w => (userConfirms w, w).

(** [Math.random().toString(36).substr(2, 9)] *)
Definition randomId : M string :=
  r <- mathRandom36 ;; ret (Str.substr 2 9 r).

(** [new Date().toISOString().split('T')[0]] *)
Definition today : M string :=
  d <- newDate ;; ret (Str.splitHead "T" (toISOString d)).

(** A computation that may throw: the rest runs on a value and is
    skipped after a [throw]. *)
Definition bindR {A B : Type} (m : M (Result A)) (f : A -> M (Result B))
  : M (Result B) :=
  r <- m ;;
  match r with
  | Ok a => f a
  | Throw message => ret (Throw message)
  end.

Notation "x <-? m ;; k" := (bindR m (fun x => k))
  (at level 61, m at next level, right associativity) : js_scope.

(* ================================================================== *)
(** * types.ts *)
(* ================================================================== *)

(** [id], [jobType] and [date] are declared [string] (an enumeration for
    [jobType]); [migrateOrderItem] stores in them whatever truthy value it
    is given, so the record keeps them as values. *)
Record OrderItem : Type := {
  id : JsValue;
  os : string;
  clientDescription : string;
  colors : string;
  jobType : JsValue;
  date : JsValue;
  width : float;
  height : float;
  games : float;
  pricePerCm2 : float;
  observations : string
}.

(** [CalculatedItem extends OrderItem]: the fields of the order item and
    the two derived ones. *)
Record CalculatedItem : Type := {
  order : OrderItem;
  cm2Total : float;
  totalValue : float
}.

(** [batch_id] and [batch_items] are the fields [id] and [items]. *)
Record HistoryBatch : Type := {
  batch_id : string;
  timestamp : string;
  batch_items : list OrderItem;
  stockSnapshot : float;
  month : Z;
  year : Z
}.

(** [detected_colors] is the field [colors]. *)
Record ColorDetection : Type := {
  detected_colors : list string;
  gameCount : Z
}.

(** [Omit<PdfDimensions, 'source'>]: the fields [width] and [height]. *)
Record PdfDimensions : Type := {
  dim_width : float;
  dim_height : float
}.

Definition Novo : string := "Novo".
Definition Reimpressao : string := "Reimpress" ++ Str.chr 227 ++ "o".
Definition Ajuste : string := "Ajuste".

(** The enumeration ['Novo' | 'Reimpressão' | 'Ajuste']. *)
Definition isJobType (v : JsValue) : bool :=
  match v with
  | JStr s => String.eqb s Novo || String.eqb s Reimpressao || String.eqb s Ajuste
  | _ => false
  end.

Definition isString (v : JsValue) : bool :=
  match v with JStr _ => true | _ => false end.

(** An [OrderItem] whose fields have their declared types. *)
Definition wellTyped (i : OrderItem) : bool :=
  isString (id i) && isJobType (jobType i) && isString (date i).

(** The object behind a typed [OrderItem]. *)
Definition toObject (i : OrderItem) : JsValue :=
  JObj [ ("id", id i); ("os", JStr (os i));
         ("clientDescription", JStr (clientDescription i));
         ("colors", JStr (colors i)); ("jobType", jobType i);
         ("date", date i); ("width", JNum (width i));
         ("height", JNum (height i)); ("games", JNum (games i));
         ("pricePerCm2", JNum (pricePerCm2 i));
         ("observations", JStr (observations i)) ].

(* ================================================================== *)
(** * utils.ts *)
(* ================================================================== *)

Import Regex.

(** ** Validation helpers *)

Record Validation : Type := {
  valid : bool;
  error : option string
}.

Definition errNaN : string :=
  "Dimens" ++ Str.chr 245 ++ "es cont" ++ Str.chr 234 ++ "m valores inv"
  ++ Str.chr 225 ++ "lidos".
Definition errNonPositive : string :=
  "Dimens" ++ Str.chr 245 ++ "es devem ser maiores que zero".
Definition errTooLarge : string :=
  "Dimens" ++ Str.chr 245 ++ "es muito grandes (m" ++ Str.chr 225
  ++ "ximo 500cm)".

(** The first test of the source, [typeof width !== 'number'], is false
    for every [float]. *)
Definition validateDimensions (width height : float) : Validation :=
  if is_nan width || is_nan height then
    {| valid := false; error := Some errNaN |}
  else if (width <=? 0)%float || (height <=? 0)%float then
    {| valid := false; error := Some errNonPositive |}
  else if (500 <? width)%float || (500 <? height)%float then
    {| valid := false; error := Some errTooLarge |}
  else {| valid := true; error := None |}.

(** [parseInt] throws on a value it cannot convert to a string. *)
Definition validateGames (games : JsValue) : Result float :=
  match Js.parseInt games with
  | Throw message => Throw message
  | Ok parsed => Ok (Num.max 1 (if is_nan parsed then 1%float else parsed))
  end.

(** ** Color detection *)

(** An entry of the [patterns] table: [regex], [name] and [games]. *)
Record Pattern : Type := {
  regex_of : regex;
  name : string;
  games_of : Z
}.

Definition word (r : regex) : regex := seqs [WordBoundary; r; WordBoundary].

Definition patterns : list Pattern :=
  [ {| regex_of := word (lit "cmyk"); name := "CMYK"; games_of := 4 |};
    {| regex_of := seqs [WordBoundary; Group 1 (Quant 3 (Some 5%nat) Str.isDigit);
                         lit "c"; WordBoundary];
       name := "PANTONE"; games_of := 1 |};
    {| regex_of := seqs [WordBoundary; lit "gray"; Class (Str.between 49 52);
                         WordBoundary];
       name := "GRAY"; games_of := 1 |};
    {| regex_of := word (Group 1 (Alt (lit "black") (Alt (lit "preto")
                                   (Alt (lit "pb") (lit "p&b")))));
       name := "BLACK"; games_of := 1 |};
    {| regex_of := word (Group 1 (Alt (lit "white") (lit "branco")));
       name := "WHITE"; games_of := 1 |};
    {| regex_of := word (lit "red"); name := "RED"; games_of := 1 |};
    {| regex_of := word (lit "blue"); name := "BLUE"; games_of := 1 |} ].

(** The body of the [for ... of patterns] loop, on the pair
    [(detected, totalGames)]. *)
Definition detectStep (filenameLower : string) (acc : list string * Z)
           (p : Pattern) : list string * Z :=
  if test (regex_of p) filenameLower
  then ((fst acc ++ [name p])%list, snd acc + games_of p)
  else acc.

Definition detectColors (filename : string) : ColorDetection :=
  if String.eqb filename "" then
    {| detected_colors := []; gameCount := 1 |}
  else
    let filenameLower := Str.toLowerCase filename in
    let '(detected, totalGames) :=
      fold_left (detectStep filenameLower) patterns ([], 0) in
    {| detected_colors := if (0 <? List.length detected)%nat then detected else [];
       gameCount := Z.max 1 totalGames |}.

(** ** Filename parsing *)

Definition osPattern : regex :=
  seqs [WordBoundary; Group 1 (Quant 4 None Str.isDigit); WordBoundary].

Definition extractOS (filename : string) : string :=
  if String.eqb filename "" then ""
  else
    match exec osPattern filename with
    | Some osMatch => group 1 osMatch
    | None => ""
    end.

(** [\d+(?:\.\d+)?] *)
Definition decimalNumber : regex :=
  Seq (plus Str.isDigit) (opt (Seq (lit ".") (plus Str.isDigit))).

Definition sizePattern : regex :=
  seqs [ Group 1 decimalNumber; star Str.isSpace; Class (isNoCase "x");
         star Str.isSpace; Group 2 decimalNumber; star Str.isSpace;
         litNoCase "mm" ].

Definition extractDimensions (filename : string) : option PdfDimensions :=
  if String.eqb filename "" then None
  else
    match exec sizePattern filename with
    | None => None
    | Some sizeMatch =>
        let widthMm := Num.parseFloat (group 1 sizeMatch) in
        let heightMm := Num.parseFloat (group 2 sizeMatch) in
        let widthCm := Num.parseFloat (Num.toFixed 2 (widthMm / 10)%float) in
        let heightCm := Num.parseFloat (Num.toFixed 2 (heightMm / 10)%float) in
        let validation := validateDimensions widthCm heightCm in
        if negb (valid validation) then None
        else Some {| dim_width := widthCm; dim_height := heightCm |}
    end.

Definition calculatePdfDimensions (pageWidth pageHeight marginCm : float)
  : PdfDimensions :=
  let widthCm := ((pageWidth * 2.54) / 72)%float in
  let heightCm := ((pageHeight * 2.54) / 72)%float in
  let finalWidth := Num.parseFloat (Num.toFixed 2 (widthCm + marginCm * 2)%float) in
  let finalHeight := Num.parseFloat (Num.toFixed 2 (heightCm + marginCm * 2)%float) in
  {| dim_width := finalWidth; dim_height := finalHeight |}.

(** ** Data migration *)

Definition DEFAULT_RATE : float := 0.0798%float.

(** The properties of the object literal are evaluated in the order in
    which they are written; the first conversion that throws ends the
    call, after the random number and the clock have been consulted for
    the properties before it. *)
Definition migrateOrderItem (item : JsValue) : M (Result OrderItem) :=
  if negb (truthy item) || negb (typeofObject item) then
    ret (Throw "Invalid order item")
  else
    id' <- (if truthy (get item "id") then ret (get item "id")
            else r <- randomId ;; ret (JStr r)) ;;
    os' <-? ret (toString (or (get item "os") (JStr ""))) ;;
    clientDescription' <-?
      ret (toString (or (get item "clientDescription") (JStr ""))) ;;
    colors' <-? ret (toString (or (get item "colors") (JStr ""))) ;;
    date' <- (if truthy (get item "date") then ret (get item "date")
              else d <- today ;; ret (JStr d)) ;;
    width' <-? ret (Js.parseFloat (get item "width")) ;;
    height' <-? ret (Js.parseFloat (get item "height")) ;;
    games' <-? ret (validateGames (get item "games")) ;;
    pricePerCm2' <-? ret (Js.parseFloat (get item "pricePerCm2")) ;;
    observations' <-? ret (toString (or (get item "observations") (JStr ""))) ;;
    ret (Ok {|
      id := id';
      os := os';
      clientDescription := clientDescription';
      colors := colors';
      jobType := or (get item "jobType") (JStr Novo);
      date := date';
      width := numOr width' 0;
      height := numOr height' 0;
      games := games';
      pricePerCm2 := numOr pricePerCm2' DEFAULT_RATE;
      observations := observations'
    |}).

(* ================================================================== *)
(** * pdfService.ts

    A [File] carries the outcome of the asynchronous reads the importer
    awaits: [file.arrayBuffer()] followed by [pdfjs.getDocument(..).promise]
    either rejects with a message or resolves to a document, and so does
    each [pdf.getPage(n)].  The optional [onProgress] callback is code of
    the caller: it runs in the world and returns or throws. *)
(* ================================================================== *)

Inductive PageOutcome : Type :=
| PageRejects (message : string)
| PageResolves (viewportWidth viewportHeight : float).

Record PdfDocument : Type := {
  numPages : nat;
  getPage : nat -> PageOutcome
}.

Inductive DocumentOutcome : Type :=
| DocumentRejects (message : string)
| DocumentResolves (pdf : PdfDocument).

Record File : Type := {
  file_name : string;
  getDocument : DocumentOutcome
}.

Record PdfImportResult : Type := {
  success : bool;
  itemsCreated : nat;
  filesProcessed : nat;
  filesFailed : nat;
  errors : list string;
  items : list OrderItem
}.

(** [result.errors.push(e)] *)
Definition pushError (e : string) (r : PdfImportResult) : PdfImportResult :=
  {| success := success r; itemsCreated := itemsCreated r;
     filesProcessed := filesProcessed r; filesFailed := filesFailed r;
     errors := (errors r ++ [e])%list; items := items r |}.

(** [result.items.push(i); result.itemsCreated++] *)
Definition pushItem (i : OrderItem) (r : PdfImportResult) : PdfImportResult :=
  {| success := success r; itemsCreated := S (itemsCreated r);
     filesProcessed := filesProcessed r; filesFailed := filesFailed r;
     errors := errors r; items := (items r ++ [i])%list |}.

(** [result.filesProcessed++] *)
Definition fileProcessed (r : PdfImportResult) : PdfImportResult :=
  {| success := success r; itemsCreated := itemsCreated r;
     filesProcessed := S (filesProcessed r); filesFailed := filesFailed r;
     errors := errors r; items := items r |}.

(** [result.filesFailed++; result.success = false] *)
Definition fileFailed (r : PdfImportResult) : PdfImportResult :=
  {| success := false; itemsCreated := itemsCreated r;
     filesProcessed := filesProcessed r; filesFailed := S (filesFailed r);
     errors := errors r; items := items r |}.

Definition setFailure (r : PdfImportResult) : PdfImportResult :=
  {| success := false; itemsCreated := itemsCreated r;
     filesProcessed := filesProcessed r; filesFailed := filesFailed r;
     errors := errors r; items := items r |}.

Definition pagina : string := "p" ++ Str.chr 225 ++ "gina".
Definition obsFilename : string :=
  "Dimens" ++ Str.chr 245 ++ "es extra" ++ Str.chr 237
  ++ "das do nome do arquivo".
Definition obsGeometry : string := "Importado de PDF (+1cm margem/lado)".
Definition noFileSelected : string := "Nenhum arquivo selecionado".

Definition pageError (fileName : string) (pageNum : nat) (msg : string) : string :=
  fileName ++ " (" ++ pagina ++ " " ++ Str.ofNat pageNum ++ "): " ++ msg.

Definition pdfExtension : regex := Seq (litNoCase ".pdf") EndOfInput.

Definition isPdfName (fileName : string) : bool :=
  Str.endsWith (Str.toLowerCase fileName) ".pdf".

Fixpoint foldM {A B : Type} (f : B -> A -> M A) (l : list B) (a : A) : M A :=
  match l with
  | [] => ret a
  | x :: l' => a' <- f x a ;; foldM f l' a'
  end.

(** What is fixed per file before the page loop starts. *)
Record FileContext : Type := {
  ctx_name : string;
  ctx_pages : nat;
  fileNameBase : string;
  fileOS : string;
  dimsFromFilename : option PdfDimensions;
  colorDetection : ColorDetection
}.

(** [finalWidth], [finalHeight] and [obs] of a page: the dimensions of the
    file name first, the page geometry with a margin of 1 cm otherwise. *)
Definition finalDimensions (ctx : FileContext) (viewportWidth viewportHeight : float)
  : float * float * string :=
  match dimsFromFilename ctx with
  | Some dims => (dim_width dims, dim_height dims, obsFilename)
  | None =>
      let dimResult := calculatePdfDimensions viewportWidth viewportHeight 1 in
      (dim_width dimResult, dim_height dimResult, obsGeometry)
  end.

(** The [catch] of the page loop. *)
Definition pageFailed (ctx : FileContext) (pageNum : nat) (errorMsg : string)
           (result : PdfImportResult) : M PdfImportResult :=
  _ <- logError ;;
  ret (pushError (pageError (ctx_name ctx) pageNum errorMsg) result).

(** The body of the page loop, with its [try]/[catch]. *)
Definition processPage (ctx : FileContext) (page : PageOutcome) (pageNum : nat)
           (result : PdfImportResult) : M PdfImportResult :=
  match page with
  | PageRejects errorMsg => pageFailed ctx pageNum errorMsg result
  | PageResolves viewportWidth viewportHeight =>
      let '(finalWidth, finalHeight, obs) :=
        finalDimensions ctx viewportWidth viewportHeight in
      let dimValidation := validateDimensions finalWidth finalHeight in
      if negb (valid dimValidation) then
        _ <- logWarn ;;
        ret (pushError
               (pageError (ctx_name ctx) pageNum
                  (match error dimValidation with
                   | Some e => e
                   | None => "undefined"
                   end)) result)
      else
        let description :=
          fileNameBase ctx ++
          (if (1 <? ctx_pages ctx)%nat
           then " - P" ++ Str.chr 225 ++ "g " ++ Str.ofNat pageNum else "") in
        newId <- randomId ;;
        newDay <- today ;;
        let newItem := {|
          id := JStr newId;
          os := fileOS ctx;
          clientDescription := description;
          colors := Str.join ", " (detected_colors (colorDetection ctx));
          jobType := JStr Novo;
          date := JStr newDay;
          width := finalWidth;
          height := finalHeight;
          games := Num.ofZ (gameCount (colorDetection ctx));
          pricePerCm2 := DEFAULT_RATE;
          observations := obs
        |} in
        migrated <- migrateOrderItem (toObject newItem) ;;
        match migrated with
        | Ok migratedItem => ret (pushItem migratedItem result)
        | Throw errorMsg => pageFailed ctx pageNum errorMsg result
        end
  end.

(** The optional parameter [onProgress]: [None] when the caller gives no
    callback. *)
Definition Progress : Type := option (nat -> nat -> M (Result unit)).

(** [onProgress?.(current, total)] *)
Definition callProgress (onProgress : Progress) (current total : nat)
  : M (Result unit) :=
  match onProgress with
  | None => ret (Ok tt)
  | Some callback => callback current total
  end.

(** The [catch] of the file loop. *)
Definition fileCatch (file : File) (errorMsg : string) (result : PdfImportResult)
  : M PdfImportResult :=
  _ <- logError ;;
  ret (fileFailed (pushError (file_name file ++ ": " ++ errorMsg) result)).

(** The body of the file loop, with its [try]/[catch], for the file at
    index [i] of [total]. *)
Definition processFile (onProgress : Progress) (total i : nat) (file : File)
           (result : PdfImportResult) : M PdfImportResult :=
  called <- callProgress onProgress (i + 1) total ;;
  match called with
  | Throw errorMsg => fileCatch file errorMsg result
  | Ok _ =>
      if negb (isPdfName (file_name file)) then
        _ <- logWarn ;;
        ret result
      else
        match getDocument file with
        | DocumentRejects errorMsg => fileCatch file errorMsg result
        | DocumentResolves pdf =>
            let ctx := {|
              ctx_name := file_name file;
              ctx_pages := numPages pdf;
              fileNameBase := replace pdfExtension "" (file_name file);
              fileOS := extractOS (file_name file);
              dimsFromFilename := extractDimensions (file_name file);
              colorDetection := detectColors (file_name file)
            |} in
            _ <- logDebug ;;
            result' <- foldM (fun pageNum =>
                                processPage ctx (getPage pdf pageNum) pageNum)
                             (seq 1 (numPages pdf)) result ;;
            ret (fileProcessed result')
        end
  end.

(** The [for] loop over the files, from index [i] on. *)
Fixpoint processFiles (onProgress : Progress) (total i : nat) (files : list File)
         (result : PdfImportResult) : M PdfImportResult :=
  match files with
  | [] => ret result
  | file :: others =>
      result' <- processFile onProgress total i file result ;;
      processFiles onProgress total (S i) others result'
  end.

Definition emptyResult : PdfImportResult :=
  {| success := true; itemsCreated := 0; filesProcessed := 0; filesFailed := 0;
     errors := []; items := [] |}.

(** [importPdfsToItems(files, onProgress)] *)
Definition importPdfsToItemsWith (onProgress : Progress) (files : list File)
  : M PdfImportResult :=
  let result := emptyResult in
  if (List.length files =? 0)%nat then
    ret (pushError noFileSelected (setFailure result))
  else
    result' <- processFiles onProgress (List.length files) 0 files result ;;
    _ <- logInfo ;;
    ret result'.

(** [importPdfsToItems(files)]: the call without the optional callback. *)
Definition importPdfsToItems (files : list File) : M PdfImportResult :=
  importPdfsToItemsWith None files.

(* ================================================================== *)
(** * emailService.ts *)
(* ================================================================== *)

Definition MAX_EMAIL_SIZE_BYTES : nat := 4000.

(** [batch_of] is the field [items]. *)
Record EmailBatch : Type := {
  batch_of : list OrderItem;
  batchNumber : nat;
  totalBatches : nat
}.

Definition formatItemForEmail (item : OrderItem) (index : nat) : string :=
  Str.ofNat index ++ ". OS: " ++ os item ++ " | " ++ clientDescription item
  ++ " | Cores: " ++ (if String.eqb (colors item) "" then "N/A" else colors item)
  ++ " | Dim: " ++ Num.toString (width item) ++ "x"
  ++ Num.toString (height item) ++ "cm".

(** [Buffer.byteLength(formatItemForEmail(item, 1), 'utf8')] *)
Definition itemSize (item : OrderItem) : nat :=
  Str.byteLength (formatItemForEmail item 1).

(** The variables of [splitIntoEmailBatches]. *)
Record SplitState : Type := {
  batches : list EmailBatch;
  currentBatch : list OrderItem;
  currentSize : nat
}.

(** [batches.push({ items: currentBatch, batchNumber: batches.length + 1,
    totalBatches: 0 })] *)
Definition pushBatch (batches : list EmailBatch) (currentBatch : list OrderItem)
  : list EmailBatch :=
  (batches ++ [ {| batch_of := currentBatch;
                   batchNumber := List.length batches + 1;
                   totalBatches := 0 |} ])%list.

(** The body of the [for ... of items] loop. *)
Definition splitStep (st : SplitState) (item : OrderItem) : SplitState :=
  let size := itemSize item in
  let st1 :=
    if (MAX_EMAIL_SIZE_BYTES <? currentSize st + size)%nat
       && (0 <? List.length (currentBatch st))%nat
    then {| batches := pushBatch (batches st) (currentBatch st);
            currentBatch := []; currentSize := 0 |}
    else st in
  {| batches := batches st1;
     currentBatch := (currentBatch st1 ++ [item])%list;
     currentSize := (currentSize st1 + size)%nat |}.

Definition setTotal (total : nat) (b : EmailBatch) : EmailBatch :=
  {| batch_of := batch_of b; batchNumber := batchNumber b; totalBatches := total |}.

Definition splitIntoEmailBatches (items : list OrderItem) : list EmailBatch :=
  let st := fold_left splitStep items
                      {| batches := []; currentBatch := []; currentSize := 0 |} in
  let batches :=
    if (0 <? List.length (currentBatch st))%nat
    then pushBatch (batches st) (currentBatch st)
    else batches st in
  let totalBatches := List.length batches in
  map (setTotal totalBatches) batches.

(* ================================================================== *)
(** * App.tsx *)
(* ================================================================== *)

Definition calculateItem (item : OrderItem) : CalculatedItem :=
  let cm2Total := (width item * height item * games item)%float in
  let totalValue := (cm2Total * pricePerCm2 item)%float in
  {| order := item; cm2Total := cm2Total; totalValue := totalValue |}.

Inductive Tab : Type := production | history_tab.

(** The state [handleArchive] reads and writes: [items] (here [app_items]),
    [history], [totalStock] and [activeTab].  Alerts are not part of it. *)
Record AppState : Type := {
  app_items : list OrderItem;
  history : list HistoryBatch;
  totalStock : float;
  activeTab : Tab
}.

Definition handleArchive (st : AppState) : M AppState :=
  if (List.length (app_items st) =? 0)%nat then ret st
  else
    confirmed <- windowConfirm ;;
    if negb confirmed then ret st
    else
      now <- newDate ;;
      newId <- randomId ;;
      let newBatch := {|
        batch_id := newId;
        timestamp := toISOString now;
        batch_items := app_items st;
        stockSnapshot := totalStock st;
        month := getMonth now;
        year := getFullYear now
      |} in
      _ <- logInfo ;;
      ret {| app_items := [];
             history := newBatch :: history st;
             totalStock := totalStock st;
             activeTab := history_tab |}.

(* ================================================================== *)
(** * The run time on known values *)
(* ================================================================== *)

Section RuntimeExamples.

Example toString_examples :
  map Num.toString [18; 0.0798; 1e21; 1e23; 0.1 + 0.2; 1e-7; -2.25; 123.456]%float
  = ["18"; "0.0798"; "1e+21"; "1e+23"; "0.30000000000000004"; "1e-7"; "-2.25";
     "123.456"].
Proof. vm_compute. reflexivity. Qed.

Example toFixed_examples :
  map (Num.toFixed 2) [18; 1.005; 2.5; 0.005; -0.001; 10.235; 1e21]%float
  = ["18.00"; "1.00"; "2.50"; "0.01"; "-0.00"; "10.23"; "1e+21"].
Proof. vm_compute. reflexivity. Qed.

Example parseFloat_examples :
  map Num.parseFloat ["18.00"; " 3.5abc"; ".5"; "5."; "1e3"; "-Infinityx"; "0x10"]
  = [18; 3.5; 0.5; 5; 1000; neg_infinity; 0]%float
  /\ map (fun s => is_nan (Num.parseFloat s)) ["."; "abc"; ""; "[object Object]"]
     = [true; true; true; true].
Proof. split; vm_compute; reflexivity. Qed.

Example validateGames_examples :
  map validateGames [JStr "abc"; JNum (-5); JNum 0; JNum 3.7; JStr "12 jogos";
                     JUndefined; JNull; JArr [JNum 4; JNum 9]; JObj []]
  = map Ok [1; 1; 1; 3; 12; 1; 1; 4; 1]%float
  /\ validateGames (JObj [("toString", JNum 1)]) = Throw cannotConvert
  /\ validateGames (JArr [JNum 2; JObj [("toString", JNull)]])
     = Throw cannotConvert.
Proof. repeat split; vm_compute; reflexivity. Qed.

Example validateDimensions_examples :
  map (fun d => valid (validateDimensions (fst d) (snd d)))
      [(18, 24); (500, 500); (0, 10); (501, 10); (nan, 10); (10, -1)]%float
  = [true; true; false; false; false; false].
Proof. vm_compute. reflexivity. Qed.

(** An A4 page, 595 x 842 points, with the margin of 1 cm on each side. *)
Example calculatePdfDimensions_a4 :
  calculatePdfDimensions 595 842 1 = {| dim_width := 22.99; dim_height := 31.7 |}.
Proof. vm_compute. reflexivity. Qed.

Example regex_examples :
  test (word (lit "cmyk")) "job cmyk.pdf" = true
  /\ test (word (lit "cmyk")) "jobcmyk.pdf" = false
  /\ option_map (group 1) (exec osPattern "os 123 45678-a.pdf") = Some "45678"
  /\ option_map (fun m => (group 1 m, group 2 m)) (exec sizePattern "a 100.5 X 200MM")
     = Some ("100.5", "200")
  /\ replace pdfExtension "" "plate.pdf.PDF" = "plate.pdf".
Proof. repeat split; vm_compute; reflexivity. Qed.

End RuntimeExamples.

(* ================================================================== *)
(** * What the matcher accepts *)
(* ================================================================== *)

Fixpoint every (p : ascii -> bool) (s : string) : bool :=
  match s with
  | EmptyString => true
  | String c s' => p c && every p s'
  end.

(** The character before the position reached after reading [a]. *)
Fixpoint lastOr (pv : option ascii) (a : string) : option ascii :=
  match a with
  | EmptyString => pv
  | String c a' => lastOr (Some c) a'
  end.

Definition within (hi : option nat) (n : nat) : Prop :=
  match hi with Some m => (n <= m)%nat | None => True end.

(** [\w] right before a position. *)
Definition isWord (pv : option ascii) : bool :=
  match pv with Some c => Str.isWordChar c | None => false end.

Definition endsWithWord (s : string) : bool := isWord (lastOr None s).

Definition startsWithWord (s : string) : bool :=
  match s with String c _ => Str.isWordChar c | EmptyString => false end.

(** What a pattern accepts: the text [a], read at a position that comes
    after the character [pv] and before the text [b]. *)
Fixpoint accepts (r : regex) (pv : option ascii) (a b : string) : Prop :=
  match r with
  | Empty => a = ""
  | Class p => exists c, a = String c "" /\ p c = true
  | Seq r1 r2 =>
      exists a1 a2,
        a = a1 ++ a2 /\ accepts r1 pv a1 (a2 ++ b)
        /\ accepts r2 (lastOr pv a1) a2 b
  | Alt r1 r2 => accepts r1 pv a b \/ accepts r2 pv a b
  | Quant lo hi p =>
      every p a = true /\ (lo <= String.length a)%nat
      /\ within hi (String.length a)
  | Group _ r1 => accepts r1 pv a b
  | WordBoundary => a = "" /\ xorb (isWord pv) (startsWithWord b) = true
  | StartOfInput => a = "" /\ pv = None
  | EndOfInput => a = "" /\ b = ""
  end.

(** The text [w] occurs in [s] as a whole word: no letter of [a-z],
    [A-Z], digit or underscore right before or right after it. *)
Definition wholeWord (w s : string) : Prop :=
  exists before after : string,
    s = before ++ w ++ after
    /\ endsWithWord before = false
    /\ startsWithWord after = false.

Section RegexFacts.

Lemma same_eq (a c : ascii) : Str.same a c = true -> a = c.
Proof.
  unfold Str.same, Str.code. intros H. apply Z.eqb_eq, N2Z.inj in H.
  rewrite <- (ascii_N_embedding a), <- (ascii_N_embedding c). now rewrite H.
Qed.

Lemma same_refl (a : ascii) : Str.same a a = true.
Proof. unfold Str.same. apply Z.eqb_refl. Qed.

Lemma length_append (a b : string) :
  String.length (a ++ b) = (String.length a + String.length b)%nat.
Proof. induction a as [|c a IH]; simpl; [reflexivity|now rewrite IH]. Qed.

Lemma append_nil_r (a : string) : a ++ "" = a.
Proof. induction a as [|c a IH]; simpl; [reflexivity|now rewrite IH]. Qed.

Lemma append_assoc (a b c : string) : (a ++ b) ++ c = a ++ (b ++ c).
Proof. induction a as [|x a IH]; simpl; [reflexivity|now rewrite IH]. Qed.

Lemma take_append (a b : string) : Str.take (String.length a) (a ++ b) = a.
Proof. induction a as [|c a IH]; simpl; [now destruct b|now rewrite IH]. Qed.

Lemma every_append (p : ascii -> bool) (a b : string) :
  every p (a ++ b) = every p a && every p b.
Proof.
  induction a as [|c a IH]; simpl; [reflexivity|].
  now rewrite IH, andb_assoc.
Qed.

(** A greedy repetition that succeeds has read a prefix of characters of
    the class, of an allowed length, and the rest of the pattern has
    succeeded from there. *)
Lemma quant_sound {R : Type} (p : ascii -> bool) (s : string) :
  forall (lo : nat) (hi : option nat) (pv : option ascii)
         (cs : list (nat * string)) (k : mstate -> option R) (r : R),
    quant p lo hi pv s cs k = Some r ->
    exists a b,
      s = a ++ b /\ every p a = true /\ (lo <= String.length a)%nat
      /\ within hi (String.length a)
      /\ k (MState (lastOr pv a) b cs) = Some r.
Proof.
  induction s as [|c s IH]; intros lo hi pv cs k r H; cbn [quant] in H.
  - destruct lo; [|discriminate].
    exists "", "". repeat split; trivial. destruct hi; simpl; lia.
  - assert (Stop : match lo with
                   | O => k (MState pv (String c s) cs)
                   | S _ => None
                   end = Some r ->
                   exists a b,
                     String c s = a ++ b /\ every p a = true
                     /\ (lo <= String.length a)%nat
                     /\ within hi (String.length a)
                     /\ k (MState (lastOr pv a) b cs) = Some r).
    { destruct lo; [|discriminate]. intros Hk.
      exists "", (String c s). repeat split; trivial. destruct hi; simpl; lia. }
    destruct (p c) eqn:Pc; [|now apply Stop].
    destruct (hasRoom hi) eqn:Room; [|now apply Stop].
    cbn [andb] in H.
    destruct (quant p (Nat.pred lo) (lessOne hi) (Some c) s cs k) as [r'|] eqn:Q;
      [|now apply Stop].
    injection H as ->.
    destruct (IH _ _ _ _ _ _ Q) as (a & b & -> & Ha & Hlo & Hhi & Hk).
    exists (String c a), b. cbn [every String.length lastOr append].
    rewrite Pc, Ha. repeat split; trivial; [lia|].
    destruct hi as [[|m]|]; simpl in *; try discriminate; lia.
Qed.

(** Conversely, when some prefix of characters of the class, of an
    allowed length, lets the rest of the pattern succeed, the repetition
    succeeds. *)
Lemma quant_complete {R : Type} (p : ascii -> bool) (a b : string) :
  forall (lo : nat) (hi : option nat) (pv : option ascii)
         (cs : list (nat * string)) (k : mstate -> option R),
    every p a = true -> (lo <= String.length a)%nat ->
    within hi (String.length a) ->
    k (MState (lastOr pv a) b cs) <> None ->
    quant p lo hi pv (a ++ b) cs k <> None.
Proof.
  induction a as [|c a IH]; intros lo hi pv cs k Ha Hlo Hhi Hk.
  - simpl in Hlo. assert (lo = 0%nat) by lia. subst lo.
    cbn [append lastOr] in *. destruct b as [|c b]; cbn [quant]; [exact Hk|].
    destruct (p c && hasRoom hi); [|exact Hk].
    destruct (quant p (Nat.pred 0) (lessOne hi) (Some c) b cs k);
      [discriminate|exact Hk].
  - cbn [every] in Ha. apply andb_true_iff in Ha. destruct Ha as [Pc Ha].
    cbn [append quant]. rewrite Pc.
    assert (Room : hasRoom hi = true).
    { destruct hi as [[|m]|]; simpl in *; trivial. lia. }
    rewrite Room. cbn [andb].
    assert (Q : quant p (Nat.pred lo) (lessOne hi) (Some c) (a ++ b) cs k <> None).
    { apply IH; trivial.
      - simpl in Hlo. lia.
      - destruct hi as [m|]; simpl in *; trivial. lia. }
    destruct (quant p (Nat.pred lo) (lessOne hi) (Some c) (a ++ b) cs k);
      [discriminate|contradiction].
Qed.

(** A search returns a match of the pattern at some position. *)
Lemma searchFrom_sound (r : regex) (s : string) :
  forall (i : nat) (pv : option ascii) (m : found),
    searchFrom r i pv s = Some m ->
    exists before s' st,
      s = before ++ s'
      /\ run r (MState (lastOr pv before) s' []) Some = Some st
      /\ groups m = caps st
      /\ after m = rest st.
Proof.
  induction s as [|c s IH]; intros i pv m H; cbn [searchFrom] in H.
  - destruct (run r (MState pv "" []) Some) as [st|] eqn:Hrun; [|discriminate].
    injection H as <-. exists "", "", st. repeat split; trivial.
  - destruct (run r (MState pv (String c s) []) Some) as [st|] eqn:Hrun.
    + injection H as <-. exists "", (String c s), st. repeat split; trivial.
    + destruct (IH _ _ _ H) as (before & s' & st & -> & Hr & Hg & Ha).
      exists (String c before), s', st. repeat split; trivial.
Qed.

(** A search succeeds when the pattern matches at some position. *)
Lemma searchFrom_complete (r : regex) (before s' : string) :
  forall (i : nat) (pv : option ascii),
    run r (MState (lastOr pv before) s' []) Some <> None ->
    searchFrom r i pv (before ++ s') <> None.
Proof.
  induction before as [|c before IH]; intros i pv H; cbn [append lastOr] in *.
  - destruct s' as [|c s']; cbn [searchFrom];
      destruct (run r (MState pv _ []) Some); try discriminate; contradiction.
  - cbn [searchFrom].
    destruct (run r (MState pv (String c (before ++ s')) []) Some);
      [discriminate|]. now apply IH.
Qed.

(** A search fails when the pattern fails at every position. *)
Lemma searchFrom_none (r : regex) (s : string) :
  (forall pv before s', s = before ++ s' -> run r (MState pv s' []) Some = None) ->
  forall i pv, searchFrom r i pv s = None.
Proof.
  induction s as [|c s IH]; intros Hall i pv; cbn [searchFrom].
  - now rewrite (Hall pv "" "" eq_refl).
  - rewrite (Hall pv "" (String c s) eq_refl). apply IH.
    intros pv' before s' ->. apply (Hall pv' (String c before) s'). reflexivity.
Qed.

Lemma lastOr_append (pv : option ascii) (a b : string) :
  lastOr pv (a ++ b) = lastOr (lastOr pv a) b.
Proof. revert pv. induction a as [|c a IH]; intros pv; simpl; [reflexivity|apply IH]. Qed.

Lemma lastOr_nonempty (pv pv' : option ascii) (a : string) :
  a <> "" -> lastOr pv a = lastOr pv' a.
Proof.
  destruct a as [|c a]; [congruence|]. intros _. reflexivity.
Qed.

(** The matcher is sound: when it succeeds, the pattern has accepted a
    prefix of the input and the rest of the match went on from there. *)
Lemma run_sound {R : Type} (r : regex) :
  forall (st : mstate) (k : mstate -> option R) (x : R),
    run r st k = Some x ->
    exists a b cs,
      rest st = a ++ b /\ accepts r (prev st) a b
      /\ k (MState (lastOr (prev st) a) b cs) = Some x.
Proof.
  induction r as [|p|r1 IH1 r2 IH2|r1 IH1 r2 IH2|lo hi p|i r1 IH1| | |];
    intros [pv s cs] k x H; cbn [run prev rest caps] in *.
  - exists "", s, cs. repeat split; trivial.
  - destruct s as [|c s]; [discriminate|].
    destruct (p c) eqn:Pc; [|discriminate].
    exists (String c ""), s, cs. repeat split; trivial. now exists c.
  - destruct (IH1 _ _ _ H) as (a1 & b1 & cs1 & E1 & A1 & K1).
    destruct (IH2 _ _ _ K1) as (a2 & b & cs2 & E2 & A2 & K2).
    cbn [prev rest] in *. subst s b1.
    exists (a1 ++ a2), b, cs2. rewrite append_assoc, lastOr_append.
    repeat split; trivial. now exists a1, a2.
  - destruct (run r1 (MState pv s cs) k) as [y|] eqn:E.
    + injection H as ->. destruct (IH1 _ _ _ E) as (a & b & cs' & E1 & A1 & K1).
      exists a, b, cs'. repeat split; trivial. now left.
    + destruct (IH2 _ _ _ H) as (a & b & cs' & E1 & A1 & K1).
      exists a, b, cs'. repeat split; trivial. now right.
  - destruct (quant_sound _ _ _ _ _ _ _ _ H) as (a & b & -> & Ha & Hlo & Hhi & K).
    exists a, b, cs. repeat split; trivial.
  - destruct (IH1 _ _ _ H) as (a & b & cs' & E1 & A1 & K1).
    cbn [prev rest caps] in *. eexists a, b, _. repeat split; eauto.
  - destruct (xorb _ _) eqn:B; [|discriminate].
    exists "", s, cs. repeat split; trivial.
  - destruct pv; [discriminate|]. exists "", s, cs. repeat split; trivial.
  - destruct s; [|discriminate]. exists "", "", cs. repeat split; trivial.
Qed.

(** The matcher is complete: it succeeds whenever the pattern accepts a
    prefix from which the rest of the match succeeds. *)
Lemma run_complete {R : Type} (r : regex) :
  forall (pv : option ascii) (a b : string) (cs : list (nat * string))
         (k : mstate -> option R),
    accepts r pv a b ->
    (forall cs', k (MState (lastOr pv a) b cs') <> None) ->
    run r (MState pv (a ++ b) cs) k <> None.
Proof.
  induction r as [|p|r1 IH1 r2 IH2|r1 IH1 r2 IH2|lo hi p|i r1 IH1| | |];
    intros pv a b cs k A K; cbn [run accepts prev rest caps] in *.
  - subst a. apply K.
  - destruct A as (c & -> & Pc). cbn [append]. rewrite Pc. apply (K cs).
  - destruct A as (a1 & a2 & -> & A1 & A2). rewrite append_assoc.
    apply IH1; [exact A1|]. intros cs'. apply IH2; [exact A2|].
    intros cs''. rewrite <- lastOr_append. apply K.
  - destruct (run r1 (MState pv (a ++ b) cs) k) eqn:E; [discriminate|].
    destruct A as [A|A].
    + exfalso. now apply (IH1 pv a b cs k A K).
    + now apply IH2.
  - destruct A as (Ha & Hlo & Hhi). now apply quant_complete.
  - apply IH1; [exact A|]. intros cs'. apply K.
  - destruct A as [-> B]. cbn [append lastOr] in *.
    unfold wordBefore, wordAfter. cbn [prev rest].
    change (match pv with Some c => Str.isWordChar c | None => false end)
      with (isWord pv).
    change (match b with String c _ => Str.isWordChar c | EmptyString => false end)
      with (startsWithWord b).
    rewrite B. apply K.
  - destruct A as [-> ->]. apply K.
  - destruct A as [-> ->]. apply K.
Qed.

(** [r.test(s)] is true exactly when the pattern accepts some part of
    [s]. *)
Lemma test_accepts (r : regex) (s : string) :
  test r s = true
  <-> exists before a after,
        s = before ++ a ++ after /\ accepts r (lastOr None before) a after.
Proof.
  unfold test, exec. split.
  - destruct (searchFrom r 0 None s) as [m|] eqn:E; [|discriminate]. intros _.
    destruct (searchFrom_sound _ _ _ _ _ E) as (before & s' & st & -> & Hrun & _).
    destruct (run_sound _ _ _ _ Hrun) as (a & b & cs & E1 & A & _).
    cbn [prev rest] in *. subst s'. now exists before, a, b.
  - intros (before & a & after0 & -> & A).
    destruct (searchFrom r 0 None (before ++ a ++ after0)) eqn:E; [reflexivity|].
    exfalso. revert E. apply searchFrom_complete.
    apply run_complete; [exact A|]. discriminate.
Qed.

Lemma accepts_lit (w : string) :
  forall pv a b, accepts (lit w) pv a b <-> a = w.
Proof.
  induction w as [|c w IH]; intros pv a b; [reflexivity|].
  destruct w as [|c' w].
  - cbn [lit accepts]. split.
    + intros (x & -> & Hx). now rewrite (same_eq _ _ Hx).
    + intros ->. exists c. split; [reflexivity|apply same_refl].
  - change (lit (String c (String c' w)))
      with (Seq (Class (Str.same c)) (lit (String c' w))).
    cbn [accepts]. split.
    + intros (a1 & a2 & -> & (x & -> & Hx) & A2).
      apply IH in A2. subst a2. now rewrite (same_eq _ _ Hx).
    + intros ->. exists (String c ""), (String c' w).
      split; [reflexivity|]. split.
      * exists c. split; [reflexivity|apply same_refl].
      * now apply IH.
Qed.

(** A pattern between two [\b]. *)
Lemma accepts_word (r : regex) (pv : option ascii) (a b : string) :
  accepts (word r) pv a b
  <-> accepts r pv a b
      /\ xorb (isWord pv) (startsWithWord (a ++ b)) = true
      /\ xorb (isWord (lastOr pv a)) (startsWithWord b) = true.
Proof.
  unfold word, seqs. cbn [fold_right accepts]. split.
  - intros (a1 & a2 & -> & [-> B1] & a3 & a4 & -> & A & a5 & a6 & -> & [-> B2] & ->).
    cbn [append lastOr] in *. rewrite append_nil_r in *. now repeat split.
  - intros (A & B1 & B2).
    exists "", a. split; [reflexivity|]. split; [now split|].
    exists a, "". rewrite append_nil_r. cbn [append lastOr]. split; [reflexivity|].
    split; [exact A|]. exists "", "". now repeat split.
Qed.

Lemma xorb_word_start (pv : option ascii) (s : string) :
  startsWithWord s = true ->
  xorb (isWord pv) (startsWithWord s) = true <-> isWord pv = false.
Proof. intros ->. destruct (isWord pv); cbn; intuition congruence. Qed.

Lemma xorb_word_end (pv : option ascii) (s : string) :
  isWord pv = true ->
  xorb (isWord pv) (startsWithWord s) = true <-> startsWithWord s = false.
Proof. intros ->. destruct (startsWithWord s); cbn; intuition congruence. Qed.

Lemma startsWithWord_append (w b : string) :
  startsWithWord w = true -> startsWithWord (w ++ b) = true.
Proof. destruct w; [discriminate|]. intros H. exact H. Qed.

(** A literal word between two [\b] is found exactly where it occurs as
    a whole word. *)
Lemma test_word_lit (w s : string) :
  startsWithWord w = true -> endsWithWord w = true ->
  test (word (lit w)) s = true <-> wholeWord w s.
Proof.
  intros Hs He. rewrite test_accepts. unfold wholeWord, endsWithWord in *.
  assert (Hne : w <> "") by (destruct w; [discriminate|discriminate]).
  split.
  - intros (before & a & after0 & -> & A).
    apply accepts_word in A. destruct A as (A & B1 & B2).
    apply accepts_lit in A. subst a.
    rewrite (xorb_word_start _ _ (startsWithWord_append w after0 Hs)) in B1.
    rewrite (lastOr_nonempty _ None w Hne) in B2.
    rewrite (xorb_word_end _ _ He) in B2.
    now exists before, after0.
  - intros (before & after0 & -> & Hb & Ha).
    exists before, w, after0. split; [reflexivity|].
    apply accepts_word. split; [now apply accepts_lit|].
    rewrite (xorb_word_start _ _ (startsWithWord_append w after0 Hs)).
    rewrite (lastOr_nonempty _ None w Hne).
    rewrite (xorb_word_end _ _ He). now split.
Qed.

(** A pattern between two [\b] whose matches all begin and end with a
    word character is found exactly where one of its matches occurs as a
    whole word. *)
Lemma test_word_of (P : string -> Prop) (r : regex) (s : string) :
  (forall pv a b, accepts r pv a b <-> P a) ->
  (forall a, P a -> startsWithWord a = true /\ endsWithWord a = true) ->
  test (word r) s = true <-> exists w, P w /\ wholeWord w s.
Proof.
  intros HP Hw. rewrite test_accepts. unfold wholeWord. split.
  - intros (before & a & after0 & -> & A).
    apply accepts_word in A. destruct A as (A & B1 & B2).
    apply HP in A. destruct (Hw a A) as [Hs He].
    assert (Hne : a <> "") by (destruct a; [discriminate|discriminate]).
    rewrite (xorb_word_start _ _ (startsWithWord_append a after0 Hs)) in B1.
    rewrite (lastOr_nonempty _ None a Hne) in B2.
    rewrite (xorb_word_end _ _ He) in B2.
    exists a. split; [exact A|]. now exists before, after0.
  - intros (w & Pw & before & after0 & -> & Hb & Ha).
    destruct (Hw w Pw) as [Hs He].
    assert (Hne : w <> "") by (destruct w; [discriminate|discriminate]).
    exists before, w, after0. split; [reflexivity|].
    apply accepts_word. split; [now apply HP|].
    rewrite (xorb_word_start _ _ (startsWithWord_append w after0 Hs)).
    rewrite (lastOr_nonempty _ None w Hne).
    rewrite (xorb_word_end _ _ He). now split.
Qed.

(** [\b r1 r2 \b], written as a sequence of four, accepts what
    [\b (r1 r2) \b] accepts. *)
Lemma accepts_seqs4 (r1 r2 : regex) (pv : option ascii) (a b : string) :
  accepts (seqs [WordBoundary; r1; r2; WordBoundary]) pv a b
  <-> accepts (word (Seq r1 r2)) pv a b.
Proof.
  unfold word, seqs. cbn [fold_right accepts]. split.
  - intros (a1 & a2 & -> & [-> B1] & a3 & a4 & -> & A1 & a5 & a6 & -> & A2
            & a7 & a8 & -> & [-> B2] & ->).
    cbn [append lastOr] in *. rewrite append_nil_r in *.
    exists "", (a3 ++ a5). split; [reflexivity|]. split; [now split|].
    exists (a3 ++ a5), "". rewrite append_nil_r. split; [reflexivity|].
    cbn [append lastOr]. split.
    + now exists a3, a5.
    + exists "", "". rewrite lastOr_append. now repeat split.
  - intros (a1 & a2 & -> & [-> B1] & a3 & a4 & -> & (a5 & a6 & -> & A1 & A2)
            & a7 & a8 & -> & [-> B2] & ->).
    cbn [append lastOr] in *. rewrite append_nil_r in *.
    exists "", (a5 ++ a6). split; [reflexivity|]. split; [now split|].
    exists a5, a6. split; [reflexivity|]. cbn [append lastOr]. split; [exact A1|].
    exists a6, "". rewrite append_nil_r. split; [reflexivity|].
    split; [exact A2|]. exists "", "". rewrite <- lastOr_append. now repeat split.
Qed.

Lemma test_seqs4 (r1 r2 : regex) (s : string) :
  test (seqs [WordBoundary; r1; r2; WordBoundary]) s = test (word (Seq r1 r2)) s.
Proof.
  apply eq_true_iff_eq. rewrite !test_accepts.
  split; intros (before & a & after0 & E & A); exists before, a, after0;
    (split; [exact E|]); now apply accepts_seqs4.
Qed.

Lemma endsWithWord_append (a w : string) :
  w <> "" -> endsWithWord (a ++ w) = endsWithWord w.
Proof.
  intros Hne. unfold endsWithWord. rewrite lastOr_append.
  now rewrite (lastOr_nonempty _ None w Hne).
Qed.

End RegexFacts.

(* ================================================================== *)
(** * Heuristic extractor: [detectColors], [extractOS], [extractDimensions] *)
(* ================================================================== *)

Section ColorDetectionFacts.

(** The recognizers that match a (lower-cased) file name, in table order. *)
Definition matching (filenameLower : string) : list Pattern :=
  filter (fun p => test (regex_of p) filenameLower) patterns.

Definition sumGames (ps : list Pattern) : Z :=
  fold_right Z.add 0 (map games_of ps).

Lemma detect_loop (lower : string) (ps : list Pattern) (detected : list string)
      (total : Z) :
  fold_left (detectStep lower) ps (detected, total)
  = ((detected ++ map name (filter (fun p => test (regex_of p) lower) ps))%list,
     total + sumGames (filter (fun p => test (regex_of p) lower) ps)).
Proof.
  revert detected total.
  induction ps as [|p ps IH]; intros detected total; simpl.
  - now rewrite app_nil_r, Z.add_0_r.
  - unfold detectStep at 2. destruct (test (regex_of p) lower); simpl.
    + rewrite IH. unfold sumGames; simpl.
      now rewrite <- app_assoc, Z.add_assoc.
    + apply IH.
Qed.

Lemma sumGames_nonneg (lower : string) : 0 <= sumGames (matching lower).
Proof.
  unfold matching.
  assert (H : Forall (fun p => 0 <= games_of p) patterns)
    by (repeat constructor; simpl; lia).
  induction patterns as [|p ps IH]; simpl; [unfold sumGames; simpl; lia|].
  inversion H; subst.
  destruct (test (regex_of p) lower); auto.
  unfold sumGames in *; simpl. specialize (IH H3). lia.
Qed.

Lemma matching_empty : matching (Str.toLowerCase "") = [].
Proof. reflexivity. Qed.

Lemma length_zero_nil {A : Type} (l : list A) :
  (if (0 <? List.length l)%nat then l else []) = l.
Proof. now destruct l. Qed.

End ColorDetectionFacts.

(** ** What the recognizers look for *)

(** A spot-colour code: three to five digits followed by the letter c. *)
Definition spotCode (w : string) : Prop :=
  exists ds : string,
    w = ds ++ "c" /\ every Str.isDigit ds = true
    /\ (3 <= String.length ds <= 5)%nat.

(** A gray level: [gray1] to [gray4]. *)
Definition grayLevel (w : string) : Prop :=
  exists d : ascii,
    w = "gray" ++ String d "" /\ In d ["1"; "2"; "3"; "4"]%char.

(** Some text with property [P] occurs in [s] as a whole word. *)
Definition hasWord (P : string -> Prop) (s : string) : Prop :=
  exists w, P w /\ wholeWord w s.

(** The implied count of a tag. *)
Definition impliedGames (tag : string) : Z :=
  if String.eqb tag "CMYK" then 4 else 1.

Definition tagOrder : list string :=
  ["CMYK"; "PANTONE"; "GRAY"; "BLACK"; "WHITE"; "RED"; "BLUE"].

Section RecognizerFacts.

Lemma level_char (d : ascii) :
  Str.between 49 52 d = true <-> In d ["1"; "2"; "3"; "4"]%char.
Proof.
  split.
  - destruct d as [[] [] [] [] [] [] [] []]; vm_compute; intros H;
      try discriminate; tauto.
  - intros [<-|[<-|[<-|[<-|[]]]]]; reflexivity.
Qed.

Lemma accepts_spotCode (pv : option ascii) (a b : string) :
  accepts (Seq (Group 1 (Quant 3 (Some 5%nat) Str.isDigit)) (lit "c")) pv a b
  <-> spotCode a.
Proof.
  unfold spotCode. cbn [accepts lit within]. split.
  - intros (ds & c & -> & (Hds & Hlo & Hhi) & (x & -> & Hx)).
    rewrite <- (same_eq _ _ Hx). exists ds. repeat split; trivial.
  - intros (ds & -> & Hds & Hlo & Hhi). exists ds, "c".
    repeat split; trivial. exists "c"%char. now split.
Qed.

Lemma accepts_grayLevel (pv : option ascii) (a b : string) :
  accepts (Seq (lit "gray") (Class (Str.between 49 52))) pv a b <-> grayLevel a.
Proof.
  unfold grayLevel. cbn [accepts]. split.
  - intros (a1 & a2 & -> & A1 & (d & -> & Hd)).
    apply (accepts_lit "gray") in A1. subst a1. exists d.
    split; [reflexivity|now apply level_char].
  - intros (d & -> & Hd). exists "gray", (String d "").
    split; [reflexivity|]. split; [now apply (accepts_lit "gray")|].
    exists d. split; [reflexivity|now apply level_char].
Qed.

Lemma spotCode_word (w : string) :
  spotCode w -> startsWithWord w = true /\ endsWithWord w = true.
Proof.
  intros (ds & -> & Hds & Hlo & _). split.
  - destruct ds as [|c ds]; [simpl in Hlo; lia|]. cbn [every append] in *.
    apply andb_true_iff in Hds. destruct Hds as [Hc _].
    cbn [startsWithWord]. unfold Str.isWordChar. rewrite Hc.
    now rewrite orb_true_r.
  - now rewrite endsWithWord_append by discriminate.
Qed.

Lemma grayLevel_word (w : string) :
  grayLevel w -> startsWithWord w = true /\ endsWithWord w = true.
Proof.
  intros (d & -> & [<-|[<-|[<-|[<-|[]]]]]); split; reflexivity.
Qed.

Lemma accepts_alternatives (ws : list string) (r : regex) :
  (forall pv a b, accepts r pv a b <-> In a ws) ->
  forall w pv a b, accepts (Alt (lit w) r) pv a b <-> In a (w :: ws).
Proof.
  intros H w pv a b. cbn [accepts In]. rewrite accepts_lit, H.
  split; intros [E|E]; auto.
Qed.

Lemma accepts_last (w : string) (pv : option ascii) (a b : string) :
  accepts (lit w) pv a b <-> In a [w].
Proof. rewrite accepts_lit. cbn [In]. split; [auto|intros [E|[]]; auto]. Qed.

(** What each recognizer of the table looks for in the lower-cased name. *)
Lemma recognizers (lower : string) :
  (test (word (lit "cmyk")) lower = true <-> wholeWord "cmyk" lower)
  /\ (test (seqs [WordBoundary; Group 1 (Quant 3 (Some 5%nat) Str.isDigit);
                  lit "c"; WordBoundary]) lower = true
      <-> hasWord spotCode lower)
  /\ (test (seqs [WordBoundary; lit "gray"; Class (Str.between 49 52);
                  WordBoundary]) lower = true
      <-> hasWord grayLevel lower)
  /\ (test (word (Group 1 (Alt (lit "black") (Alt (lit "preto")
                              (Alt (lit "pb") (lit "p&b")))))) lower = true
      <-> hasWord (fun w => In w ["black"; "preto"; "pb"; "p&b"]) lower)
  /\ (test (word (Group 1 (Alt (lit "white") (lit "branco")))) lower = true
      <-> hasWord (fun w => In w ["white"; "branco"]) lower)
  /\ (test (word (lit "red")) lower = true <-> wholeWord "red" lower)
  /\ (test (word (lit "blue")) lower = true <-> wholeWord "blue" lower).
Proof.
  split; [apply (test_word_lit "cmyk"); reflexivity|].
  split; [rewrite test_seqs4; apply test_word_of;
          [apply accepts_spotCode|apply spotCode_word]|].
  split; [rewrite test_seqs4; apply test_word_of;
          [apply accepts_grayLevel|apply grayLevel_word]|].
  split.
  { apply test_word_of.
    - change (forall pv a b,
                 accepts (Alt (lit "black") (Alt (lit "preto")
                                (Alt (lit "pb") (lit "p&b")))) pv a b
                 <-> In a ["black"; "preto"; "pb"; "p&b"]).
      intros pv a b. revert pv a b.
      apply (accepts_alternatives ["preto"; "pb"; "p&b"]).
      apply (accepts_alternatives ["pb"; "p&b"]).
      apply (accepts_alternatives ["p&b"]). apply accepts_last.
    - intros a [<-|[<-|[<-|[<-|[]]]]]; split; reflexivity. }
  split.
  { apply test_word_of.
    - change (forall pv a b,
                 accepts (Alt (lit "white") (lit "branco")) pv a b
                 <-> In a ["white"; "branco"]).
      intros pv a b. revert pv a b.
      apply (accepts_alternatives ["branco"]). apply accepts_last.
    - intros a [<-|[<-|[]]]; split; reflexivity. }
  split; [apply (test_word_lit "red"); reflexivity
         |apply (test_word_lit "blue"); reflexivity].
Qed.

Lemma detectColors_of_matching (filename : string) :
  detected_colors (detectColors filename)
  = map name (matching (Str.toLowerCase filename))
  /\ gameCount (detectColors filename)
     = Z.max 1 (sumGames (matching (Str.toLowerCase filename))).
Proof.
  unfold detectColors.
  destruct (String.eqb_spec filename "") as [->|_].
  - rewrite matching_empty. split; reflexivity.
  - rewrite detect_loop. simpl. fold (matching (Str.toLowerCase filename)).
    now rewrite length_zero_nil.
Qed.

End RecognizerFacts.

(** C9.  For every file name, the colour tags of [detectColors] are the
    names of the recognizers that match the lower-cased name, in the order
    of the table and without repetition, and each recognizer matches what
    the table says: CMYK the word cmyk; PANTONE a run of three to five
    digits followed by c; GRAY one of gray1 to gray4; BLACK one of black,
    preto, pb, p&b; WHITE white or branco; RED and BLUE the words red and
    blue, each as a whole word.  The game count is the maximum of 1 and
    the sum of the implied counts of the tags, 4 for CMYK and 1 for each
    other tag; it is therefore at least 1, and 1 when there is no tag. *)
Theorem detectColors_sum_of_matches (filename : string) :
  let lower := Str.toLowerCase filename in
  let tags := detected_colors (detectColors filename) in
  map (fun p => (name p, games_of p)) patterns
  = map (fun tag => (tag, impliedGames tag)) tagOrder
  /\ (In "CMYK" tags <-> wholeWord "cmyk" lower)
  /\ (In "PANTONE" tags <-> hasWord spotCode lower)
  /\ (In "GRAY" tags <-> hasWord grayLevel lower)
  /\ (In "BLACK" tags
      <-> hasWord (fun w => In w ["black"; "preto"; "pb"; "p&b"]) lower)
  /\ (In "WHITE" tags <-> hasWord (fun w => In w ["white"; "branco"]) lower)
  /\ (In "RED" tags <-> wholeWord "red" lower)
  /\ (In "BLUE" tags <-> wholeWord "blue" lower)
  /\ tags = filter (fun tag => existsb (String.eqb tag) tags) tagOrder
  /\ gameCount (detectColors filename)
     = Z.max 1 (fold_right Z.add 0 (map impliedGames tags))
  /\ 1 <= gameCount (detectColors filename)
  /\ (tags = [] -> gameCount (detectColors filename) = 1).
Proof.
  cbn zeta. split; [reflexivity|].
  destruct (detectColors_of_matching filename) as [-> ->].
  destruct (recognizers (Str.toLowerCase filename))
    as (R1 & R2 & R3 & R4 & R5 & R6 & R7).
  rewrite <- R1, <- R2, <- R3, <- R4, <- R5, <- R6, <- R7. clear.
  unfold matching, patterns, sumGames. cbn [regex_of filter].
  generalize (Str.toLowerCase filename) as lower. intros lower.
  destruct (test (word (lit "cmyk")) lower);
    destruct (test (seqs [WordBoundary; Group 1 (Quant 3 (Some 5%nat) Str.isDigit);
                          lit "c"; WordBoundary]) lower);
    destruct (test (seqs [WordBoundary; lit "gray"; Class (Str.between 49 52);
                          WordBoundary]) lower);
    destruct (test (word (Group 1 (Alt (lit "black") (Alt (lit "preto")
                                   (Alt (lit "pb") (lit "p&b")))))) lower);
    destruct (test (word (Group 1 (Alt (lit "white") (lit "branco")))) lower);
    destruct (test (word (lit "red")) lower);
    destruct (test (word (lit "blue")) lower);
    cbn [map name games_of fold_right];
    repeat match goal with |- _ /\ _ => split end;
    first
      [ split;
        [ first [ intros _; reflexivity
                | intros H; exfalso; cbn [In] in H; intuition discriminate ]
        | first [ intros H; discriminate H
                | intros _; cbn [In]; tauto ] ]
      | reflexivity
      | lia
      | intros H; first [discriminate H | reflexivity] ].
Qed.

(** Every recognizer at work, and names that come close to a colour
    without naming one: two digits or six before the c, a gray level
    out of range, a longer word. *)
Lemma detectColors_recognizer_examples :
  detectColors "Job CMYK 485c gray2 p&b branco red blue.pdf"
  = {| detected_colors := tagOrder; gameCount := 10 |}
  /\ detectColors "12c 123456c gray5 reds blues.pdf"
     = {| detected_colors := []; gameCount := 1 |}
  /\ detectColors "" = {| detected_colors := []; gameCount := 1 |}.
Proof. repeat split; vm_compute; reflexivity. Qed.

(** The file name of the specification's example. *)
Definition exampleName : string := "4787_180x240mm_CMYK.pdf".

(** C1.  On ["4787_180x240mm_CMYK.pdf"] the size pattern finds 180x240mm
    and [extractDimensions] gives 18 by 24 cm; but [\b] sees no boundary
    next to an underscore, so [extractOS] finds no job number and
    [detectColors] no colour: the results are [""], no tags and 1 game
    where the example expects ["4787"], [["CMYK"]] and 4. *)
Theorem example_filename_extraction :
  extractDimensions exampleName = Some {| dim_width := 18; dim_height := 24 |}
  /\ extractOS exampleName = ""
  /\ detectColors exampleName = {| detected_colors := []; gameCount := 1 |}.
Proof. repeat split; vm_compute; reflexivity. Qed.

(** With hyphens for the underscores the three extractors give what the
    example expects. *)
Lemma example_filename_hyphens :
  extractOS "4787-180x240mm-CMYK.pdf" = "4787"
  /\ extractDimensions "4787-180x240mm-CMYK.pdf"
     = Some {| dim_width := 18; dim_height := 24 |}
  /\ detectColors "4787-180x240mm-CMYK.pdf"
     = {| detected_colors := ["CMYK"]; gameCount := 4 |}.
Proof. repeat split; vm_compute; reflexivity. Qed.

(** The underscore is a word character, so no word boundary lies between
    a digit or a letter and an underscore. *)
Lemma underscore_is_word_char :
  Str.isWordChar "_" = true
  /\ test osPattern "4787_" = false
  /\ test osPattern "4787 " = true
  /\ test (word (lit "cmyk")) "_cmyk." = false
  /\ test (word (lit "cmyk")) " cmyk." = true.
Proof. repeat split; reflexivity. Qed.

(* ================================================================== *)

(** * Record migrator: [migrateOrderItem] *)
(* ================================================================== *)

(** Arrays and plain objects: the values that are neither [null] nor of a
    non-object type. *)
Definition isObject (v : JsValue) : bool :=
  match v with
  | JArr _ | JObj _ => true
  | _ => false
  end.

(** A world for the closed examples. *)
Definition sampleWorld : World := {|
  randomSource := fun _ => "0.4fzyo82mvyr";
  randomCalls := 0;
  clock := fun _ => {| toISOString := "2024-03-05T10:11:12.000Z";
                       getMonth := 2; getFullYear := 2024 |};
  clockCalls := 0;
  userConfirms := true;
  development := false
|}.

(** What [migrateOrderItem] generates when [id] or [date] is missing. *)
Definition generatedId (w : World) : string :=
  Str.substr 2 9 (randomSource w (randomCalls w)).
Definition currentDate (w : World) : string :=
  Str.splitHead "T" (toISOString (clock w (clockCalls w))).

(** The values [String], [parseFloat] and [parseInt] convert: all but the
    objects with an own property [toString] and the arrays that hold,
    at any depth, such an object. *)
Fixpoint convertible (v : JsValue) : bool :=
  match v with
  | JArr elems =>
      (fix all (l : list JsValue) : bool :=
         match l with
         | [] => true
         | e :: l' => convertible e && all l'
         end) elems
  | JObj props => negb (hasOwn "toString" props)
  | _ => true
  end.

(** [String(v)] for a value that it converts. *)
Definition text (v : JsValue) : string :=
  match toString v with Ok s => s | Throw _ => "" end.

(** [validateGames(v)] for a value that [parseInt] converts. *)
Definition gamesOf (v : JsValue) : float :=
  Num.max 1 (if is_nan (Num.parseInt (text v)) then 1%float
             else Num.parseInt (text v)).

(** The properties [migrateOrderItem] converts to a string or a number,
    in the order in which it does so. *)
Definition convertedProperties : list string :=
  ["os"; "clientDescription"; "colors"; "width"; "height"; "games";
   "pricePerCm2"; "observations"].

Definition convertibleFields (item : JsValue) : bool :=
  forallb (fun k => convertible (get item k)) convertedProperties.

(** The value of field [k] of a migrated item, from the value [v] of the
    same property of the input. *)
Definition migratedField (w : World) (k : string) (v : JsValue) : JsValue :=
  if String.eqb k "id" then (if truthy v then v else JStr (generatedId w))
  else if String.eqb k "os" then JStr (text (or v (JStr "")))
  else if String.eqb k "clientDescription" then JStr (text (or v (JStr "")))
  else if String.eqb k "colors" then JStr (text (or v (JStr "")))
  else if String.eqb k "jobType" then or v (JStr Novo)
  else if String.eqb k "date" then (if truthy v then v else JStr (currentDate w))
  else if String.eqb k "width" then JNum (numOr (Num.parseFloat (text v)) 0)
  else if String.eqb k "height" then JNum (numOr (Num.parseFloat (text v)) 0)
  else if String.eqb k "games" then JNum (gamesOf v)
  else if String.eqb k "pricePerCm2"
       then JNum (numOr (Num.parseFloat (text v)) DEFAULT_RATE)
  else if String.eqb k "observations" then JStr (text (or v (JStr "")))
  else JUndefined.

(** The world after [r] more random numbers and [c] more readings of the
    clock. *)
Definition advance (r c : nat) (w : World) : World :=
  {| randomSource := randomSource w; randomCalls := (r + randomCalls w)%nat;
     clock := clock w; clockCalls := (c + clockCalls w)%nat;
     userConfirms := userConfirms w; development := development w |}.

Section MigrationFacts.

Lemma guard_isObject (v : JsValue) :
  negb (truthy v) || negb (typeofObject v) = negb (isObject v).
Proof. destruct v; simpl; rewrite ?orb_true_r; reflexivity. Qed.

Lemma bind_run {A B : Type} (m : M A) (f : A -> M B) (w : World) :
  bind m f w = f (fst (m w)) (snd (m w)).
Proof. unfold bind. now destruct (m w). Qed.

Lemma bindR_ok {A B : Type} (a : A) (f : A -> M (Result B)) (w : World) :
  bindR (ret (Ok a)) f w = f a w.
Proof. reflexivity. Qed.

Lemma bindR_throw {A B : Type} (message : string) (f : A -> M (Result B))
      (w : World) :
  bindR (ret (Throw message)) f w = (Throw message, w).
Proof. reflexivity. Qed.

Lemma advance_0 (w : World) : advance 0 0 w = w.
Proof. now destruct w. Qed.

Lemma advance_advance (r1 c1 r2 c2 : nat) (w : World) :
  advance r2 c2 (advance r1 c1 w) = advance (r2 + r1) (c2 + c1) w.
Proof. unfold advance. cbn. now rewrite !Nat.add_assoc. Qed.

Lemma tick_advance (w : World) : tick w = advance 0 1 w.
Proof. reflexivity. Qed.

Lemma mathRandom36_advance (w : World) :
  snd (mathRandom36 w) = advance 1 0 w.
Proof. reflexivity. Qed.

(** Induction on values, with the elements of an array. *)
Lemma JsValue_induction (P : JsValue -> Prop) :
  P JUndefined -> P JNull -> (forall b, P (JBool b)) -> (forall x, P (JNum x)) ->
  (forall s, P (JStr s)) ->
  (forall elems, Forall P elems -> P (JArr elems)) ->
  (forall props, P (JObj props)) ->
  forall v, P v.
Proof.
  intros Hu Hn Hb Hx Hs Ha Ho. fix IH 1. intros v.
  destruct v as [| |b|x|s|elems|props];
    [exact Hu|exact Hn|apply Hb|apply Hx|apply Hs| |apply Ho].
  apply Ha. induction elems as [|e elems IHl]; constructor; [apply IH|exact IHl].
Qed.

(** The conversion of the elements of an array, before they are joined. *)
Definition toStrings (l : list JsValue) : Result (list string) :=
  (fix each (l : list JsValue) : Result (list string) :=
     match l with
     | [] => Ok []
     | e :: l' =>
         match (match e with
                | JUndefined | JNull => Ok ""
                | _ => toString e
                end) with
         | Throw message => Throw message
         | Ok part =>
             match each l' with
             | Throw message => Throw message
             | Ok parts => Ok (part :: parts)
             end
         end
     end) l.

Lemma toString_array (elems : list JsValue) :
  toString (JArr elems)
  = match toStrings elems with
    | Throw message => Throw message
    | Ok parts => Ok (Str.join "," parts)
    end.
Proof. reflexivity. Qed.

Lemma toStrings_cons (e : JsValue) (l : list JsValue) :
  toStrings (e :: l)
  = match (match e with
           | JUndefined | JNull => Ok ""
           | _ => toString e
           end) with
    | Throw message => Throw message
    | Ok part =>
        match toStrings l with
        | Throw message => Throw message
        | Ok parts => Ok (part :: parts)
        end
    end.
Proof. reflexivity. Qed.

Lemma convertible_cons (e : JsValue) (l : list JsValue) :
  convertible (JArr (e :: l)) = convertible e && convertible (JArr l).
Proof. reflexivity. Qed.

(** [String(v)] returns on the convertible values and throws a TypeError
    on the others. *)
Lemma toString_outcome (v : JsValue) :
  if convertible v then exists s, toString v = Ok s
  else toString v = Throw cannotConvert.
Proof.
  induction v as [| |b|x|s|elems IH|props] using JsValue_induction;
    try (cbn; eexists; reflexivity).
  - destruct b; cbn; eexists; reflexivity.
  - rewrite toString_array.
    assert (Hl : if convertible (JArr elems)
                 then exists parts, toStrings elems = Ok parts
                 else toStrings elems = Throw cannotConvert).
    { induction IH as [|e elems He _ IHl]; [cbn; eexists; reflexivity|].
      rewrite convertible_cons, toStrings_cons.
      destruct (convertible e) eqn:Ce; cbn [andb].
      - assert (Hpart : exists part,
                   match e with
                   | JUndefined | JNull => Ok ""
                   | _ => toString e
                   end = Ok part).
        { destruct He as [part He].
          destruct e; try (now exists part); now exists "". }
        destruct Hpart as [part ->].
        destruct (convertible (JArr elems)).
        + destruct IHl as [parts ->]. now eexists.
        + now rewrite IHl.
      - destruct e; try discriminate; now rewrite He. }
    destruct (convertible (JArr elems)).
    + destruct Hl as [parts ->]. now eexists.
    + now rewrite Hl.
  - cbn. destruct (hasOwn "toString" props); cbn; [reflexivity|now eexists].
Qed.

Lemma toString_convertible (v : JsValue) :
  toString v = if convertible v then Ok (text v) else Throw cannotConvert.
Proof.
  pose proof (toString_outcome v) as H. unfold text.
  destruct (convertible v); [|exact H].
  destruct H as [s ->]. reflexivity.
Qed.

Lemma convertible_or (v : JsValue) :
  convertible (or v (JStr "")) = convertible v.
Proof.
  unfold or. destruct (truthy v) eqn:T; [reflexivity|].
  destruct v; try reflexivity; discriminate.
Qed.

Lemma parseFloat_convertible (v : JsValue) :
  Js.parseFloat v
  = if convertible v then Ok (Num.parseFloat (text v)) else Throw cannotConvert.
Proof.
  unfold Js.parseFloat. rewrite toString_convertible.
  now destruct (convertible v).
Qed.

Lemma validateGames_convertible (v : JsValue) :
  validateGames v = if convertible v then Ok (gamesOf v) else Throw cannotConvert.
Proof.
  unfold validateGames, Js.parseInt. rewrite toString_convertible.
  now destruct (convertible v).
Qed.

(** On an object whose properties can be converted, every branch of
    [migrateOrderItem] returns. *)
Lemma migrate_object (item : JsValue) (w : World) :
  isObject item = true -> convertibleFields item = true ->
  migrateOrderItem item w
  = (Ok {|
       id := if truthy (get item "id") then get item "id"
             else JStr (generatedId w);
       os := text (or (get item "os") (JStr ""));
       clientDescription := text (or (get item "clientDescription") (JStr ""));
       colors := text (or (get item "colors") (JStr ""));
       jobType := or (get item "jobType") (JStr Novo);
       date := if truthy (get item "date") then get item "date"
               else JStr (currentDate w);
       width := numOr (Num.parseFloat (text (get item "width"))) 0;
       height := numOr (Num.parseFloat (text (get item "height"))) 0;
       games := gamesOf (get item "games");
       pricePerCm2 :=
         numOr (Num.parseFloat (text (get item "pricePerCm2"))) DEFAULT_RATE;
       observations := text (or (get item "observations") (JStr ""))
     |},
     advance (if truthy (get item "id") then 0 else 1)
             (if truthy (get item "date") then 0 else 1) w).
Proof.
  intros Hobj Hconv. unfold migrateOrderItem.
  rewrite guard_isObject, Hobj. cbn [negb].
  unfold convertibleFields, convertedProperties in Hconv. cbn [forallb] in Hconv.
  repeat (apply andb_true_iff in Hconv;
          let H := fresh "C" in destruct Hconv as [H Hconv]).
  rewrite !toString_convertible, !parseFloat_convertible,
    validateGames_convertible, !convertible_or.
  rewrite C, C0, C1, C2, C3, C4, C5, C6.
  rewrite bind_run.
  destruct (truthy (get item "id")) eqn:Tid.
  - cbn [ret fst snd]. rewrite !bindR_ok, bind_run.
    destruct (truthy (get item "date")) eqn:Td.
    + cbn [ret fst snd]. rewrite !bindR_ok. cbn [ret]. now rewrite advance_0.
    + unfold today, newDate. rewrite !bind_run. cbn [ret fst snd].
      rewrite !bindR_ok. cbn [ret]. now rewrite tick_advance.
  - unfold randomId. rewrite !bind_run. cbn [ret fst snd].
    rewrite mathRandom36_advance. rewrite !bindR_ok, bind_run.
    destruct (truthy (get item "date")) eqn:Td.
    + cbn [ret fst snd]. rewrite !bindR_ok. reflexivity.
    + unfold today, newDate. rewrite !bind_run. cbn [ret fst snd].
      rewrite !bindR_ok. cbn [ret]. rewrite tick_advance, advance_advance.
      reflexivity.
Qed.

(** Each field of the migrated item comes from the same-named property
    of the input. *)
Lemma migrated_fields (item : JsValue) (w : World) :
  isObject item = true -> convertibleFields item = true ->
  exists r : OrderItem,
    migrateOrderItem item w
    = (Ok r, advance (if truthy (get item "id") then 0 else 1)
                       (if truthy (get item "date") then 0 else 1) w)
    /\ forall k : string, get (toObject r) k = migratedField w k (get item k).
Proof.
  intros Hobj Hconv. eexists. rewrite (migrate_object item w Hobj Hconv).
  split; [reflexivity|].
  intros k. unfold migratedField, toObject, get at 1, lookup; cbn [id os
    clientDescription colors jobType date width height games pricePerCm2
    observations].
  repeat match goal with
         | |- context [String.eqb k ?c] =>
             destruct (String.eqb_spec k c) as [->|_]; [reflexivity|]
         end.
  reflexivity.
Qed.

Lemma migrate_not_object (item : JsValue) (w : World) :
  isObject item = false ->
  migrateOrderItem item w = (Throw "Invalid order item", w).
Proof.
  intros Hobj. unfold migrateOrderItem.
  now rewrite guard_isObject, Hobj.
Qed.

(** On an object with a property that cannot be converted the call
    throws the TypeError of the conversion; before that it may have
    drawn a random number for the id and read the clock for the date. *)
Lemma migrate_unconvertible (item : JsValue) (w : World) :
  isObject item = true -> convertibleFields item = false ->
  exists r c, migrateOrderItem item w = (Throw cannotConvert, advance r c w).
Proof.
  intros Hobj Hconv. unfold migrateOrderItem.
  rewrite guard_isObject, Hobj. cbn [negb].
  unfold convertibleFields, convertedProperties in Hconv. cbn [forallb] in Hconv.
  rewrite !toString_convertible, !parseFloat_convertible,
    validateGames_convertible, !convertible_or.
  rewrite bind_run.
  assert (Hid : exists r, snd ((if truthy (get item "id") then ret (get item "id")
                                else r <- randomId ;; ret (JStr r)) w)
                          = advance r 0 w).
  { destruct (truthy (get item "id")).
    - exists 0%nat. cbn. now rewrite advance_0.
    - exists 1%nat. unfold randomId. rewrite !bind_run. cbn [ret snd].
      apply mathRandom36_advance. }
  destruct Hid as [r ->].
  generalize (fst ((if truthy (get item "id") then ret (get item "id")
                    else r0 <- randomId ;; ret (JStr r0)) w)) as id'.
  intros id'.
  destruct (convertible (get item "os")); cbn [andb] in Hconv;
    [rewrite bindR_ok|exists r, 0%nat; now rewrite bindR_throw].
  destruct (convertible (get item "clientDescription")); cbn [andb] in Hconv;
    [rewrite bindR_ok|exists r, 0%nat; now rewrite bindR_throw].
  destruct (convertible (get item "colors")); cbn [andb] in Hconv;
    [rewrite bindR_ok|exists r, 0%nat; now rewrite bindR_throw].
  rewrite bind_run.
  assert (Hd : exists c, snd ((if truthy (get item "date")
                               then ret (get item "date")
                               else d <- today ;; ret (JStr d)) (advance r 0 w))
                         = advance r c w).
  { destruct (truthy (get item "date")).
    - exists 0%nat. reflexivity.
    - exists 1%nat. unfold today, newDate. rewrite !bind_run. cbn [ret snd fst].
      reflexivity. }
  destruct Hd as [c ->].
  generalize (fst ((if truthy (get item "date") then ret (get item "date")
                    else d <- today ;; ret (JStr d)) (advance r 0 w))) as date'.
  intros date'. exists r, c.
  destruct (convertible (get item "width")); cbn [andb] in Hconv;
    [rewrite bindR_ok|now rewrite bindR_throw].
  destruct (convertible (get item "height")); cbn [andb] in Hconv;
    [rewrite bindR_ok|now rewrite bindR_throw].
  destruct (convertible (get item "games")); cbn [andb] in Hconv;
    [rewrite bindR_ok|now rewrite bindR_throw].
  destruct (convertible (get item "pricePerCm2")); cbn [andb] in Hconv;
    [rewrite bindR_ok|now rewrite bindR_throw].
  destruct (convertible (get item "observations")); cbn [andb] in Hconv;
    [discriminate|now rewrite bindR_throw].
Qed.

Lemma substr_nonempty (r : string) :
  (2 < String.length r)%nat -> Str.substr 2 9 r <> "".
Proof.
  destruct r as [|a [|b [|c r]]]; simpl; try lia.
  intros _. discriminate.
Qed.

End MigrationFacts.

(** C3, as the code has it.  For every object input whose properties can
    be converted, [migrateOrderItem] returns, and the migrated job kind is
    the input's job kind when that is truthy, and ["Novo"] when it is
    missing or falsy; it lies in the enumeration exactly when the input's
    job kind is falsy or already lies in it.  On an object with a
    property that cannot be converted the call throws a TypeError and
    there is no migrated job kind. *)
Theorem migrate_jobType_default (item : JsValue) (w : World)
        (Hobj : isObject item = true) :
  (convertibleFields item = true ->
   exists r : OrderItem,
     fst (migrateOrderItem item w) = Ok r
     /\ jobType r = (if truthy (get item "jobType") then get item "jobType"
                     else JStr Novo)
     /\ (get item "jobType" = JUndefined -> jobType r = JStr Novo)
     /\ isJobType (jobType r)
        = negb (truthy (get item "jobType")) || isJobType (get item "jobType"))
  /\ (convertibleFields item = false ->
      fst (migrateOrderItem item w) = Throw cannotConvert).
Proof.
  split.
  - intros Hconv. eexists. rewrite (migrate_object item w Hobj Hconv).
    split; [reflexivity|]. cbn [jobType]. unfold or. repeat split.
    + intros ->. reflexivity.
    + destruct (truthy (get item "jobType")); reflexivity.
  - intros Hconv.
    destruct (migrate_unconvertible item w Hobj Hconv) as (r & c & ->).
    reflexivity.
Qed.

Lemma migrate_jobType_default_witness :
  exists r : OrderItem,
    fst (migrateOrderItem (JObj [("jobType", JStr Reimpressao)]) sampleWorld) = Ok r
    /\ jobType r = JStr Reimpressao
    /\ (JStr Reimpressao = JUndefined -> jobType r = JStr Novo)
    /\ isJobType (jobType r) = true.
Proof.
  exact (proj1 (migrate_jobType_default (JObj [("jobType", JStr Reimpressao)])
                                        sampleWorld eq_refl) eq_refl).
Defined.

(** A job kind outside the enumeration survives migration. *)
Lemma migrate_unknown_jobType_kept :
  exists r : OrderItem,
    fst (migrateOrderItem (JObj [("jobType", JStr "Urgente")]) sampleWorld) = Ok r
    /\ jobType r = JStr "Urgente"
    /\ isJobType (jobType r) = false.
Proof. eexists. repeat split. Qed.

(** C5, as the code has it.  [migrateOrderItem] throws "Invalid order
    item" exactly on the values that are not objects, [null] among them.
    On an object it throws the TypeError of the conversion exactly when
    one of the properties it converts to a string or a number holds a
    value that cannot be converted (an object with an own property
    [toString], or an array holding one).  Otherwise it returns an item
    each field of which is computed from the same-named property alone
    ([migratedField]): a missing property gets its default, a non-numeric
    width, height or price gets 0, 0 or 0.0798, the games are normalised
    as [validateGames] does; a truthy [id], [jobType] or [date] is kept as
    it is.  On the empty object the result has all defaults, with a
    non-empty id whenever [Math.random()] was not 0. *)
Theorem migrate_throws_or_defaults (item : JsValue) (w : World) :
  (fst (migrateOrderItem item w) = Throw "Invalid order item"
   <-> isObject item = false)
  /\ (fst (migrateOrderItem item w) = Throw cannotConvert
      <-> isObject item = true /\ convertibleFields item = false)
  /\ ((exists r, fst (migrateOrderItem item w) = Ok r)
      <-> isObject item = true /\ convertibleFields item = true)
  /\ (forall r : OrderItem,
         fst (migrateOrderItem item w) = Ok r ->
         forall k : string, get (toObject r) k = migratedField w k (get item k))
  /\ fst (migrateOrderItem (JObj []) w) = Ok {|
       id := JStr (generatedId w); os := ""; clientDescription := "";
       colors := ""; jobType := JStr Novo; date := JStr (currentDate w);
       width := 0; height := 0; games := 1; pricePerCm2 := 0.0798;
       observations := "" |}
  /\ ((2 < String.length (randomSource w (randomCalls w)))%nat ->
      generatedId w <> "")
  /\ fst (migrateOrderItem JNull w) = Throw "Invalid order item".
Proof.
  assert (Cases :
    (isObject item = false
     /\ fst (migrateOrderItem item w) = Throw "Invalid order item")
    \/ (isObject item = true /\ convertibleFields item = false
        /\ fst (migrateOrderItem item w) = Throw cannotConvert)
    \/ (isObject item = true /\ convertibleFields item = true
        /\ exists r, fst (migrateOrderItem item w) = Ok r
                     /\ forall k, get (toObject r) k
                                  = migratedField w k (get item k))).
  { destruct (isObject item) eqn:Hobj.
    - right. destruct (convertibleFields item) eqn:Hconv.
      + right. split; [reflexivity|]. split; [reflexivity|].
        destruct (migrated_fields item w Hobj Hconv) as (r & E & Hk).
        exists r. now rewrite E.
      + left. split; [reflexivity|]. split; [reflexivity|].
        destruct (migrate_unconvertible item w Hobj Hconv) as (r & c & ->).
        reflexivity.
    - left. split; [reflexivity|]. now rewrite (migrate_not_object item w Hobj). }
  assert (D : cannotConvert <> "Invalid order item") by discriminate.
  split; [|split; [|split; [|split; [|split; [|split]]]]].
  - destruct Cases as [[H1 H2]|[(H1 & H2 & H3)|(H1 & H2 & r & H3 & _)]];
      rewrite ?H1, ?H2, ?H3; split; congruence.
  - destruct Cases as [[H1 H2]|[(H1 & H2 & H3)|(H1 & H2 & r & H3 & _)]];
      rewrite ?H1, ?H2, ?H3; split; intros H;
      try match type of H with _ /\ _ => destruct H end;
      try split; congruence.
  - destruct Cases as [[H1 H2]|[(H1 & H2 & H3)|(H1 & H2 & r & H3 & _)]];
      rewrite ?H1, ?H2, ?H3; split; intros H;
      try match type of H with
          | _ /\ _ => destruct H
          | exists _, _ => destruct H
          end;
      try split; try congruence; eexists; reflexivity.
  - intros r Hr.
    destruct Cases as [[H1 H2]|[(H1 & H2 & H3)|(H1 & H2 & r' & H3 & H4)]];
      congruence.
  - reflexivity.
  - apply substr_nonempty.
  - reflexivity.
Qed.

Lemma migrate_throws_or_defaults_witness :
  (2 < String.length "0.4fzyo82mvyr")%nat /\ generatedId sampleWorld <> "".
Proof.
  split; [vm_compute; lia|].
  apply (proj1 (proj2 (proj2 (proj2 (proj2 (proj2
           (migrate_throws_or_defaults (JObj []) sampleWorld))))))).
  vm_compute; lia.
Defined.

(** A world in which [Math.random()] returns 0, printed ["0"] in base 36. *)
Definition zeroRandomWorld : World := {|
  randomSource := fun _ => "0";
  randomCalls := 0;
  clock := clock sampleWorld;
  clockCalls := 0;
  userConfirms := true;
  development := false
|}.

(** An object can be rejected, and an invalid value can be kept.  The
    object [{ os: { toString: 1 } }], which [JSON.parse] can produce, makes
    [String(item.os)] throw a TypeError.  A value of the wrong type in
    [date] is kept: the migrated item does not carry the current date and
    is not a well-typed order item.  And when [Math.random()] returns 0
    the id generated for the empty object is the empty string. *)
Lemma migrate_object_rejected_invalid_kept :
  (isObject (JObj [("os", JObj [("toString", JNum 1)])]) = true
   /\ fst (migrateOrderItem (JObj [("os", JObj [("toString", JNum 1)])])
                            sampleWorld)
      = Throw cannotConvert)
  /\ (exists r : OrderItem,
         fst (migrateOrderItem (JObj [("date", JNum 20231127)]) sampleWorld) = Ok r
         /\ date r = JNum 20231127
         /\ currentDate sampleWorld = "2024-03-05"
         /\ wellTyped r = false)
  /\ (exists r : OrderItem,
         fst (migrateOrderItem (JObj []) zeroRandomWorld) = Ok r
         /\ id r = JStr "").
Proof.
  split; [split; reflexivity|]. split; eexists; repeat split.
Qed.


(* ================================================================== *)
(** * Ingestion orchestrator: [importPdfsToItems] *)
(* ================================================================== *)

(** A PDF file whose document could not be opened: a file-level failure. *)
Definition failsToOpen (f : File) : bool :=
  isPdfName (file_name f)
  && match getDocument f with DocumentRejects _ => true | DocumentResolves _ => false end.

(** A PDF file whose document was opened. *)
Definition opens (f : File) : bool :=
  isPdfName (file_name f)
  && match getDocument f with DocumentRejects _ => false | DocumentResolves _ => true end.

Definition count {A : Type} (p : A -> bool) (l : list A) : nat :=
  List.length (filter p l).

(** What the page loop leaves alone: the flag and the file counters; the
    error list only grows and [itemsCreated] follows [items]. *)
Record pageFrame (r r' : PdfImportResult) : Prop := {
  frame_success : success r' = success r;
  frame_processed : filesProcessed r' = filesProcessed r;
  frame_failed : filesFailed r' = filesFailed r;
  frame_errors : exists more, errors r' = (errors r ++ more)%list;
  frame_items : exists more,
      items r' = (items r ++ more)%list
      /\ itemsCreated r' = (itemsCreated r + List.length more)%nat
}.

(** The context [processFile] builds for a file. *)
Definition contextOf (file : File) (pdf : PdfDocument) : FileContext := {|
  ctx_name := file_name file;
  ctx_pages := numPages pdf;
  fileNameBase := replace pdfExtension "" (file_name file);
  fileOS := extractOS (file_name file);
  dimsFromFilename := extractDimensions (file_name file);
  colorDetection := detectColors (file_name file)
|}.

(** The callback, if there is one, returns normally whenever it is
    called. *)
Definition returnsNormally (onProgress : Progress) : Prop :=
  forall (current total : nat) (w : World),
    exists w', callProgress onProgress current total w = (Ok tt, w').

(** The page loop of a file. *)
Definition processPages (file : File) (pdf : PdfDocument) (result : PdfImportResult)
  : M PdfImportResult :=
  foldM (fun pageNum => processPage (contextOf file pdf) (getPage pdf pageNum) pageNum)
        (seq 1 (numPages pdf)) result.

Section ImportFacts.

Lemma pageFrame_refl (r : PdfImportResult) : pageFrame r r.
Proof.
  constructor; try reflexivity.
  - exists []. now rewrite app_nil_r.
  - exists []. now rewrite app_nil_r, Nat.add_0_r.
Qed.

Lemma pageFrame_trans (a b c : PdfImportResult) :
  pageFrame a b -> pageFrame b c -> pageFrame a c.
Proof.
  intros [s1 p1 f1 [e1 E1] [i1 [I1 N1]]] [s2 p2 f2 [e2 E2] [i2 [I2 N2]]].
  constructor; try congruence.
  - exists (e1 ++ e2)%list. now rewrite E2, E1, app_assoc.
  - exists (i1 ++ i2)%list. rewrite I2, I1, N2, N1, length_app, app_assoc.
    split; [reflexivity|lia].
Qed.

Lemma pageFrame_pushError (e : string) (r : PdfImportResult) :
  pageFrame r (pushError e r).
Proof.
  constructor; try reflexivity.
  - now exists [e].
  - exists []. simpl. now rewrite app_nil_r, Nat.add_0_r.
Qed.

Lemma pageFrame_pushItem (i : OrderItem) (r : PdfImportResult) :
  pageFrame r (pushItem i r).
Proof.
  constructor; try reflexivity.
  - exists []. simpl. now rewrite app_nil_r.
  - exists [i]. simpl. split; [reflexivity|lia].
Qed.

(** A page either adds one error or one item. *)
Lemma processPage_cases (ctx : FileContext) (page : PageOutcome) (n : nat)
      (r : PdfImportResult) (w : World) :
  (exists e, fst (processPage ctx page n r w) = pushError e r)
  \/ (exists i, fst (processPage ctx page n r w) = pushItem i r).
Proof.
  unfold processPage. destruct page as [msg|vw vh].
  - left. now exists (pageError (ctx_name ctx) n msg).
  - destruct (finalDimensions ctx vw vh) as [[fw fh] obs].
    destruct (valid (validateDimensions fw fh)).
    + right. cbn [negb]. rewrite !bind_run.
      rewrite migrate_object by reflexivity. eexists. reflexivity.
    + left. eexists. reflexivity.
Qed.

(** A page whose dimensions fail validation adds the validation error. *)
Lemma processPage_invalid (ctx : FileContext) (vw vh : float) (n : nat)
      (r : PdfImportResult) (w : World) (e : string) :
  error (validateDimensions (fst (fst (finalDimensions ctx vw vh)))
                            (snd (fst (finalDimensions ctx vw vh)))) = Some e ->
  fst (processPage ctx (PageResolves vw vh) n r w)
  = pushError (pageError (ctx_name ctx) n e) r.
Proof.
  unfold processPage.
  destruct (finalDimensions ctx vw vh) as [[fw fh] obs]. cbn [fst snd].
  unfold validateDimensions.
  destruct (is_nan fw || is_nan fh); [intros [= <-]; reflexivity|].
  destruct ((fw <=? 0)%float || (fh <=? 0)%float); [intros [= <-]; reflexivity|].
  destruct ((500 <? fw)%float || (500 <? fh)%float); [intros [= <-]; reflexivity|].
  discriminate.
Qed.

Lemma processPage_frame (ctx : FileContext) (page : PageOutcome) (n : nat)
      (r : PdfImportResult) (w : World) :
  pageFrame r (fst (processPage ctx page n r w)).
Proof.
  destruct (processPage_cases ctx page n r w) as [[e ->]|[i ->]].
  - apply pageFrame_pushError.
  - apply pageFrame_pushItem.
Qed.

Lemma pages_frame (ctx : FileContext) (pdf : PdfDocument) (pages : list nat)
      (r : PdfImportResult) (w : World) :
  pageFrame r
    (fst (foldM (fun pageNum => processPage ctx (getPage pdf pageNum) pageNum)
                pages r w)).
Proof.
  revert r w. induction pages as [|n pages IH]; intros r w; simpl.
  - apply pageFrame_refl.
  - rewrite bind_run. eapply pageFrame_trans; [|apply IH].
    apply processPage_frame.
Qed.

(** The body of the file loop when no callback is given. *)
Lemma processFile_none (total i : nat) (f : File) (r : PdfImportResult)
      (w : World) :
  processFile None total i f r w
  = if negb (isPdfName (file_name f)) then (r, tick w)
    else
      match getDocument f with
      | DocumentRejects msg =>
          (fileFailed (pushError (file_name f ++ ": " ++ msg) r), tick w)
      | DocumentResolves pdf =>
          (fileProcessed (fst (processPages f pdf r (snd (logDebug w)))),
           snd (processPages f pdf r (snd (logDebug w))))
      end.
Proof.
  unfold processFile, callProgress. rewrite bind_run. cbn [ret fst snd].
  destruct (isPdfName (file_name f)); cbn [negb]; [|reflexivity].
  destruct (getDocument f) as [msg|pdf]; [reflexivity|].
  rewrite !bind_run. reflexivity.
Qed.

(** The effect of one file on the flag and the counters. *)
Lemma processFile_counts (total i : nat) (f : File) (r : PdfImportResult)
      (w : World) :
  let r' := fst (processFile None total i f r w) in
  success r' = success r && negb (failsToOpen f)
  /\ filesFailed r' = (filesFailed r + (if failsToOpen f then 1 else 0))%nat
  /\ filesProcessed r' = (filesProcessed r + (if opens f then 1 else 0))%nat
  /\ (exists more, errors r' = (errors r ++ more)%list)
  /\ (exists more, items r' = (items r ++ more)%list
                   /\ itemsCreated r' = (itemsCreated r + List.length more)%nat).
Proof.
  rewrite processFile_none. unfold failsToOpen, opens.
  destruct (isPdfName (file_name f)); cbn [negb andb].
  - destruct (getDocument f) as [msg|pdf].
    + simpl. rewrite andb_false_r. repeat split; try lia.
      * now exists [file_name f ++ ": " ++ msg].
      * exists []. now rewrite app_nil_r, Nat.add_0_r.
    + cbn [fst].
      destruct (pages_frame (contextOf f pdf) pdf (seq 1 (numPages pdf)) r
                            (snd (logDebug w))) as [Hs Hp Hf He Hi].
      fold (processPages f pdf r (snd (logDebug w))) in Hs, Hp, Hf, He, Hi.
      set (p := processPages f pdf r (snd (logDebug w))) in *.
      cbn [success filesFailed filesProcessed errors items itemsCreated
           fileProcessed].
      rewrite Hs, Hp, Hf, andb_true_r. repeat split; try lia; assumption.
  - simpl. rewrite andb_true_r. repeat split; try lia.
    + exists []. now rewrite app_nil_r.
    + exists []. now rewrite app_nil_r, Nat.add_0_r.
Qed.

Lemma files_counts (total : nat) (files : list File) :
  forall (i : nat) (r : PdfImportResult) (w : World),
    let r' := fst (processFiles None total i files r w) in
    success r' = success r && (count failsToOpen files =? 0)%nat
    /\ filesFailed r' = (filesFailed r + count failsToOpen files)%nat
    /\ filesProcessed r' = (filesProcessed r + count opens files)%nat
    /\ (itemsCreated r = List.length (items r) ->
        itemsCreated r' = List.length (items r')).
Proof.
  induction files as [|f files IH]; intros i r w; cbn zeta.
  - simpl. rewrite andb_true_r, !Nat.add_0_r. auto.
  - cbn [processFiles]. rewrite bind_run.
    destruct (processFile_counts total i f r w) as (Hs & Hf & Hp & _ & more & Hi & Hn).
    destruct (IH (S i) (fst (processFile None total i f r w))
                 (snd (processFile None total i f r w)))
      as (Is & If & Ip & Ii).
    rewrite Is, If, Ip, Hs, Hf, Hp. unfold count in *. simpl.
    destruct (failsToOpen f); destruct (opens f); simpl;
      rewrite ?andb_false_r, ?andb_true_r; repeat split; try lia;
      intros E; apply Ii; rewrite Hn, Hi, length_app; lia.
Qed.

(** The result of an import without callback is that of the file loop;
    the log line that follows reads the clock once more. *)
Lemma import_run (files : list File) (w : World) :
  files <> [] ->
  importPdfsToItems files w
  = (fst (processFiles None (List.length files) 0 files emptyResult w),
     tick (snd (processFiles None (List.length files) 0 files emptyResult w))).
Proof.
  intros Hne. unfold importPdfsToItems, importPdfsToItemsWith.
  destruct files as [|f files]; [contradiction|]. cbn [List.length Nat.eqb].
  rewrite !bind_run. reflexivity.
Qed.

(** A file that is no PDF: the callback is called, the skip is logged,
    and the result stays as it is. *)
Lemma processFile_skip (onProgress : Progress) (total i : nat) (f : File)
      (r : PdfImportResult) (w w1 : World) :
  isPdfName (file_name f) = false ->
  callProgress onProgress (i + 1) total w = (Ok tt, w1) ->
  processFile onProgress total i f r w = (r, tick w1).
Proof.
  intros H Hcall. unfold processFile. rewrite bind_run, Hcall. cbn [fst snd].
  now rewrite H.
Qed.

(** When the callback throws, the file-level [catch] counts the file as
    failed, whatever its name. *)
Lemma processFile_callback_throws (onProgress : Progress) (total i : nat)
      (f : File) (r : PdfImportResult) (w w1 : World) (msg : string) :
  callProgress onProgress (i + 1) total w = (Throw msg, w1) ->
  processFile onProgress total i f r w
  = (fileFailed (pushError (file_name f ++ ": " ++ msg) r), tick w1).
Proof.
  intros Hcall. unfold processFile. rewrite bind_run, Hcall. reflexivity.
Qed.

(** With a callback that returns normally, files that are no PDF leave
    the result as it is. *)
Lemma files_skip (onProgress : Progress) (total : nat) (files : list File) :
  returnsNormally onProgress ->
  Forall (fun f => isPdfName (file_name f) = false) files ->
  forall (i : nat) (r : PdfImportResult) (w : World),
    fst (processFiles onProgress total i files r w) = r.
Proof.
  intros Hn Hall. induction Hall as [|f l Hf _ IH]; intros i r w.
  - reflexivity.
  - cbn [processFiles]. rewrite bind_run.
    destruct (Hn (i + 1)%nat total w) as [w1 E].
    rewrite (processFile_skip onProgress total i f r w w1 Hf E).
    cbn [fst snd]. apply IH.
Qed.

Lemma processFiles_app (onProgress : Progress) (total : nat) (l1 l2 : list File) :
  forall (i : nat) (r : PdfImportResult) (w : World),
    processFiles onProgress total i (l1 ++ l2) r w
    = processFiles onProgress total (i + List.length l1) l2
        (fst (processFiles onProgress total i l1 r w))
        (snd (processFiles onProgress total i l1 r w)).
Proof.
  induction l1 as [|x l1 IH]; intros i r w; cbn [app processFiles List.length].
  - now rewrite Nat.add_0_r.
  - rewrite !bind_run, IH. now rewrite Nat.add_succ_r.
Qed.

Lemma count_insert {A : Type} (p : A -> bool) (before after : list A) (x : A) :
  p x = false -> count p (before ++ x :: after) = count p (before ++ after).
Proof.
  intros H. unfold count. rewrite !filter_app. cbn [filter]. now rewrite H.
Qed.

End ImportFacts.

(** C4, as the code has it.  For every non-empty file collection the
    result has [success = true] exactly when [filesFailed = 0];
    [filesFailed] counts the PDF files whose document could not be opened
    and [filesProcessed] those whose document was opened, and
    [itemsCreated] is the number of items returned.  A page adds either
    one error string or one item and leaves the flag and the file counters
    alone; a rejected page, and a page whose dimensions fail validation,
    adds its error and no item.  On the empty
    collection the result is [success = false] with no failed file and the
    single error "Nenhum arquivo selecionado". *)
Theorem import_success_iff_no_file_failed (files : list File) (w : World) :
  (files <> [] ->
   let r := fst (importPdfsToItems files w) in
   (success r = true <-> filesFailed r = 0%nat)
   /\ filesFailed r = count failsToOpen files
   /\ filesProcessed r = count opens files
   /\ itemsCreated r = List.length (items r))
  /\ (forall ctx page n r0 w0,
        pageFrame r0 (fst (processPage ctx page n r0 w0))
        /\ ((exists e, fst (processPage ctx page n r0 w0) = pushError e r0)
            \/ (exists i, fst (processPage ctx page n r0 w0) = pushItem i r0)))
  /\ (forall ctx msg n r0 w0,
        fst (processPage ctx (PageRejects msg) n r0 w0)
        = pushError (pageError (ctx_name ctx) n msg) r0)
  /\ (forall ctx vw vh n r0 w0 e,
        error (validateDimensions (fst (fst (finalDimensions ctx vw vh)))
                                  (snd (fst (finalDimensions ctx vw vh)))) = Some e ->
        fst (processPage ctx (PageResolves vw vh) n r0 w0)
        = pushError (pageError (ctx_name ctx) n e) r0)
  /\ fst (importPdfsToItems [] w)
     = {| success := false; itemsCreated := 0; filesProcessed := 0;
          filesFailed := 0; errors := [noFileSelected]; items := [] |}.
Proof.
  split; [|split; [|split; [|split]]].
  - intros Hne. rewrite (import_run files w Hne). cbn [fst].
    destruct (files_counts (List.length files) files 0 emptyResult w)
      as (Hs & Hf & Hp & Hi).
    cbn zeta. rewrite Hs, Hf, Hp. simpl. repeat split.
    + intros E. now apply Nat.eqb_eq.
    + intros E. now apply Nat.eqb_eq.
    + now apply Hi.
  - intros ctx page n r0 w0. split.
    + apply processPage_frame.
    + apply processPage_cases.
  - reflexivity.
  - intros ctx vw vh n r0 w0 e. apply processPage_invalid.
  - reflexivity.
Qed.

(** A document of three pages: the second cannot be read, the third is
    wider than 500 cm. *)
Definition samplePdf : PdfDocument := {|
  numPages := 3;
  getPage := fun n =>
    if (n =? 2)%nat then PageRejects "bad page"
    else if (n =? 3)%nat then PageResolves 20000 300
    else PageResolves 595 842
|}.

Definition sampleFiles : list File :=
  [ {| file_name := "notes.txt"; getDocument := DocumentRejects "unreadable" |};
    {| file_name := "4787 cmyk.PDF"; getDocument := DocumentResolves samplePdf |} ].

Lemma import_success_iff_no_file_failed_witness :
  let r := fst (importPdfsToItems sampleFiles sampleWorld) in
  (success r = true <-> filesFailed r = 0%nat)
  /\ filesFailed r = 0%nat
  /\ filesProcessed r = 1%nat
  /\ itemsCreated r = List.length (items r).
Proof.
  apply (proj1 (import_success_iff_no_file_failed sampleFiles sampleWorld)).
  discriminate.
Defined.

(** Page-level errors alone: two error strings, one item, success. *)
Lemma import_page_errors_keep_success :
  success (fst (importPdfsToItems sampleFiles sampleWorld)) = true
  /\ List.length (errors (fst (importPdfsToItems sampleFiles sampleWorld))) = 2%nat
  /\ itemsCreated (fst (importPdfsToItems sampleFiles sampleWorld)) = 1%nat.
Proof. repeat split; vm_compute; reflexivity. Qed.

(** On the empty collection no file failed, and yet [success] is false. *)
Lemma import_empty_collection_fails :
  success (fst (importPdfsToItems [] sampleWorld)) = false
  /\ filesFailed (fst (importPdfsToItems [] sampleWorld)) = 0%nat
  /\ errors (fst (importPdfsToItems [] sampleWorld)) = [noFileSelected].
Proof. repeat split. Qed.

(** A callback that throws on every file. *)
Definition throwingProgress : Progress :=
  Some (fun _ _ => ret (Throw "callback failed")).

(** C10.  A file whose name does not end in ".pdf", in any letter case,
    is skipped: when the callback, if there is one, returns normally for
    that file, the file leaves the result as it is, with no error, no
    item and no counter changed; all that happens is the log line of the
    skip, which reads the clock once.  Hence, without callback, a
    non-empty collection of such files returns the initial result
    ([success = true], all counters 0, no error, no item), after one
    reading of the clock per file and one for the closing log line; and
    adding such a file to a collection that stays non-empty without it
    changes neither the flag nor the counters of files.  With a callback
    that returns normally whenever it is called, a non-empty collection
    of such files returns the initial result as well. *)
Theorem import_skips_non_pdf :
  (forall (onProgress : Progress) (total i : nat) (f : File)
          (r : PdfImportResult) (w w1 : World),
      isPdfName (file_name f) = false ->
      callProgress onProgress (i + 1) total w = (Ok tt, w1) ->
      processFile onProgress total i f r w = (r, tick w1))
  /\ (forall (files : list File) (w : World),
         files <> [] ->
         Forall (fun f => isPdfName (file_name f) = false) files ->
         importPdfsToItems files w
         = ({| success := true; itemsCreated := 0; filesProcessed := 0;
               filesFailed := 0; errors := []; items := [] |},
            advance 0 (S (List.length files)) w))
  /\ (forall (before after : list File) (f : File) (w : World),
         isPdfName (file_name f) = false ->
         (before ++ after)%list <> [] ->
         let r1 := fst (importPdfsToItems (before ++ f :: after) w) in
         let r0 := fst (importPdfsToItems (before ++ after) w) in
         success r1 = success r0
         /\ filesProcessed r1 = filesProcessed r0
         /\ filesFailed r1 = filesFailed r0)
  /\ (forall (onProgress : Progress) (files : list File) (w : World),
         returnsNormally onProgress ->
         files <> [] ->
         Forall (fun f => isPdfName (file_name f) = false) files ->
         fst (importPdfsToItemsWith onProgress files w)
         = {| success := true; itemsCreated := 0; filesProcessed := 0;
              filesFailed := 0; errors := []; items := [] |}).
Proof.
  split; [exact processFile_skip|]. split; [|split].
  - intros files w Hne Hall. rewrite (import_run files w Hne).
    assert (L : forall total i r w0,
               processFiles None total i files r w0
               = (r, advance 0 (List.length files) w0)).
    { clear Hne. induction Hall as [|f l Hf _ IH]; intros total i r w0.
      - cbn [processFiles List.length ret]. now rewrite advance_0.
      - cbn [processFiles]. rewrite bind_run.
        rewrite (processFile_skip None total i f r w0 w0 Hf eq_refl).
        cbn [fst snd]. rewrite IH, tick_advance, advance_advance.
        cbn [List.length]. now rewrite Nat.add_0_r, Nat.add_1_r. }
    rewrite L. cbn [fst snd]. rewrite tick_advance, advance_advance.
    reflexivity.
  - intros before after f w Hf Hne. cbn zeta.
    assert (Hne' : (before ++ f :: after)%list <> [])
      by (destruct before; discriminate).
    rewrite (import_run _ w Hne), (import_run _ w Hne'). cbn [fst].
    destruct (files_counts (List.length (before ++ f :: after))
                           (before ++ f :: after) 0 emptyResult w)
      as (Hs1 & Hf1 & Hp1 & _).
    destruct (files_counts (List.length (before ++ after))
                           (before ++ after) 0 emptyResult w)
      as (Hs0 & Hf0 & Hp0 & _).
    cbn zeta in *. rewrite Hs1, Hf1, Hp1, Hs0, Hf0, Hp0.
    assert (F : failsToOpen f = false) by (unfold failsToOpen; now rewrite Hf).
    assert (O : opens f = false) by (unfold opens; now rewrite Hf).
    now rewrite (count_insert failsToOpen before after f F),
                (count_insert opens before after f O).
  - intros onProgress files w Hn Hne Hall. unfold importPdfsToItemsWith.
    destruct files as [|f0 files0]; [contradiction|].
    cbn [List.length Nat.eqb]. rewrite !bind_run. cbn [ret fst snd].
    now apply files_skip.
Qed.

(** The extension test ignores letter case and looks at the end only. *)
Lemma isPdfName_examples :
  isPdfName "plate.pdf" = true /\ isPdfName "PLATE.PDF" = true
  /\ isPdfName "plate.pdf.bak" = false /\ isPdfName "pdf" = false.
Proof. repeat split. Qed.

Lemma import_skips_non_pdf_witness :
  isPdfName "notes.txt" = false
  /\ importPdfsToItems
       [ {| file_name := "notes.txt"; getDocument := DocumentRejects "unreadable" |};
         {| file_name := "plate.pdf.bak"; getDocument := DocumentResolves samplePdf |} ]
       sampleWorld
     = (emptyResult, advance 0 3 sampleWorld).
Proof.
  split; [reflexivity|].
  apply (proj1 (proj2 import_skips_non_pdf)).
  - discriminate.
  - repeat constructor.
Defined.


(** The callback is called inside the [try] of the file loop: when it
    throws, the file-level [catch] counts the file as failed, a file that
    is no PDF included. *)
Lemma import_callback_failure_counts_file :
  fst (importPdfsToItemsWith throwingProgress
         [ {| file_name := "notes.txt"; getDocument := DocumentRejects "unreadable" |} ]
         sampleWorld)
  = {| success := false; itemsCreated := 0; filesProcessed := 0; filesFailed := 1;
       errors := ["notes.txt: callback failed"]; items := [] |}.
Proof. reflexivity. Qed.

(* ================================================================== *)
(** * Batch partitioner: [splitIntoEmailBatches] *)
(* ================================================================== *)

(** The greedy rule in the specification's words: before adding the next
    record, close the current batch when the accumulated size plus the
    record's size would exceed the budget and the current batch is not
    empty; at the end close the trailing batch if it is not empty. *)
Fixpoint greedyBatches (budget : nat) (current : list OrderItem) (size : nat)
         (items : list OrderItem) : list (list OrderItem) :=
  match items with
  | [] => match current with [] => [] | _ :: _ => [current] end
  | x :: rest =>
      if (budget <? size + itemSize x)%nat
         && match current with [] => false | _ :: _ => true end
      then current :: greedyBatches budget [x] (itemSize x) rest
      else greedyBatches budget (current ++ [x]) (size + itemSize x) rest
  end.

Definition sumSizes (l : list OrderItem) : nat :=
  fold_right Nat.add 0%nat (map itemSize l).

(** The trailing [if (currentBatch.length > 0) batches.push(...)]. *)
Definition closeLast (st : SplitState) : list EmailBatch :=
  if (0 <? List.length (currentBatch st))%nat
  then pushBatch (batches st) (currentBatch st)
  else batches st.

Definition numbered (bs : list EmailBatch) : Prop :=
  map batchNumber bs = seq 1 (List.length bs).

Section SplitFacts.

Lemma nonempty_length {A : Type} (l : list A) :
  (0 <? List.length l)%nat = match l with [] => false | _ :: _ => true end.
Proof. now destruct l. Qed.

(** The loop body when the record fits, or the current batch is empty. *)
Lemma splitStep_add (st : SplitState) (x : OrderItem) :
  (MAX_EMAIL_SIZE_BYTES <? currentSize st + itemSize x)%nat
  && (0 <? List.length (currentBatch st))%nat = false ->
  splitStep st x
  = {| batches := batches st;
       currentBatch := (currentBatch st ++ [x])%list;
       currentSize := (currentSize st + itemSize x)%nat |}.
Proof. intros H. unfold splitStep. now rewrite H. Qed.

(** The loop body when the record does not fit into a non-empty batch. *)
Lemma splitStep_close (st : SplitState) (x : OrderItem) :
  (MAX_EMAIL_SIZE_BYTES <? currentSize st + itemSize x)%nat
  && (0 <? List.length (currentBatch st))%nat = true ->
  splitStep st x
  = {| batches := pushBatch (batches st) (currentBatch st);
       currentBatch := [x]; currentSize := itemSize x |}.
Proof. intros H. unfold splitStep. now rewrite H. Qed.

Lemma batch_of_pushBatch (bs : list EmailBatch) (cur : list OrderItem) :
  map batch_of (pushBatch bs cur) = (map batch_of bs ++ [cur])%list.
Proof. unfold pushBatch. now rewrite map_app. Qed.

Lemma numbered_pushBatch (bs : list EmailBatch) (cur : list OrderItem) :
  numbered bs -> numbered (pushBatch bs cur).
Proof.
  unfold numbered, pushBatch. intros H.
  rewrite map_app, length_app, H. simpl.
  rewrite Nat.add_1_r, seq_S. reflexivity.
Qed.

(** The loop followed by the trailing close computes the greedy batches. *)
Lemma loop_greedy (items : list OrderItem) (st : SplitState) :
  map batch_of (closeLast (fold_left splitStep items st))
  = (map batch_of (batches st)
     ++ greedyBatches MAX_EMAIL_SIZE_BYTES (currentBatch st) (currentSize st) items)%list.
Proof.
  revert st. induction items as [|x items IH]; intros st.
  - simpl. unfold closeLast. rewrite nonempty_length.
    destruct (currentBatch st); [now rewrite app_nil_r|apply batch_of_pushBatch].
  - cbn [fold_left greedyBatches]. rewrite IH. unfold splitStep.
    rewrite nonempty_length.
    destruct ((MAX_EMAIL_SIZE_BYTES <? currentSize st + itemSize x)%nat
              && match currentBatch st with [] => false | _ :: _ => true end).
    + cbn [batches currentBatch currentSize]. rewrite batch_of_pushBatch.
      now rewrite <- app_assoc.
    + reflexivity.
Qed.

Lemma loop_numbered (items : list OrderItem) (st : SplitState) :
  numbered (batches st) -> numbered (closeLast (fold_left splitStep items st)).
Proof.
  revert st. induction items as [|x items IH]; intros st H.
  - simpl. unfold closeLast.
    destruct (0 <? List.length (currentBatch st))%nat; [|assumption].
    now apply numbered_pushBatch.
  - cbn [fold_left]. apply IH. unfold splitStep.
    destruct ((MAX_EMAIL_SIZE_BYTES <? currentSize st + itemSize x)%nat
              && (0 <? List.length (currentBatch st))%nat); [|assumption].
    now apply numbered_pushBatch.
Qed.

Lemma split_batches (items : list OrderItem) :
  map batch_of (splitIntoEmailBatches items)
  = greedyBatches MAX_EMAIL_SIZE_BYTES [] 0 items.
Proof.
  unfold splitIntoEmailBatches.
  fold (closeLast (fold_left splitStep items
                     {| batches := []; currentBatch := []; currentSize := 0 |})).
  rewrite map_map. cbn [batch_of setTotal].
  change (fun x : EmailBatch => batch_of x) with batch_of.
  now rewrite loop_greedy.
Qed.

Lemma split_numbers (items : list OrderItem) :
  map batchNumber (splitIntoEmailBatches items)
  = seq 1 (List.length (splitIntoEmailBatches items)).
Proof.
  unfold splitIntoEmailBatches.
  fold (closeLast (fold_left splitStep items
                     {| batches := []; currentBatch := []; currentSize := 0 |})).
  rewrite map_map, length_map. cbn [batchNumber setTotal].
  apply loop_numbered. reflexivity.
Qed.

Lemma greedy_concat (budget : nat) (items cur : list OrderItem) (size : nat) :
  List.concat (greedyBatches budget cur size items) = (cur ++ items)%list.
Proof.
  revert cur size. induction items as [|x items IH]; intros cur size.
  - destruct cur; simpl; now rewrite ?app_nil_r.
  - cbn [greedyBatches].
    destruct ((budget <? size + itemSize x)%nat
              && match cur with [] => false | _ :: _ => true end).
    + cbn [List.concat]. now rewrite IH.
    + now rewrite IH, <- app_assoc.
Qed.

Lemma greedy_nonempty (budget : nat) (items cur : list OrderItem) (size : nat) :
  Forall (fun l => l <> []) (greedyBatches budget cur size items).
Proof.
  revert cur size. induction items as [|x items IH]; intros cur size.
  - destruct cur; constructor; [discriminate|constructor].
  - cbn [greedyBatches]. destruct cur as [|c cur].
    + rewrite andb_false_r. apply IH.
    + destruct (budget <? size + itemSize x)%nat; cbn [andb].
      * constructor; [discriminate|apply IH].
      * apply IH.
Qed.

Lemma size_le_sum (x : OrderItem) (l : list OrderItem) :
  In x l -> (itemSize x <= sumSizes l)%nat.
Proof.
  unfold sumSizes. induction l as [|y l IH]; cbn [In map fold_right];
    [contradiction|].
  intros [->|H]; [lia|]. specialize (IH H). lia.
Qed.

Lemma sumSizes_app (l : list OrderItem) (x : OrderItem) :
  sumSizes (l ++ [x]) = (sumSizes l + itemSize x)%nat.
Proof.
  unfold sumSizes.
  induction l as [|y l IH]; cbn [app map fold_right]; [lia|]. rewrite IH. lia.
Qed.

(** A record larger than the budget is the only one of its batch. *)
Definition oversizeAlone (budget : nat) (l : list OrderItem) : Prop :=
  forall x, In x l -> (budget < itemSize x)%nat -> l = [x].

Lemma greedy_oversize (budget : nat) (items cur : list OrderItem) :
  oversizeAlone budget cur ->
  Forall (oversizeAlone budget) (greedyBatches budget cur (sumSizes cur) items).
Proof.
  revert cur. induction items as [|x items IH]; intros cur Hcur.
  - destruct cur; constructor; [assumption|constructor].
  - cbn [greedyBatches]. destruct cur as [|c cur].
    + rewrite andb_false_r, <- sumSizes_app. apply IH.
      intros y [->|[]] _. reflexivity.
    + destruct (Nat.ltb_spec budget (sumSizes (c :: cur) + itemSize x)) as [Hbig|Hfit];
        cbn [andb].
      * constructor; [assumption|].
        replace (itemSize x) with (sumSizes [x]) by (unfold sumSizes; cbn [map fold_right]; lia).
        apply IH. intros y [->|[]] _. reflexivity.
      * rewrite <- sumSizes_app. apply IH.
        intros y Hy Hover. exfalso.
        pose proof (size_le_sum y _ Hy) as Hle.
        rewrite sumSizes_app in Hle. lia.
Qed.

End SplitFacts.

(** C2.  [splitIntoEmailBatches] follows the greedy rule: its loop body
    closes the current batch exactly when the accumulated size plus the
    next record's size exceeds 4000 and the current batch is not empty,
    and then adds the record; the batches it returns are those of
    [greedyBatches]; every batch carries the final batch count.  Four
    records of sizes 1000, 1000, 1000 and 1500 give two batches, the first
    three records and the fourth, both with [totalBatches = 2]. *)
Theorem split_follows_greedy_rule :
  (forall (st : SplitState) (x : OrderItem),
      let closes := (4000 <? currentSize st + itemSize x)%nat
                    && (0 <? List.length (currentBatch st))%nat in
      splitStep st x
      = if closes
        then {| batches := pushBatch (batches st) (currentBatch st);
                currentBatch := [x]; currentSize := itemSize x |}
        else {| batches := batches st;
                currentBatch := (currentBatch st ++ [x])%list;
                currentSize := (currentSize st + itemSize x)%nat |})
  /\ (forall items : list OrderItem,
         map batch_of (splitIntoEmailBatches items) = greedyBatches 4000 [] 0 items
         /\ Forall (fun b => totalBatches b = List.length (splitIntoEmailBatches items))
                   (splitIntoEmailBatches items))
  /\ (forall a b c d : OrderItem,
         map itemSize [a; b; c; d] = [1000; 1000; 1000; 1500]%nat ->
         splitIntoEmailBatches [a; b; c; d]
         = [ {| batch_of := [a; b; c]; batchNumber := 1; totalBatches := 2 |};
             {| batch_of := [d]; batchNumber := 2; totalBatches := 2 |} ]).
Proof.
  split; [|split].
  - intros st x. cbn zeta. fold MAX_EMAIL_SIZE_BYTES.
    destruct ((MAX_EMAIL_SIZE_BYTES <? currentSize st + itemSize x)%nat
              && (0 <? List.length (currentBatch st))%nat) eqn:Hclose.
    + now apply splitStep_close.
    + now apply splitStep_add.
  - intros items. split; [apply split_batches|].
    unfold splitIntoEmailBatches. rewrite length_map.
    apply Forall_forall. intros b Hb. apply in_map_iff in Hb.
    destruct Hb as (b0 & <- & _). reflexivity.
  - intros a b c d Hsizes. cbn [map] in Hsizes.
    assert (Ha : itemSize a = 1000%nat) by congruence.
    assert (Hb : itemSize b = 1000%nat) by congruence.
    assert (Hc : itemSize c = 1000%nat) by congruence.
    assert (Hd : itemSize d = 1500%nat) by congruence.
    unfold splitIntoEmailBatches. cbn [fold_left].
    rewrite (splitStep_add _ a)
      by (cbn [currentSize currentBatch]; rewrite Ha; reflexivity).
    cbn [currentSize currentBatch batches app]. rewrite Ha.
    rewrite (splitStep_add _ b)
      by (cbn [currentSize currentBatch]; rewrite Hb; reflexivity).
    cbn [currentSize currentBatch batches app]. rewrite Hb.
    rewrite (splitStep_add _ c)
      by (cbn [currentSize currentBatch]; rewrite Hc; reflexivity).
    cbn [currentSize currentBatch batches app]. rewrite Hc.
    rewrite (splitStep_close _ d)
      by (cbn [currentSize currentBatch]; rewrite Hd; reflexivity).
    reflexivity.
Qed.

(** An order item whose e-mail line takes [39 + n] bytes. *)
Definition sampleItem (ident : string) (n : nat) : OrderItem := {|
  id := JStr ident; os := "1"; clientDescription := Str.repeat "a" n;
  colors := ""; jobType := JStr Novo; date := JStr "2023-11-27";
  width := 18; height := 24; games := 1; pricePerCm2 := DEFAULT_RATE;
  observations := ""
|}.

Lemma split_follows_greedy_rule_witness :
  map itemSize [sampleItem "a" 961; sampleItem "b" 961; sampleItem "c" 961;
                sampleItem "d" 1461] = [1000; 1000; 1000; 1500]%nat
  /\ splitIntoEmailBatches [sampleItem "a" 961; sampleItem "b" 961;
                            sampleItem "c" 961; sampleItem "d" 1461]
     = [ {| batch_of := [sampleItem "a" 961; sampleItem "b" 961; sampleItem "c" 961];
            batchNumber := 1; totalBatches := 2 |};
         {| batch_of := [sampleItem "d" 1461]; batchNumber := 2; totalBatches := 2 |} ].
Proof.
  split; [vm_compute; reflexivity|].
  apply (proj2 (proj2 split_follows_greedy_rule)).
  vm_compute; reflexivity.
Defined.

(** C6.  The batches of [splitIntoEmailBatches], concatenated in order,
    are the input list; no batch is empty; a single record is returned as
    one batch whatever its size, and in any input a record larger than the
    budget is the only record of its batch; the batch numbers are
    1, 2, 3, ... in order. *)
Theorem split_preserves_items (items : list OrderItem) :
  List.concat (map batch_of (splitIntoEmailBatches items)) = items
  /\ Forall (fun b => batch_of b <> []) (splitIntoEmailBatches items)
  /\ (forall x : OrderItem,
         splitIntoEmailBatches [x]
         = [ {| batch_of := [x]; batchNumber := 1; totalBatches := 1 |} ])
  /\ (forall (b : EmailBatch) (x : OrderItem),
         In b (splitIntoEmailBatches items) -> In x (batch_of b) ->
         (MAX_EMAIL_SIZE_BYTES < itemSize x)%nat -> batch_of b = [x])
  /\ map batchNumber (splitIntoEmailBatches items)
     = seq 1 (List.length (splitIntoEmailBatches items)).
Proof.
  split; [|split; [|split; [|split]]].
  - now rewrite split_batches, greedy_concat.
  - pose proof (greedy_nonempty MAX_EMAIL_SIZE_BYTES items [] 0) as H.
    rewrite <- split_batches in H. now rewrite Forall_map in H.
  - intros x. unfold splitIntoEmailBatches. cbn [fold_left].
    rewrite splitStep_add by apply andb_false_r. reflexivity.
  - intros b x Hb Hx Hover.
    pose proof (greedy_oversize MAX_EMAIL_SIZE_BYTES items []) as H.
    change (sumSizes []) with 0%nat in H. rewrite <- split_batches in H.
    rewrite Forall_map in H. rewrite Forall_forall in H.
    apply (H (fun y Hy => match Hy with end) b Hb x Hx Hover).
  - apply split_numbers.
Qed.

Lemma split_preserves_items_witness :
  In {| batch_of := [sampleItem "big" 5000]; batchNumber := 2; totalBatches := 3 |}
     (splitIntoEmailBatches [sampleItem "a" 10; sampleItem "big" 5000; sampleItem "c" 10])
  /\ (MAX_EMAIL_SIZE_BYTES < itemSize (sampleItem "big" 5000))%nat
  /\ batch_of {| batch_of := [sampleItem "big" 5000]; batchNumber := 2; totalBatches := 3 |}
     = [sampleItem "big" 5000].
Proof.
  assert (Hin : In {| batch_of := [sampleItem "big" 5000]; batchNumber := 2;
                      totalBatches := 3 |}
                   (splitIntoEmailBatches
                      [sampleItem "a" 10; sampleItem "big" 5000; sampleItem "c" 10]))
    by (vm_compute; right; left; reflexivity).
  assert (Hbig : (MAX_EMAIL_SIZE_BYTES < itemSize (sampleItem "big" 5000))%nat)
    by (vm_compute; lia).
  split; [exact Hin|]. split; [exact Hbig|].
  exact (proj1 (proj2 (proj2 (proj2
           (split_preserves_items
              [sampleItem "a" 10; sampleItem "big" 5000; sampleItem "c" 10]))))
           _ (sampleItem "big" 5000) Hin (or_introl eq_refl) Hbig).
Defined.

(* ================================================================== *)
(** * Calculation engine: [calculateItem] *)
(* ================================================================== *)

(** C7.  [calculateItem] depends on its argument alone (it is a function
    outside the monad [M]); it returns the item unchanged together with
    [cm2Total = width * height * games] and
    [totalValue = cm2Total * pricePerCm2], the binary64 products with no
    further rounding; applied again to the order item of its own result
    it gives the same result. *)
Theorem calculateItem_extends_item (item : OrderItem) :
  order (calculateItem item) = item
  /\ cm2Total (calculateItem item) = (width item * height item * games item)%float
  /\ totalValue (calculateItem item)
     = (cm2Total (calculateItem item) * pricePerCm2 item)%float
  /\ calculateItem (order (calculateItem item)) = calculateItem item
  /\ (forall other : OrderItem,
         width other = width item -> height other = height item ->
         games other = games item -> pricePerCm2 other = pricePerCm2 item ->
         cm2Total (calculateItem other) = cm2Total (calculateItem item)
         /\ totalValue (calculateItem other) = totalValue (calculateItem item)).
Proof.
  repeat split; try reflexivity.
  - unfold calculateItem; cbn [cm2Total]. congruence.
  - unfold calculateItem; cbn [totalValue]. congruence.
Qed.

(** The first of the application's initial items: 18 x 24 cm, 4 games. *)
Definition firstInitialItem : OrderItem := {|
  id := JStr "1"; os := "4787"; clientDescription := "16293 - Alibem";
  colors := "CMYK"; jobType := JStr Novo; date := JStr "2023-11-27";
  width := 18; height := 24; games := 4; pricePerCm2 := DEFAULT_RATE;
  observations := ""
|}.

Lemma calculateItem_extends_item_witness :
  cm2Total (calculateItem firstInitialItem) = 1728%float
  /\ totalValue (calculateItem firstInitialItem) = (1728 * 0.0798)%float.
Proof.
  destruct (calculateItem_extends_item firstInitialItem) as (_ & Harea & Hvalue & _).
  rewrite Hvalue, Harea. split; reflexivity.
Defined.

(* ================================================================== *)
(** * Archiving: [handleArchive] *)
(* ================================================================== *)

(** The batch [handleArchive] builds from the state and the world. *)
Definition archivedBatch (st : AppState) (w : World) : HistoryBatch :=
  let now := clock w (clockCalls w) in
  {| batch_id := generatedId w;
     timestamp := toISOString now;
     batch_items := app_items st;
     stockSnapshot := totalStock st;
     month := getMonth now;
     year := getFullYear now |}.

(** C8, as the code has it.  For every non-empty working set and stock
    level, when the user confirms the prompt [handleArchive] empties the
    working set and puts one new batch in front of the history, which is
    otherwise unchanged; the batch holds the items of the working set in
    their order, the stock level, and the ISO timestamp, month and year of
    one and the same [Date].  When the user declines, and when the working
    set is empty, the state is unchanged: the archive is all or nothing. *)
Theorem handleArchive_all_or_nothing (st : AppState) (w : World) :
  (app_items st <> [] -> userConfirms w = true ->
   let st' := fst (handleArchive st w) in
   app_items st' = []
   /\ history st' = archivedBatch st w :: history st
   /\ batch_items (archivedBatch st w) = app_items st
   /\ stockSnapshot (archivedBatch st w) = totalStock st
   /\ timestamp (archivedBatch st w) = toISOString (clock w (clockCalls w))
   /\ month (archivedBatch st w) = getMonth (clock w (clockCalls w))
   /\ year (archivedBatch st w) = getFullYear (clock w (clockCalls w))
   /\ totalStock st' = totalStock st)
  /\ (userConfirms w = false -> fst (handleArchive st w) = st)
  /\ (app_items st = [] -> fst (handleArchive st w) = st).
Proof.
  unfold handleArchive, archivedBatch, generatedId.
  destruct (app_items st) as [|i rest] eqn:Hitems.
  - repeat split; congruence.
  - cbn [List.length Nat.eqb].
    unfold windowConfirm, newDate, randomId, mathRandom36, bind, ret.
    destruct (userConfirms w); cbn [negb fst snd randomSource randomCalls
                                    clock clockCalls].
    + split; [|split]; [|discriminate|discriminate].
      intros _ _. cbn. repeat split.
    + split; [|split]; [discriminate|reflexivity|discriminate].
Qed.

Definition sampleState : AppState := {|
  app_items := [firstInitialItem];
  history := [];
  totalStock := 10000;
  activeTab := production
|}.

Definition decliningWorld : World := {|
  randomSource := randomSource sampleWorld;
  randomCalls := 0;
  clock := clock sampleWorld;
  clockCalls := 0;
  userConfirms := false;
  development := false
|}.

Lemma handleArchive_all_or_nothing_witness :
  app_items (fst (handleArchive sampleState sampleWorld)) = []
  /\ history (fst (handleArchive sampleState sampleWorld))
     = [ {| batch_id := "4fzyo82mv"; timestamp := "2024-03-05T10:11:12.000Z";
            batch_items := [firstInitialItem]; stockSnapshot := 10000;
            month := 2; year := 2024 |} ].
Proof.
  destruct (proj1 (handleArchive_all_or_nothing sampleState sampleWorld))
    as (Hitems & Hhistory & _).
  - discriminate.
  - reflexivity.
  - split; [exact Hitems|exact Hhistory].
Defined.

(** When the user declines the prompt a non-empty working set stays as it
    is and no batch is created. *)
Lemma handleArchive_declined_keeps_items :
  app_items sampleState = [firstInitialItem]
  /\ app_items (fst (handleArchive sampleState decliningWorld)) = [firstInitialItem]
  /\ history (fst (handleArchive sampleState decliningWorld)) = [].
Proof. repeat split. Qed.

(* ================================================================== *)
(** * Order on numbers *)
(* ================================================================== *)

Section FloatOrder.

Lemma SFcompare_antisym (x y : spec_float) :
  SFcompare y x = option_map CompOpp (SFcompare x y).
Proof.
  destruct x as [sx|sx| |sx mx ex], y as [sy|sy| |sy my ey]; simpl;
    try reflexivity;
    try (destruct sx; reflexivity); try (destruct sy; reflexivity);
    try (destruct sx, sy; reflexivity).
  destruct sx, sy; simpl; try reflexivity;
    rewrite (Z.compare_antisym ex ey);
    destruct (ex ?= ey)%Z; simpl; try reflexivity;
    rewrite (Pos.compare_cont_antisym mx my Eq); simpl;
    now rewrite ?CompOpp_involutive.
Qed.

Lemma SFcompare_refl (x : spec_float) :
  x <> S754_nan -> SFcompare x x = Some Eq.
Proof.
  destruct x as [s|s| |s m e]; simpl; intros H; try congruence;
    destruct s; try reflexivity;
    rewrite Z.compare_refl, Pos.compare_cont_refl; reflexivity.
Qed.

Lemma is_nan_spec (x : float) :
  is_nan x = match Prim2SF x with S754_nan => true | _ => false end.
Proof.
  unfold is_nan. rewrite FloatAxioms.eqb_spec. unfold SFeqb.
  destruct (Prim2SF x) as [s|s| |s m e] eqn:E; try reflexivity;
    rewrite SFcompare_refl by discriminate; reflexivity.
Qed.

Lemma compare_defined (x y : float) :
  is_nan x = false -> is_nan y = false ->
  exists c, SFcompare (Prim2SF x) (Prim2SF y) = Some c.
Proof.
  rewrite !is_nan_spec.
  destruct (Prim2SF x) as [sx|sx| |sx mx ex], (Prim2SF y) as [sy|sy| |sy my ey];
    simpl; intros; try discriminate; eauto.
Qed.

(** On numbers that are not NaN, [<=] is the negation of [>]. *)
Lemma leb_not_ltb (x y : float) :
  is_nan x = false -> is_nan y = false -> (x <=? y)%float = negb (y <? x)%float.
Proof.
  intros Hx Hy. rewrite leb_spec, ltb_spec. unfold SFleb, SFltb.
  rewrite (SFcompare_antisym (Prim2SF x) (Prim2SF y)).
  destruct (compare_defined x y Hx Hy) as [c ->]. now destruct c.
Qed.

Lemma ltb_leb (x y : float) : (x <? y)%float = true -> (x <=? y)%float = true.
Proof.
  rewrite leb_spec, ltb_spec. unfold SFleb, SFltb.
  destruct (SFcompare (Prim2SF x) (Prim2SF y)) as [[| |]|]; congruence.
Qed.

Lemma ltb_nan_l (x y : float) : is_nan x = true -> (x <? y)%float = false.
Proof.
  rewrite is_nan_spec, ltb_spec. unfold SFltb.
  destruct (Prim2SF x); try discriminate. reflexivity.
Qed.

Lemma ltb_nan_r (x y : float) : is_nan y = true -> (x <? y)%float = false.
Proof.
  rewrite is_nan_spec, ltb_spec. unfold SFltb.
  destruct (Prim2SF y); try discriminate. now destruct (Prim2SF x).
Qed.

Lemma leb_nan_l (x y : float) : is_nan x = true -> (x <=? y)%float = false.
Proof.
  rewrite is_nan_spec, leb_spec. unfold SFleb.
  destruct (Prim2SF x); try discriminate. reflexivity.
Qed.

End FloatOrder.

(** Both dimensions lie in the interval from 0, excluded, to 500 cm. *)
Definition inRange (w h : float) : bool :=
  ((0 <? w) && (w <=? 500) && ((0 <? h) && (h <=? 500)))%float.


(* ================================================================== *)
(** * Validator: [validateDimensions], [validateGames] *)
(* ================================================================== *)

Lemma validateDimensions_valid (w h : float) :
  valid (validateDimensions w h) = inRange w h.
Proof.
  unfold validateDimensions, inRange.
  destruct (is_nan w) eqn:Nw.
  - cbn [orb valid]. now rewrite (ltb_nan_r 0 w Nw).
  - destruct (is_nan h) eqn:Nh.
    + cbn [orb valid]. now rewrite (ltb_nan_r 0 h Nh), andb_false_r.
    + cbn [orb].
      rewrite (leb_not_ltb w 0 Nw eq_refl), (leb_not_ltb h 0 Nh eq_refl).
      rewrite (leb_not_ltb w 500 Nw eq_refl), (leb_not_ltb h 500 Nh eq_refl).
      destruct (0 <? w)%float, (0 <? h)%float, (500 <? w)%float, (500 <? h)%float;
        reflexivity.
Qed.

(** [validateDimensions] accepts a pair exactly when both numbers lie in
    the interval from 0, excluded, to 500; NaN is never accepted.  It
    reports an error exactly when it rejects, and the message tells the
    three grounds apart: a NaN, a value that is not positive, a value
    above 500. *)
Theorem validateDimensions_range (w h : float) :
  valid (validateDimensions w h) = inRange w h
  /\ (valid (validateDimensions w h) = true <-> error (validateDimensions w h) = None)
  /\ (error (validateDimensions w h) = Some errNaN <-> is_nan w || is_nan h = true)
  /\ (error (validateDimensions w h) = Some errNonPositive <->
      is_nan w || is_nan h = false /\ ((w <=? 0) || (h <=? 0))%float = true)
  /\ (error (validateDimensions w h) = Some errTooLarge <->
      is_nan w || is_nan h = false /\ ((w <=? 0) || (h <=? 0))%float = false
      /\ ((500 <? w) || (500 <? h))%float = true).
Proof.
  assert (D1 : errNaN <> errNonPositive) by (vm_compute; discriminate).
  assert (D2 : errNaN <> errTooLarge) by (vm_compute; discriminate).
  assert (D3 : errNonPositive <> errTooLarge) by (vm_compute; discriminate).
  unfold validateDimensions, inRange.
  destruct (is_nan w) eqn:Nw.
  - cbn [orb valid error]. rewrite (ltb_nan_r 0 w Nw). cbn [andb].
    repeat split; try congruence; intros; try discriminate; intuition congruence.
  - destruct (is_nan h) eqn:Nh.
    + cbn [orb valid error]. rewrite (ltb_nan_r 0 h Nh), andb_false_r.
      repeat split; try congruence; intros; try discriminate; intuition congruence.
    + cbn [orb].
      rewrite (leb_not_ltb w 0 Nw eq_refl), (leb_not_ltb h 0 Nh eq_refl).
      rewrite (leb_not_ltb w 500 Nw eq_refl), (leb_not_ltb h 500 Nh eq_refl).
      destruct (0 <? w)%float, (0 <? h)%float, (500 <? w)%float, (500 <? h)%float;
        cbn [negb orb andb valid error];
        repeat split; try congruence; intros; try discriminate;
        intuition congruence.
Qed.

(** What [Math.max(1, isNaN(parsed) ? 1 : parsed)] comes to. *)
Lemma normalised_games (parsed : float) :
  let n := Num.max 1 (if is_nan parsed then 1%float else parsed) in
  (1 <=? n)%float = true
  /\ is_nan n = false
  /\ (is_nan parsed = true \/ (parsed <=? 1)%float = true -> n = 1%float)
  /\ ((1 <? parsed)%float = true -> n = parsed).
Proof.
  cbn zeta. split; [|split; [|split]].
  3:{ intros [N|L].
      - rewrite N. reflexivity.
      - destruct (is_nan parsed) eqn:N; [reflexivity|].
        unfold Num.max. change (is_nan 1) with false. rewrite N. cbn [orb].
        rewrite (leb_not_ltb _ 1 N eq_refl) in L. apply negb_true_iff in L.
        rewrite L. destruct (parsed <? 1)%float; reflexivity. }
  3:{ intros L. destruct (is_nan parsed) eqn:N.
      - now rewrite (ltb_nan_r 1 _ N) in L.
      - unfold Num.max. change (is_nan 1) with false. rewrite N. cbn [orb].
        now rewrite L. }
  all: set (p := if is_nan parsed then 1%float else parsed);
    assert (Np : is_nan p = false)
      by (subst p; destruct (is_nan parsed) eqn:E; [reflexivity|exact E]);
    unfold Num.max; change (is_nan 1) with false; rewrite Np; cbn [orb];
    (destruct (1 <? p)%float eqn:L1;
     [first [now apply ltb_leb | exact Np]
     |destruct (p <? 1)%float; [reflexivity|];
      change (Num.isNegative (1 / 1)) with false; reflexivity]).
Qed.

(** [validateGames] throws the TypeError of [parseInt] on the values that
    cannot be converted to a string: the objects with an own property
    [toString] and the arrays that hold one.  On every other value it is
    a normaliser: the result is a number, never NaN, and at least 1; a
    value that [parseInt] does not read as a number, or reads as 1 or
    less, becomes 1; one that it reads as more than 1 becomes that
    integer. *)
Theorem validateGames_at_least_one (games : JsValue) :
  (convertible games = false -> validateGames games = Throw cannotConvert)
  /\ (convertible games = true ->
      let parsed := Num.parseInt (text games) in
      exists n : float,
        validateGames games = Ok n
        /\ (1 <=? n)%float = true
        /\ is_nan n = false
        /\ (is_nan parsed = true \/ (parsed <=? 1)%float = true -> n = 1%float)
        /\ ((1 <? parsed)%float = true -> n = parsed)).
Proof.
  rewrite validateGames_convertible. split; intros C; rewrite C; [reflexivity|].
  cbn zeta. eexists. split; [reflexivity|].
  apply (normalised_games (Num.parseInt (text games))).
Qed.

Lemma validateGames_at_least_one_witness :
  validateGames (JStr "abc") = Ok 1%float
  /\ validateGames (JNum (-2)) = Ok 1%float
  /\ validateGames (JStr "4 jogos") = Ok 4%float
  /\ validateGames (JObj [("toString", JNum 1)]) = Throw cannotConvert.
Proof.
  split; [|split; [|split]].
  - destruct (proj2 (validateGames_at_least_one (JStr "abc")) eq_refl)
      as (n & -> & _ & _ & H & _).
    rewrite H; [reflexivity|]. left. vm_compute. reflexivity.
  - destruct (proj2 (validateGames_at_least_one (JNum (-2))) eq_refl)
      as (n & -> & _ & _ & H & _).
    rewrite H; [reflexivity|]. right. vm_compute. reflexivity.
  - destruct (proj2 (validateGames_at_least_one (JStr "4 jogos")) eq_refl)
      as (n & -> & _ & _ & _ & H).
    rewrite H; vm_compute; reflexivity.
  - exact (proj1 (validateGames_at_least_one (JObj [("toString", JNum 1)]))
                 eq_refl).
Defined.

(** [extractDimensions] never hands out geometry that the validator
    rejects: a result, when there is one, lies within 0 and 500 cm in
    both directions; and the empty name has no dimensions. *)
Theorem extractDimensions_in_range (filename : string) (d : PdfDimensions) :
  extractDimensions filename = Some d ->
  inRange (dim_width d) (dim_height d) = true
  /\ valid (validateDimensions (dim_width d) (dim_height d)) = true.
Proof.
  unfold extractDimensions.
  destruct (String.eqb filename ""); [discriminate|].
  destruct (exec sizePattern filename) as [m|]; [|discriminate].
  match goal with
  | |- context [validateDimensions ?a ?b] =>
      destruct (valid (validateDimensions a b)) eqn:V
  end; cbn [negb]; [|discriminate].
  intros [= <-]. cbn [dim_width dim_height].
  split; [|exact V].
  now rewrite <- validateDimensions_valid.
Qed.

Lemma extractDimensions_in_range_witness :
  extractDimensions "a 100.5 X 200MM.pdf"
  = Some {| dim_width := 10.05; dim_height := 20 |}
  /\ inRange 10.05 20 = true.
Proof.
  assert (E : extractDimensions "a 100.5 X 200MM.pdf"
              = Some {| dim_width := 10.05; dim_height := 20 |})
    by (vm_compute; reflexivity).
  split; [exact E|].
  exact (proj1 (extractDimensions_in_range _ _ E)).
Defined.


(* ================================================================== *)
(** * Validator: [validateEmail] *)
(* ================================================================== *)

(** [s.trimEnd()] and [s.trim()] *)
Fixpoint trimEnd (s : string) : string :=
  match s with
  | EmptyString => EmptyString
  | String c s' =>
      match trimEnd s' with
      | EmptyString => if Str.isSpace c then EmptyString else String c EmptyString
      | t => String c t
      end
  end.

Definition trim (s : string) : string := trimEnd (Str.dropWhile Str.isSpace s).

(** [[^\s@]] *)
Definition notSpaceNorAt (c : ascii) : bool :=
  negb (Str.isSpace c || Str.same "@" c).

(** [/^[^\s@]+@[^\s@]+\.[^\s@]+$/] *)
Definition emailRegex : regex :=
  seqs [ StartOfInput; plus notSpaceNorAt; lit "@"; plus notSpaceNorAt;
         lit "."; plus notSpaceNorAt; EndOfInput ].

Definition validateEmail (email : string) : bool :=
  test emailRegex (trim email).

(** The shape [local@domain.tld]: three non-empty runs without white
    space or [@], the first two separated by [@], the last two by a dot. *)
Definition emailShape (s : string) : Prop :=
  exists l d t : string,
    s = l ++ "@" ++ d ++ "." ++ t
    /\ l <> "" /\ d <> "" /\ t <> ""
    /\ every notSpaceNorAt l = true
    /\ every notSpaceNorAt d = true
    /\ every notSpaceNorAt t = true.

Section EmailFacts.

Lemma positive_length (a : string) : (1 <= String.length a)%nat <-> a <> "".
Proof. destruct a; simpl; split; intros; try lia; congruence. Qed.

(** The pattern is anchored: it fails wherever a character precedes. *)
Lemma emailRegex_anchored (s : string) :
  forall (i : nat) (c : ascii), searchFrom emailRegex i (Some c) s = None.
Proof.
  induction s as [|x s IH]; intros i c; cbn [searchFrom].
  - reflexivity.
  - change (run emailRegex (MState (Some c) (String x s) []) Some) with (@None mstate).
    apply IH.
Qed.

Lemma test_emailRegex (s : string) :
  test emailRegex s
  = match run emailRegex (MState None s []) Some with
    | Some _ => true
    | None => false
    end.
Proof.
  unfold test, exec. destruct s as [|c s]; cbn [searchFrom].
  - now destruct (run emailRegex (MState None "" []) Some).
  - destruct (run emailRegex (MState None (String c s) []) Some); [reflexivity|].
    now rewrite emailRegex_anchored.
Qed.

(** The rest of the pattern after the local part, as the matcher runs it. *)
Definition afterTld (st : mstate) : option mstate :=
  match rest st with EmptyString => Some st | String _ _ => None end.

Definition afterDomain (st : mstate) : option mstate :=
  match rest st with
  | String c s' =>
      if Str.same "." c
      then quant notSpaceNorAt 1 None (Some c) s' (caps st) afterTld
      else None
  | EmptyString => None
  end.

Definition afterLocal (st : mstate) : option mstate :=
  match rest st with
  | String c s' =>
      if Str.same "@" c
      then quant notSpaceNorAt 1 None (Some c) s' (caps st) afterDomain
      else None
  | EmptyString => None
  end.

Lemma run_emailRegex (s : string) :
  run emailRegex (MState None s []) Some
  = quant notSpaceNorAt 1 None None s [] afterLocal.
Proof. reflexivity. Qed.

Lemma emailRegex_sound (s : string) (st : mstate) :
  run emailRegex (MState None s []) Some = Some st -> emailShape s.
Proof.
  rewrite run_emailRegex. intros H.
  destruct (quant_sound _ _ _ _ _ _ _ _ H) as (l & b1 & -> & Hl & Nl & _ & K1).
  unfold afterLocal in K1. cbn [rest caps] in K1.
  destruct b1 as [|c1 b1]; [discriminate|].
  destruct (Str.same "@" c1) eqn:E1; [|discriminate].
  apply same_eq in E1. subst c1.
  destruct (quant_sound _ _ _ _ _ _ _ _ K1) as (d & b2 & -> & Hd & Nd & _ & K2).
  unfold afterDomain in K2. cbn [rest caps] in K2.
  destruct b2 as [|c2 b2]; [discriminate|].
  destruct (Str.same "." c2) eqn:E2; [|discriminate].
  apply same_eq in E2. subst c2.
  destruct (quant_sound _ _ _ _ _ _ _ _ K2) as (t & b3 & -> & Ht & Nt & _ & K3).
  unfold afterTld in K3. cbn [rest] in K3.
  destruct b3; [|discriminate].
  exists l, d, t. rewrite append_nil_r.
  repeat split; trivial; now apply positive_length.
Qed.

Lemma emailRegex_complete (s : string) :
  emailShape s -> run emailRegex (MState None s []) Some <> None.
Proof.
  intros (l & d & t & -> & Nl & Nd & Nt & Hl & Hd & Ht).
  rewrite run_emailRegex.
  apply quant_complete; trivial; [now apply positive_length|exact I|].
  unfold afterLocal. cbn [rest caps append]. rewrite same_refl.
  apply quant_complete; trivial; [now apply positive_length|exact I|].
  unfold afterDomain. cbn [rest caps append]. rewrite same_refl.
  rewrite <- (append_nil_r t).
  apply quant_complete; trivial; [now apply positive_length|exact I|].
  unfold afterTld. cbn [rest]. discriminate.
Qed.

End EmailFacts.

(** [validateEmail] accepts exactly the addresses that, once trimmed,
    have the shape [local@domain.tld].  In particular the empty string
    and every trimmed text without [@] or without a dot after the [@]
    is rejected. *)
Theorem validateEmail_shape (email : string) :
  validateEmail email = true <-> emailShape (trim email).
Proof.
  unfold validateEmail. rewrite test_emailRegex. split.
  - destruct (run emailRegex (MState None (trim email) []) Some) as [st|] eqn:H;
      [intros _; now apply (emailRegex_sound _ st)|discriminate].
  - intros H. apply emailRegex_complete in H.
    now destruct (run emailRegex (MState None (trim email) []) Some).
Qed.

Example validateEmail_examples :
  map validateEmail
      ["ana@equiplan.com.br"; "  ana@equiplan.com  "; "ana@equiplan"; "ana.com";
       "a na@equiplan.com"; "ana@@equiplan.com"; ""; "@b.c"; "a@.c"; "a@b."]
  = [true; true; false; false; false; false; false; false; false; false].
Proof. vm_compute. reflexivity. Qed.


(* ================================================================== *)
(** * Heuristic extractor: which names have a job number *)
(* ================================================================== *)

(** A run of four digits or more that no word character touches: no
    letter of [a-z] or [A-Z], no digit and no underscore.  An accented
    letter is no word character. *)
Definition jobNumberIn (filename ds : string) : Prop :=
  exists before after : string,
    filename = before ++ ds ++ after
    /\ every Str.isDigit ds = true
    /\ (4 <= String.length ds)%nat
    /\ endsWithWord before = false
    /\ startsWithWord after = false.

Section ExtractOSFacts.

Lemma digit_is_word (c : ascii) : Str.isDigit c = true -> Str.isWordChar c = true.
Proof. unfold Str.isWordChar. intros ->. now rewrite orb_true_r. Qed.

Lemma lastOr_digits (pv : option ascii) (a : string) :
  every Str.isDigit a = true -> a <> "" ->
  exists c, lastOr pv a = Some c /\ Str.isDigit c = true.
Proof.
  revert pv. induction a as [|c a IH]; intros pv Ha Hne; [congruence|].
  cbn [every] in Ha. apply andb_true_iff in Ha. destruct Ha as [Hc Ha].
  destruct a as [|c' a']; [now exists c|].
  apply (IH (Some c)); [exact Ha|discriminate].
Qed.

(** What the continuation of the capture group does after the digits. *)
Definition afterDigits (s0 : string) (st1 : mstate) : option mstate :=
  let n := (String.length s0 - String.length (rest st1))%nat in
  let st2 := MState (prev st1) (rest st1) ((1%nat, Str.take n s0) :: caps st1) in
  if xorb (wordBefore st2) (wordAfter st2) then Some st2 else None.

Lemma run_osPattern (pv : option ascii) (s : string) :
  run osPattern (MState pv s []) Some
  = if xorb (wordBefore (MState pv s [])) (wordAfter (MState pv s []))
    then quant Str.isDigit 4 None pv s [] (afterDigits s)
    else None.
Proof. reflexivity. Qed.

Lemma osPattern_sound (before s : string) (st : mstate) :
  run osPattern (MState (lastOr None before) s []) Some = Some st ->
  exists ds after,
    s = ds ++ after /\ caps st = [(1%nat, ds)] /\ rest st = after
    /\ every Str.isDigit ds = true /\ (4 <= String.length ds)%nat
    /\ endsWithWord before = false /\ startsWithWord after = false.
Proof.
  rewrite run_osPattern.
  destruct (xorb _ _) eqn:B; [|discriminate]. intros H.
  destruct (quant_sound _ _ _ _ _ _ _ _ H) as (ds & after & -> & Hds & Nds & _ & K).
  unfold afterDigits in K. cbn [rest prev caps] in K.
  rewrite length_append, Nat.add_sub, take_append in K.
  destruct (xorb _ _) eqn:B2 in K; [|discriminate]. injection K as <-.
  assert (Hne : ds <> "") by (destruct ds; [simpl in Nds; lia|discriminate]).
  exists ds, after. repeat split; trivial.
  - unfold wordBefore, wordAfter in B. cbn [prev rest] in B.
    destruct ds as [|c ds]; [congruence|]. cbn [append every] in *.
    apply andb_true_iff in Hds. destruct Hds as [Hc _].
    rewrite (digit_is_word c Hc), xorb_true_r in B. apply negb_true_iff in B.
    exact B.
  - unfold wordBefore, wordAfter in B2. cbn [prev rest] in B2.
    destruct (lastOr_digits (lastOr None before) ds Hds Hne) as (c & E & Hc).
    rewrite E, (digit_is_word c Hc) in B2. cbn [xorb] in B2.
    apply negb_true_iff in B2. exact B2.
Qed.

Lemma osPattern_complete (before ds after : string) :
  every Str.isDigit ds = true -> (4 <= String.length ds)%nat ->
  endsWithWord before = false -> startsWithWord after = false ->
  run osPattern (MState (lastOr None before) (ds ++ after) []) Some <> None.
Proof.
  intros Hds Nds Hb Ha. rewrite run_osPattern.
  assert (Hne : ds <> "") by (destruct ds; [simpl in Nds; lia|discriminate]).
  assert (B : xorb (wordBefore (MState (lastOr None before) (ds ++ after) []))
                   (wordAfter (MState (lastOr None before) (ds ++ after) [])) = true).
  { unfold wordBefore, wordAfter. cbn [prev rest].
    unfold endsWithWord, isWord in Hb. rewrite Hb.
    destruct ds as [|c ds]; [congruence|]. cbn [append every] in *.
    apply andb_true_iff in Hds. destruct Hds as [Hc _].
    now rewrite (digit_is_word c Hc). }
  rewrite B. apply quant_complete; trivial; [exact I|].
  unfold afterDigits. cbn [rest prev caps].
  unfold wordBefore, wordAfter. cbn [prev rest].
  destruct (lastOr_digits (lastOr None before) ds Hds Hne) as (c & -> & Hc).
  rewrite (digit_is_word c Hc). unfold startsWithWord in Ha. rewrite Ha.
  discriminate.
Qed.

Lemma group_single (i : nat) (ds : string) (m : found) :
  groups m = [(i, ds)] -> group i m = ds.
Proof.
  intros H. unfold group. rewrite H. cbn [find fst snd]. now rewrite Nat.eqb_refl.
Qed.

End ExtractOSFacts.

Lemma exec_osPattern_sound (filename : string) (m : found) :
  exec osPattern filename = Some m -> jobNumberIn filename (group 1 m).
Proof.
  intros H. apply searchFrom_sound in H.
  destruct H as (before & s' & st & -> & Hrun & Hg & _).
  destruct (osPattern_sound _ _ _ Hrun)
    as (ds & after & -> & Hc & _ & Hds & Nds & Hb & Ha).
  rewrite (group_single 1 ds m) by congruence.
  now exists before, after.
Qed.

Lemma extractOS_sound (filename : string) :
  extractOS filename = "" \/ jobNumberIn filename (extractOS filename).
Proof.
  unfold extractOS. destruct (String.eqb filename ""); [now left|].
  destruct (exec osPattern filename) as [m|] eqn:Hexec; [right|now left].
  now apply exec_osPattern_sound.
Qed.

(** [extractOS] returns the empty string or a job number of the name: a
    run of at least four digits with no word character of JavaScript's
    [\w], that is no letter of [a-z] or [A-Z], no digit and no
    underscore, right before or after it.  It finds one exactly when the
    name has one.  Any other character may touch the run, an accented
    letter included. *)
Theorem extractOS_job_number (filename : string) :
  (extractOS filename = "" \/ jobNumberIn filename (extractOS filename))
  /\ (extractOS filename <> "" <-> exists ds, jobNumberIn filename ds).
Proof.
  assert (Sound : forall m, exec osPattern filename = Some m ->
                            jobNumberIn filename (group 1 m))
    by apply exec_osPattern_sound.
  assert (Long : forall ds, jobNumberIn filename ds -> ds <> "").
  { intros ds (before & after & _ & _ & N & _) ->. simpl in N. lia. }
  unfold extractOS. destruct (String.eqb_spec filename "") as [->|Hne].
  - split; [now left|]. split; [congruence|].
    intros (ds & before & after & E & _ & N & _).
    destruct before; [|discriminate]. destruct ds; [simpl in N; lia|discriminate].
  - destruct (exec osPattern filename) as [m|] eqn:Hexec.
    + split; [right; now apply Sound|].
      split; [intros _; exists (group 1 m); now apply Sound|].
      intros _. apply Long. now apply Sound.
    + split; [now left|]. split; [congruence|].
      intros (ds & before & after & -> & Hds & Nds & Hb & Ha). exfalso.
      apply (searchFrom_complete osPattern before (ds ++ after) 0%nat None);
        [now apply osPattern_complete|exact Hexec].
Qed.

(** An accented letter next to the digits does not hide the job number;
    a plain letter does. *)
Example extractOS_accented_letter :
  extractOS ("caf" ++ Str.chr 233 ++ "1234" ++ Str.chr 233 ++ ".pdf") = "1234"
  /\ extractOS "cafe1234.pdf" = "".
Proof. split; vm_compute; reflexivity. Qed.


(* ================================================================== *)
(** * Heuristic extractor: names without digits, letter case, bounds *)
(* ================================================================== *)

Definition notDigit (c : ascii) : bool := negb (Str.isDigit c).

Section ExtractorFacts.

Lemma no_digit_inside (before ds after : string) :
  every notDigit (before ++ ds ++ after) = true ->
  every Str.isDigit ds = true -> ds = "".
Proof.
  rewrite !every_append. intros H Hds.
  apply andb_true_iff in H. destruct H as [_ H].
  apply andb_true_iff in H. destruct H as [H _].
  destruct ds as [|c ds]; [reflexivity|]. cbn [every] in *.
  apply andb_true_iff in H. destruct H as [H _].
  apply andb_true_iff in Hds. destruct Hds as [Hds _].
  unfold notDigit in H. rewrite Hds in H. discriminate.
Qed.

(** The size pattern starts with a run of digits. *)
Lemma run_sizePattern (pv : option ascii) (s : string) :
  exists k, run sizePattern (MState pv s []) Some
            = quant Str.isDigit 1 None pv s [] k.
Proof. eexists. reflexivity. Qed.

Lemma lowerChar_idempotent (c : ascii) :
  Str.lowerChar (Str.lowerChar c) = Str.lowerChar c.
Proof. destruct c as [[] [] [] [] [] [] [] []]; reflexivity. Qed.

Lemma toLowerCase_idempotent (s : string) :
  Str.toLowerCase (Str.toLowerCase s) = Str.toLowerCase s.
Proof.
  induction s as [|c s IH]; simpl; [reflexivity|].
  now rewrite lowerChar_idempotent, IH.
Qed.

Lemma toLowerCase_empty (s : string) : Str.toLowerCase s = "" <-> s = "".
Proof. destruct s; simpl; split; intros; congruence. Qed.

Lemma detectColors_of_lower (filename : string) :
  detectColors filename
  = if String.eqb filename "" then {| detected_colors := []; gameCount := 1 |}
    else {| detected_colors := map name (matching (Str.toLowerCase filename));
            gameCount := Z.max 1 (sumGames (matching (Str.toLowerCase filename))) |}.
Proof.
  unfold detectColors. destruct (String.eqb filename ""); [reflexivity|].
  rewrite detect_loop. cbn [app Z.add]. fold (matching (Str.toLowerCase filename)).
  now rewrite length_zero_nil.
Qed.

Lemma gameCount_bounds (fileName : string) :
  1 <= gameCount (detectColors fileName) <= 10.
Proof.
  rewrite detectColors_of_lower.
  destruct (String.eqb fileName ""); [cbn; lia|].
  cbn [gameCount]. unfold matching, patterns.
  generalize (Str.toLowerCase fileName) as lower. intros lower.
  cbn [filter regex_of].
  repeat match goal with
         | |- context [if test ?r lower then _ else _] =>
             destruct (test r lower)
         end;
    cbn; lia.
Qed.

End ExtractorFacts.

(** A name without any digit has neither a job number nor dimensions. *)
Theorem no_digit_no_number (filename : string) :
  every notDigit filename = true ->
  extractOS filename = "" /\ extractDimensions filename = None.
Proof.
  intros H. split.
  - destruct (extractOS_sound filename)
      as [E|(before & after & E & Hds & N & _)]; [exact E|].
    rewrite E in H at 1. now apply (no_digit_inside _ _ _ H).
  - unfold extractDimensions. destruct (String.eqb filename ""); [reflexivity|].
    destruct (exec sizePattern filename) as [m|] eqn:Hexec; [exfalso|reflexivity].
    apply searchFrom_sound in Hexec.
    destruct Hexec as (before & s' & st & -> & Hrun & _).
    destruct (run_sizePattern (lastOr None before) s') as [k Hk].
    rewrite Hk in Hrun.
    destruct (quant_sound _ _ _ _ _ _ _ _ Hrun) as (a & b & -> & Ha & Na & _).
    rewrite (no_digit_inside before a b H Ha) in Na. simpl in Na. lia.
Qed.

Lemma no_digit_no_number_witness :
  every notDigit "capa CMYK.pdf" = true
  /\ extractOS "capa CMYK.pdf" = ""
  /\ extractDimensions "capa CMYK.pdf" = None.
Proof.
  assert (H : every notDigit "capa CMYK.pdf" = true) by reflexivity.
  split; [exact H|]. exact (no_digit_no_number "capa CMYK.pdf" H).
Defined.

(** Colour detection ignores letter case: two names that differ only in
    the case of their letters get the same tags and the same count. *)
Theorem detectColors_ignores_case (f g : string) :
  Str.toLowerCase f = Str.toLowerCase g -> detectColors f = detectColors g.
Proof.
  intros E. rewrite !detectColors_of_lower, E.
  destruct (String.eqb_spec f "") as [->|Hf], (String.eqb_spec g "") as [->|Hg];
    try reflexivity.
  symmetry in E. apply (proj1 (toLowerCase_empty g)) in E. contradiction.
Qed.

Lemma detectColors_ignores_case_witness :
  detectColors "Capa CMYK 485C.PDF" = detectColors "capa cmyk 485c.pdf"
  /\ detected_colors (detectColors "capa cmyk 485c.pdf") = ["CMYK"; "PANTONE"].
Proof.
  split; [|vm_compute; reflexivity].
  apply detectColors_ignores_case. vm_compute. reflexivity.
Defined.

(** The tags come without repetition and in table order, and they fix
    the count: one game per tag, and three more when CMYK is among them;
    so the count lies between 1 and 10. *)
Theorem detectColors_count_from_tags (filename : string) :
  let r := detectColors filename in
  NoDup (detected_colors r)
  /\ gameCount r
     = Z.max 1 (Z.of_nat (List.length (detected_colors r))
                + (if existsb (String.eqb "CMYK") (detected_colors r) then 3 else 0))
  /\ 1 <= gameCount r <= 10.
Proof.
  cbn zeta. rewrite detectColors_of_lower.
  destruct (String.eqb filename "").
  - cbn. repeat split; try lia. constructor.
  - cbn [detected_colors gameCount]. unfold matching, patterns.
    generalize (Str.toLowerCase filename) as lower. intros lower.
    cbn [filter regex_of].
    repeat match goal with
           | |- context [if test ?r lower then _ else _] =>
               destruct (test r lower)
           end;
      cbn; (split; [repeat constructor; cbn; intuition discriminate|split; lia]).
Qed.


(* ================================================================== *)

(** * Batch partitioner: the budget *)
(* ================================================================== *)

(** A batch that keeps to the budget, or holds one record only. *)
Definition withinBudget (budget : nat) (l : list OrderItem) : Prop :=
  List.length l = 1%nat \/ (sumSizes l <= budget)%nat.

Section BudgetFacts.

Lemma sumSizes_app_list (l1 l2 : list OrderItem) :
  sumSizes (l1 ++ l2) = (sumSizes l1 + sumSizes l2)%nat.
Proof.
  unfold sumSizes. induction l1 as [|y l IH]; cbn [app map fold_right]; [lia|].
  rewrite IH. lia.
Qed.

Lemma greedy_budget (budget : nat) (items cur : list OrderItem) :
  cur = [] \/ withinBudget budget cur ->
  Forall (withinBudget budget) (greedyBatches budget cur (sumSizes cur) items).
Proof.
  revert cur. induction items as [|x items IH]; intros cur Hcur.
  - destruct cur; constructor; [|constructor].
    destruct Hcur as [E|H]; [discriminate|exact H].
  - cbn [greedyBatches]. destruct cur as [|c cur].
    + rewrite andb_false_r, <- sumSizes_app. apply IH. right. now left.
    + destruct (Nat.ltb_spec budget (sumSizes (c :: cur) + itemSize x)) as [Hbig|Hfit];
        cbn [andb].
      * constructor; [destruct Hcur as [E|H]; [discriminate|exact H]|].
        replace (itemSize x) with (sumSizes [x])
          by (unfold sumSizes; cbn [map fold_right]; lia).
        apply IH. right. now left.
      * rewrite <- sumSizes_app. apply IH. right. right.
        rewrite sumSizes_app. exact Hfit.
Qed.

(** The first batch starts with the records already accumulated. *)
Lemma greedy_head (budget : nat) (items cur : list OrderItem) (size : nat) :
  cur <> [] ->
  exists more tail, greedyBatches budget cur size items = (cur ++ more)%list :: tail.
Proof.
  revert cur size. induction items as [|x items IH]; intros cur size Hne.
  - destruct cur; [congruence|]. exists [], []. now rewrite app_nil_r.
  - cbn [greedyBatches].
    destruct ((budget <? size + itemSize x)%nat
              && match cur with [] => false | _ :: _ => true end).
    + exists [], (greedyBatches budget [x] (itemSize x) items). now rewrite app_nil_r.
    + destruct (IH (cur ++ [x])%list (size + itemSize x)%nat) as (more & tail & E).
      { destruct cur; discriminate. }
      exists (x :: more), tail. now rewrite E, <- app_assoc.
Qed.

(** Two batches in a row: the first record of the second did not fit
    into the first. *)
Lemma greedy_maximal (budget : nat) (items : list OrderItem) :
  forall (cur : list OrderItem) (pre : list (list OrderItem))
         (b1 b2 : list OrderItem) (post : list (list OrderItem)),
    greedyBatches budget cur (sumSizes cur) items = (pre ++ b1 :: b2 :: post)%list ->
    exists x rest,
      b2 = x :: rest /\ (budget < sumSizes b1 + itemSize x)%nat.
Proof.
  induction items as [|x items IH]; intros cur pre b1 b2 post E.
  - cbn [greedyBatches] in E. destruct cur; destruct pre as [|p [|q pre]];
      cbn [app] in E; discriminate.
  - cbn [greedyBatches] in E. destruct cur as [|c cur].
    + rewrite andb_false_r, <- sumSizes_app in E. now apply (IH _ _ _ _ _ E).
    + destruct (Nat.ltb_spec budget (sumSizes (c :: cur) + itemSize x)) as [Hbig|Hfit];
        cbn [andb] in E.
      * destruct pre as [|p pre]; cbn [app] in E.
        -- injection E as <- E.
           destruct (greedy_head budget items [x] (itemSize x)) as (more & tail & G);
             [discriminate|].
           rewrite G in E. injection E as <- _.
           exists x, more. split; [reflexivity|exact Hbig].
        -- injection E as _ E.
           replace (itemSize x) with (sumSizes [x]) in E
             by (unfold sumSizes; cbn [map fold_right]; lia).
           now apply (IH _ _ _ _ _ E).
      * rewrite <- sumSizes_app in E. now apply (IH _ _ _ _ _ E).
Qed.

(** Records that fit the budget together stay together. *)
Lemma greedy_single (budget : nat) (items cur : list OrderItem) :
  (sumSizes cur + sumSizes items <= budget)%nat ->
  (cur ++ items)%list <> [] ->
  greedyBatches budget cur (sumSizes cur) items = [(cur ++ items)%list].
Proof.
  revert cur. induction items as [|x items IH]; intros cur Hfit Hne.
  - rewrite app_nil_r in *. destruct cur; [congruence|reflexivity].
  - cbn [greedyBatches].
    assert (Hx : (budget <? sumSizes cur + itemSize x)%nat = false).
    { apply Nat.ltb_ge. unfold sumSizes in Hfit at 2. cbn [map fold_right] in Hfit.
      lia. }
    rewrite Hx. cbn [andb]. rewrite <- sumSizes_app, IH.
    + now rewrite <- app_assoc.
    + rewrite sumSizes_app. unfold sumSizes in Hfit at 2.
      cbn [map fold_right] in Hfit. fold (sumSizes items) in Hfit. lia.
    + destruct cur; discriminate.
Qed.

Lemma greedy_count (budget : nat) (items cur : list OrderItem) (size : nat) :
  (List.length (greedyBatches budget cur size items)
   <= List.length items + match cur with [] => 0 | _ :: _ => 1 end)%nat.
Proof.
  revert cur size. induction items as [|x items IH]; intros cur size.
  - destruct cur; cbn [greedyBatches List.length]; lia.
  - cbn [greedyBatches]. destruct cur as [|c cur].
    + rewrite andb_false_r. specialize (IH [x] (size + itemSize x)%nat).
      cbn [app List.length] in *. lia.
    + destruct (budget <? size + itemSize x)%nat; cbn [andb].
      * specialize (IH [x] (itemSize x)). cbn [List.length] in *. lia.
      * specialize (IH ((c :: cur) ++ [x])%list (size + itemSize x)%nat).
        cbn [app List.length] in *. lia.
Qed.

Lemma split_totals (items : list OrderItem) :
  Forall (fun b => totalBatches b = List.length (splitIntoEmailBatches items))
         (splitIntoEmailBatches items).
Proof.
  unfold splitIntoEmailBatches. rewrite length_map.
  apply Forall_forall. intros b Hb. apply in_map_iff in Hb.
  destruct Hb as (b0 & <- & _). reflexivity.
Qed.

Lemma split_concat (items : list OrderItem) :
  List.concat (map batch_of (splitIntoEmailBatches items)) = items.
Proof. now rewrite split_batches, greedy_concat. Qed.

End BudgetFacts.

(** Every batch keeps to the budget of 4000 bytes unless it holds a
    single record, and a batch is closed only when it has to be: the
    first record of the next batch would have taken it over the budget. *)
Theorem split_keeps_budget (items : list OrderItem) :
  Forall (fun b => withinBudget MAX_EMAIL_SIZE_BYTES (batch_of b))
         (splitIntoEmailBatches items)
  /\ (forall pre b1 b2 post,
         splitIntoEmailBatches items = (pre ++ b1 :: b2 :: post)%list ->
         exists x rest,
           batch_of b2 = x :: rest
           /\ (MAX_EMAIL_SIZE_BYTES < sumSizes (batch_of b1) + itemSize x)%nat).
Proof.
  split.
  - pose proof (greedy_budget MAX_EMAIL_SIZE_BYTES items [] (or_introl eq_refl)) as H.
    change (sumSizes []) with 0%nat in H. rewrite <- split_batches in H.
    now rewrite Forall_map in H.
  - intros pre b1 b2 post E.
    apply (greedy_maximal MAX_EMAIL_SIZE_BYTES items [] (map batch_of pre)
                          (batch_of b1) (batch_of b2) (map batch_of post)).
    change (sumSizes []) with 0%nat. rewrite <- split_batches, E, map_app.
    reflexivity.
Qed.

(** The empty list gives no batch and only the empty list does; there
    are never more batches than records; and records whose sizes add up
    to at most 4000 bytes travel in one batch, numbered 1 of 1. *)
Theorem split_small_input (items : list OrderItem) :
  (splitIntoEmailBatches items = [] <-> items = [])
  /\ (List.length (splitIntoEmailBatches items) <= List.length items)%nat
  /\ (items <> [] -> (sumSizes items <= MAX_EMAIL_SIZE_BYTES)%nat ->
      splitIntoEmailBatches items
      = [ {| batch_of := items; batchNumber := 1; totalBatches := 1 |} ]).
Proof.
  split; [|split].
  - split.
    + intros E. pose proof (split_concat items) as C.
      rewrite E in C. simpl in C. congruence.
    + intros ->. reflexivity.
  - rewrite <- (length_map batch_of), split_batches.
    pose proof (greedy_count MAX_EMAIL_SIZE_BYTES items [] 0) as H.
    cbv beta iota in H. lia.
  - intros Hne Hfit.
    pose proof (greedy_single MAX_EMAIL_SIZE_BYTES items [] Hfit Hne) as G.
    change (sumSizes []) with 0%nat in G. rewrite <- split_batches in G.
    pose proof (split_numbers items) as N.
    pose proof (split_totals items) as Tot.
    destruct (splitIntoEmailBatches items) as [|b [|b' l]]; try discriminate.
    cbn [map app] in G. injection G as G.
    cbn [map List.length seq] in N. injection N as N.
    inversion Tot as [|? ? Tb _]; subst. cbn [List.length] in Tb.
    destruct b as [bi bn bt]. cbn in *. now subst.
Qed.


(* ================================================================== *)
(** * emailService.ts: [formatEmailMessage], [sendBatchNotification]

    [emailjs.send] is the transport the service does not own: a function
    from the request to its outcome, [None] when the promise resolves and
    [Some message] when it rejects.  Next to its result the embedding
    returns the requests handed to the transport, in order.  The optional
    [onProgress] callback is code of the caller, as in [importPdfsToItems]. *)
(* ================================================================== *)

Record EmailSettings : Type := {
  serviceId : string;
  templateId : string;
  publicKey : string;
  targetEmail : string;
  enabled : bool
}.

(** The arguments of one [emailjs.send] call. *)
Record SendRequest : Type := {
  req_serviceId : string;
  req_templateId : string;
  to_email : string;
  message : string;
  subject : string;
  req_publicKey : string
}.

(** [{ success, sent, failed, errors }]; [send_success] and [send_errors]
    are the fields [success] and [errors]. *)
Record SendResult : Type := {
  send_success : bool;
  sent : nat;
  failed : nat;
  send_errors : list string
}.

Definition newline : string := Str.chr 10.

(** [batch.items.map((item, idx) => formatItemForEmail(item, idx + 1))] *)
Fixpoint formatLines (idx : nat) (items : list OrderItem) : list string :=
  match items with
  | [] => []
  | item :: rest => formatItemForEmail item (idx + 1) :: formatLines (S idx) rest
  end.

Definition formatEmailMessage (batch : EmailBatch) : string :=
  let header :=
    "Batch " ++ Str.ofNat (batchNumber batch) ++ "/" ++ Str.ofNat (totalBatches batch)
    ++ " - " ++ Str.ofNat (List.length (batch_of batch)) ++ " itens" ++ newline
    ++ Str.repeat "=" 60 ++ newline ++ newline in
  let items := Str.join newline (formatLines 0 (batch_of batch)) in
  header ++ items.

Definition invalidEmail : string := "Email inv" ++ Str.chr 225 ++ "lido: ".
Definition incompleteSettings : string :=
  "Configura" ++ Str.chr 231 ++ Str.chr 245 ++ "es de email incompletas".
Definition batchSubject : string :=
  "FlexCell: Importa" ++ Str.chr 231 ++ Str.chr 227 ++ "o em Lote - Batch ".

Definition requestFor (settings : EmailSettings) (batch : EmailBatch) : SendRequest :=
  {| req_serviceId := serviceId settings;
     req_templateId := templateId settings;
     to_email := targetEmail settings;
     message := formatEmailMessage batch;
     subject := batchSubject ++ Str.ofNat (batchNumber batch) ++ "/"
                ++ Str.ofNat (totalBatches batch);
     req_publicKey := publicKey settings |}.

(** [`Batch ${batch.batchNumber}: ${errorMessage}`] *)
Definition batchError (batch : EmailBatch) (errorMessage : string) : string :=
  "Batch " ++ Str.ofNat (batchNumber batch) ++ ": " ++ errorMessage.

(** The [catch] of the loop over the batches. *)
Definition batchFailed (result : SendResult) (batch : EmailBatch)
           (errorMessage : string) : SendResult :=
  {| send_success := false;
     sent := sent result;
     failed := failed result + List.length (batch_of batch);
     send_errors := (send_errors result ++ [batchError batch errorMessage])%list |}.

(** [result.sent += batch.items.length] *)
Definition batchSent (result : SendResult) (batch : EmailBatch) : SendResult :=
  {| send_success := send_success result;
     sent := sent result + List.length (batch_of batch);
     failed := failed result;
     send_errors := send_errors result |}.

(** The body of the [for ... of batches] loop, with its [try]/[catch]:
    the callback is called inside the [try], after the batch has been
    counted as sent. *)
Definition sendStep (send : SendRequest -> option string) (onProgress : Progress)
           (settings : EmailSettings) (total : nat) (batch : EmailBatch)
           (acc : SendResult * list SendRequest)
  : M (SendResult * list SendRequest) :=
  let request := requestFor settings batch in
  let trace := (snd acc ++ [request])%list in
  match send request with
  | Some errorMessage =>
      _ <- logError ;;
      ret (batchFailed (fst acc) batch errorMessage, trace)
  | None =>
      _ <- logInfo ;;
      called <- callProgress onProgress (batchNumber batch) total ;;
      match called with
      | Ok _ => ret (batchSent (fst acc) batch, trace)
      | Throw errorMessage =>
          _ <- logError ;;
          ret (batchFailed (batchSent (fst acc) batch) batch errorMessage, trace)
      end
  end.

Definition settingsComplete (settings : EmailSettings) : bool :=
  negb (String.eqb (serviceId settings) "" || String.eqb (templateId settings) ""
        || String.eqb (publicKey settings) "").

Definition sendBatchNotification (send : SendRequest -> option string)
           (onProgress : Progress) (items : list OrderItem)
           (settings : EmailSettings)
  : M (SendResult * list SendRequest) :=
  let result := {| send_success := true; sent := 0; failed := 0; send_errors := [] |} in
  if negb (enabled settings) then
    _ <- logInfo ;;
    ret (result, [])
  else if negb (validateEmail (targetEmail settings)) then
    _ <- logError ;;
    ret ({| send_success := false; sent := 0; failed := 0;
            send_errors := [invalidEmail ++ targetEmail settings] |}, [])
  else if negb (settingsComplete settings) then
    _ <- logError ;;
    ret ({| send_success := false; sent := 0; failed := 0;
            send_errors := [incompleteSettings] |}, [])
  else if (List.length items =? 0)%nat then
    _ <- logInfo ;;
    ret (result, [])
  else
    let batches := splitIntoEmailBatches items in
    _ <- logInfo ;;
    foldM (sendStep send onProgress settings (List.length batches)) batches
          (result, []).

(** The notification goes out: it is enabled, the address is valid and
    the three EmailJS settings are there. *)
Definition goesOut (settings : EmailSettings) : bool :=
  enabled settings && validateEmail (targetEmail settings) && settingsComplete settings.

(** The batches the transport rejects. *)
Definition rejected (send : SendRequest -> option string) (settings : EmailSettings)
           (bs : list EmailBatch) : list EmailBatch :=
  filter (fun b => match send (requestFor settings b) with
                   | Some _ => true
                   | None => false
                   end) bs.

Definition totalItems (bs : list EmailBatch) : nat :=
  fold_right Nat.add 0%nat (map (fun b => List.length (batch_of b)) bs).

(** The batches the transport accepts. *)
Definition delivered (send : SendRequest -> option string) (settings : EmailSettings)
           (bs : list EmailBatch) : list EmailBatch :=
  filter (fun b => match send (requestFor settings b) with
                   | Some _ => false
                   | None => true
                   end) bs.

Section SendFacts.

Variable send : SendRequest -> option string.
Variable onProgress : Progress.
Variable settings : EmailSettings.
Variable total : nat.

Lemma totalItems_cons (b : EmailBatch) (bs : list EmailBatch) :
  totalItems (b :: bs) = (List.length (batch_of b) + totalItems bs)%nat.
Proof. reflexivity. Qed.

(** One batch: the request is made; the batch is counted as sent when
    the transport accepts it, and as failed when the transport rejects it
    or the callback throws. *)
Lemma sendStep_cases (b : EmailBatch) (r : SendResult) (tr : list SendRequest)
      (w : World) :
  let out := fst (sendStep send onProgress settings total b (r, tr) w) in
  snd out = (tr ++ [requestFor settings b])%list
  /\ (match send (requestFor settings b) with
      | Some msg => fst out = batchFailed r b msg
      | None =>
          fst out = batchSent r b
          \/ exists msg, fst out = batchFailed (batchSent r b) b msg
      end)
  /\ (returnsNormally onProgress ->
      send (requestFor settings b) = None -> fst out = batchSent r b).
Proof.
  cbn zeta. unfold sendStep. cbn [fst snd].
  destruct (send (requestFor settings b)) as [msg|].
  - rewrite bind_run. cbn [ret fst snd]. split; [reflexivity|].
    split; [reflexivity|discriminate].
  - rewrite !bind_run.
    destruct (callProgress onProgress (batchNumber b) total (snd (logInfo w)))
      as [[[]|msg] w'] eqn:C; cbn [fst snd].
    + cbn [ret fst snd]. split; [reflexivity|]. split; [now left|reflexivity].
    + rewrite bind_run. cbn [ret fst snd]. split; [reflexivity|].
      split; [right; now exists msg|].
      intros Hn _. destruct (Hn (batchNumber b) total (snd (logInfo w))) as [w'' E].
      rewrite E in C. discriminate.
Qed.

Lemma send_loop (bs : list EmailBatch) :
  forall (r : SendResult) (tr : list SendRequest) (w : World),
    let out := fst (foldM (sendStep send onProgress settings total) bs (r, tr) w) in
    snd out = (tr ++ map (requestFor settings) bs)%list
    /\ sent (fst out) = (sent r + totalItems (delivered send settings bs))%nat
    /\ (failed r + totalItems (rejected send settings bs) <= failed (fst out))%nat
    /\ (send_success r = (List.length (send_errors r) =? 0)%nat ->
        send_success (fst out) = (List.length (send_errors (fst out)) =? 0)%nat)
    /\ (returnsNormally onProgress ->
        failed (fst out) = (failed r + totalItems (rejected send settings bs))%nat
        /\ List.length (send_errors (fst out))
           = (List.length (send_errors r)
              + List.length (rejected send settings bs))%nat).
Proof.
  induction bs as [|b bs IH]; intros r tr w; cbn zeta.
  - cbn. rewrite app_nil_r. repeat split; try lia. auto.
  - cbn [foldM]. rewrite bind_run.
    destruct (sendStep_cases b r tr w) as (S1 & S2 & S3). cbn zeta in *.
    destruct (sendStep send onProgress settings total b (r, tr) w) as [[r1 tr1] w1].
    cbn [fst snd] in *. subst tr1.
    destruct (IH r1 (tr ++ [requestFor settings b])%list w1)
      as (I1 & I2 & I3 & I4 & I5). cbn zeta in *. clear IH.
    unfold delivered, rejected in *. cbn [filter map].
    rewrite I1, I2, <- app_assoc. cbn [app].
    destruct (send (requestFor settings b)) as [msg|] eqn:Hs.
    + subst r1. cbn [batchFailed sent failed send_errors send_success] in *.
      rewrite totalItems_cons. split; [reflexivity|]. split; [reflexivity|].
      split; [lia|]. split.
      * intros _. apply I4. rewrite length_app. cbn. now rewrite Nat.add_1_r.
      * intros Hn. destruct (I5 Hn) as [J1 J2]. rewrite J1, J2, length_app.
        cbn [List.length]. split; lia.
    + rewrite totalItems_cons. split; [reflexivity|].
      destruct S2 as [->|[msg ->]];
        cbn [batchFailed batchSent sent failed send_errors send_success] in *.
      * split; [lia|]. split; [lia|]. split; [exact I4|exact I5].
      * split; [lia|]. split; [lia|]. split.
        -- intros _. apply I4. rewrite length_app. cbn. now rewrite Nat.add_1_r.
        -- intros Hn. specialize (S3 Hn eq_refl). exfalso.
           apply (f_equal (fun x => List.length (send_errors x))) in S3.
           cbn [batchFailed batchSent send_errors] in S3.
           rewrite length_app in S3. cbn [List.length] in S3. lia.
Qed.



End SendFacts.



Definition sampleSettings : EmailSettings := {|
  serviceId := "service_1"; templateId := "template_1"; publicKey := "key";
  targetEmail := "ops@flexcell.com.br"; enabled := true
|}.




(** The callback is called inside the [try], after the batch has been
    counted as sent: when it throws, the batch is counted as failed as
    well, and one delivered item appears as one sent and one failed. *)
Lemma sendBatchNotification_callback_throws :
  let out := fst (sendBatchNotification (fun _ => None) throwingProgress
                                        [firstInitialItem] sampleSettings
                                        sampleWorld) in
  List.length (snd out) = 1%nat
  /\ sent (fst out) = 1%nat
  /\ failed (fst out) = 1%nat
  /\ send_errors (fst out) = ["Batch 1: callback failed"]
  /\ send_success (fst out) = false.
Proof. repeat split; vm_compute; reflexivity. Qed.

(** * utils.ts: [migrateHistoryBatch]; App.tsx: the initial items *)
(* ================================================================== *)

(** [arr.map(item => { try { return migrateOrderItem(item) } catch { return
    null } }).filter(item => item !== null)] *)
Fixpoint migrateAll (elems : list JsValue) : M (list OrderItem) :=
  match elems with
  | [] => ret []
  | e :: rest =>
      migrated <- migrateOrderItem e ;;
      match migrated with
      | Ok i =>
          others <- migrateAll rest ;;
          ret (i :: others)
      | Throw _ =>
          _ <- logWarn ;;
          migrateAll rest
      end
  end.

(** The own enumerable properties that [{...v}] copies. *)
Definition ownProps (v : JsValue) : list (string * JsValue) :=
  match v with
  | JObj props => props
  | JArr elems => combine (map Str.ofNat (seq 0 (List.length elems))) elems
  | _ => []
  end.

(** [{...props, k: v}]: the property is overwritten in place, or added
    at the end. *)
Fixpoint setProp (k : string) (v : JsValue) (props : list (string * JsValue))
  : list (string * JsValue) :=
  match props with
  | [] => [(k, v)]
  | (k', v') :: rest =>
      if String.eqb k k' then (k, v) :: rest else (k', v') :: setProp k v rest
  end.

Definition isArray (v : JsValue) : bool :=
  match v with JArr _ => true | _ => false end.

(** The message of the TypeError raised by calling [.map] on a value
    that has none. *)
Definition mapIsNotAFunction : string :=
  "(batch.items || []).map is not a function".

Definition migrateHistoryBatch (batch : JsValue) : M (Result JsValue) :=
  if negb (truthy batch) || negb (typeofObject batch) then
    ret (Throw "Invalid history batch")
  else
    match or (get batch "items") (JArr []) with
    | JArr elems =>
        migrated <- migrateAll elems ;;
        ret (Ok (JObj (setProp "items" (JArr (map toObject migrated)) (ownProps batch))))
    | _ => ret (Throw mapIsNotAFunction)
    end.

Definition secondInitialItem : OrderItem := {|
  id := JStr "2"; os := "4777"; clientDescription := "16293 - SIF";
  colors := "Pantone 485C"; jobType := JStr Novo; date := JStr "2023-11-27";
  width := 18; height := 24; games := 1; pricePerCm2 := DEFAULT_RATE;
  observations := ""
|}.

Definition thirdInitialItem : OrderItem := {|
  id := JStr "3"; os := "4578"; clientDescription := "69853 - Pinheirense";
  colors := "Black"; jobType := JStr Novo; date := JStr "2023-11-25";
  width := 18; height := 24; games := 1; pricePerCm2 := DEFAULT_RATE;
  observations := ""
|}.

Definition INITIAL_DATA : list OrderItem :=
  [firstInitialItem; secondInitialItem; thirdInitialItem].

(** The initial value of the [items] state, from what [loadFromStorage]
    returned for the storage key. *)
Definition initialItems (saved : JsValue) : M (list OrderItem) :=
  match get saved "items" with
  | JArr elems => migrateAll elems
  | _ => ret INITIAL_DATA
  end.

(** An entry that [migrateOrderItem] accepts: an object whose properties
    can be converted. *)
Definition migrates (e : JsValue) : bool := isObject e && convertibleFields e.

(** The item [i] is the migration of the entry [e] in a run that starts
    in the world [w]: each field comes from the same-named property of
    [e] as [migratedField] says, a missing id being drawn from the random
    source and a missing date read from the clock at some later point of
    the run. *)
Definition migratedFrom (w : World) (e : JsValue) (i : OrderItem) : Prop :=
  exists r c : nat,
    forall k : string,
      get (toObject i) k = migratedField (advance r c w) k (get e k).

(** The entries of [batch.items || []]. *)
Definition entriesOf (batch : JsValue) : list JsValue :=
  match get batch "items" with JArr elems => elems | _ => [] end.

(** A batch that [migrateHistoryBatch] accepts. *)
Definition migratable (batch : JsValue) : bool :=
  isObject batch
  && (negb (truthy (get batch "items")) || isArray (get batch "items")).

(** The value [out] is the migration of the batch [b]: the batch with its
    [items] replaced by the migrated entries, one for each entry that
    [migrateOrderItem] accepts, in order. *)
Definition batchMigratedFrom (w : World) (b out : JsValue) : Prop :=
  exists migrated : list OrderItem,
    out = JObj (setProp "items" (JArr (map toObject migrated)) (ownProps b))
    /\ Forall2 (migratedFrom w) (filter migrates (entriesOf b)) migrated.

Section MigrateAllFacts.

Lemma migratedFrom_later (r c : nat) (w : World) (e : JsValue) (i : OrderItem) :
  migratedFrom (advance r c w) e i -> migratedFrom w e i.
Proof.
  intros (r' & c' & H). exists (r' + r)%nat, (c' + c)%nat.
  intros k. rewrite H, advance_advance. reflexivity.
Qed.

(** One entry: it gives an item when it is accepted, and nothing but a
    log line otherwise. *)
Lemma migrateOrderItem_cases (e : JsValue) (w : World) :
  exists r c,
    snd (migrateOrderItem e w) = advance r c w
    /\ (if migrates e
        then exists i, fst (migrateOrderItem e w) = Ok i /\ migratedFrom w e i
        else exists msg, fst (migrateOrderItem e w) = Throw msg).
Proof.
  unfold migrates. destruct (isObject e) eqn:Hobj; cbn [andb].
  - destruct (convertibleFields e) eqn:Hconv.
    + destruct (migrated_fields e w Hobj Hconv) as (i & E & Hk).
      rewrite E. eexists _, _. split; [reflexivity|].
      exists i. split; [reflexivity|]. exists 0%nat, 0%nat.
      now rewrite advance_0.
    + destruct (migrate_unconvertible e w Hobj Hconv) as (r & c & E).
      rewrite E. exists r, c. split; [reflexivity|]. now eexists.
  - rewrite (migrate_not_object e w Hobj). exists 0%nat, 0%nat.
    rewrite advance_0. split; [reflexivity|]. now eexists.
Qed.

(** The migrated items are the migrations of the accepted entries, in
    order; the run draws random numbers and reads the clock and does
    nothing else to the world. *)
Lemma migrateAll_spec (elems : list JsValue) :
  forall w,
    (exists r c, snd (migrateAll elems w) = advance r c w)
    /\ Forall2 (migratedFrom w) (filter migrates elems) (fst (migrateAll elems w)).
Proof.
  induction elems as [|e elems IH]; intros w.
  - split; [exists 0%nat, 0%nat; now rewrite advance_0|constructor].
  - cbn [migrateAll filter]. rewrite bind_run.
    destruct (migrateOrderItem_cases e w) as (r & c & Hw & Hr).
    destruct (migrateOrderItem e w) as [res w1]. cbn [fst snd] in *. subst w1.
    destruct (migrates e).
    + destruct Hr as (i & -> & Hi). rewrite bind_run. cbn [ret fst snd].
      destruct (IH (advance r c w)) as ((r' & c' & Hw') & Hall).
      split.
      * rewrite Hw', advance_advance. now eexists _, _.
      * constructor; [exact Hi|].
        eapply Forall2_impl; [|exact Hall].
        intros a b. apply migratedFrom_later.
    + destruct Hr as (msg & ->). rewrite bind_run. cbn [logWarn fst snd].
      rewrite tick_advance, advance_advance.
      destruct (IH (advance (0 + r) (1 + c) w)) as ((r' & c' & Hw') & Hall).
      split.
      * rewrite Hw', advance_advance. now eexists _, _.
      * eapply Forall2_impl; [|exact Hall].
        intros a b. apply migratedFrom_later.
Qed.

Lemma migrateAll_length (elems : list JsValue) (w : World) :
  List.length (fst (migrateAll elems w)) = count migrates elems.
Proof.
  unfold count. symmetry.
  exact (Forall2_length (proj2 (migrateAll_spec elems w))).
Qed.

Lemma lookup_setProp_same (k : string) (v : JsValue) (props : list (string * JsValue)) :
  lookup k (setProp k v props) = v.
Proof.
  induction props as [|[k' v'] props IH]; cbn [setProp lookup].
  - now rewrite String.eqb_refl.
  - destruct (String.eqb k k') eqn:E; cbn [lookup]; rewrite ?String.eqb_refl;
      [reflexivity|]. now rewrite E.
Qed.

Lemma lookup_setProp_other (k k0 : string) (v : JsValue)
      (props : list (string * JsValue)) :
  k0 <> k -> lookup k0 (setProp k v props) = lookup k0 props.
Proof.
  intros Hne. induction props as [|[k' v'] props IH]; cbn [setProp lookup].
  - destruct (String.eqb_spec k0 k); [contradiction|reflexivity].
  - destruct (String.eqb_spec k k') as [<-|Hk]; cbn [lookup].
    + destruct (String.eqb_spec k0 k); [contradiction|reflexivity].
    + now rewrite IH.
Qed.

(** What [migrateHistoryBatch] does with a batch. *)
Lemma migrateHistoryBatch_cases (batch : JsValue) (w : World) :
  (exists r c, snd (migrateHistoryBatch batch w) = advance r c w)
  /\ (if migratable batch
      then exists out, fst (migrateHistoryBatch batch w) = Ok out
                       /\ batchMigratedFrom w batch out
      else exists msg, fst (migrateHistoryBatch batch w) = Throw msg).
Proof.
  unfold migrateHistoryBatch, migratable, batchMigratedFrom, entriesOf.
  rewrite guard_isObject.
  destruct (isObject batch) eqn:Hobj; cbn [negb andb].
  2:{ split; [exists 0%nat, 0%nat; now rewrite advance_0|now eexists]. }
  assert (Hnone : (exists r c, w = advance r c w))
    by (exists 0%nat, 0%nat; now rewrite advance_0).
  assert (Hempty :
    (exists r c : nat, snd (bind (migrateAll []) (fun migrated =>
        ret (Ok (JObj (setProp "items" (JArr (map toObject migrated))
                               (ownProps batch))))) w) = advance r c w)
    /\ exists out,
         fst (bind (migrateAll []) (fun migrated =>
           ret (Ok (JObj (setProp "items" (JArr (map toObject migrated))
                                  (ownProps batch))))) w) = Ok out
         /\ exists migrated : list OrderItem,
              out = JObj (setProp "items" (JArr (map toObject migrated))
                                  (ownProps batch))
              /\ Forall2 (migratedFrom w) [] migrated).
  { split; [exact Hnone|]. eexists. split; [reflexivity|].
    exists []. split; [reflexivity|constructor]. }
  unfold or.
  destruct (get batch "items") as [| |b|x|s|elems|ps];
    cbn [truthy isArray negb orb]; try exact Hempty.
  - destruct b; cbn [negb]; [split; [exact Hnone|now eexists]|exact Hempty].
  - destruct (is_zero x || is_nan x); cbn [negb];
      [exact Hempty|split; [exact Hnone|now eexists]].
  - destruct (String.eqb s ""); cbn [negb];
      [exact Hempty|split; [exact Hnone|now eexists]].
  - rewrite bind_run. cbn [ret fst snd].
    destruct (migrateAll_spec elems w) as (Hw & Hall).
    split; [exact Hw|]. eexists. split; [reflexivity|].
    exists (fst (migrateAll elems w)). now split.
  - split; [exact Hnone|now eexists].
Qed.

End MigrateAllFacts.

(** [migrateHistoryBatch] throws exactly when the batch is not an object
    or its [items] is a truthy value that is not an array.  Otherwise it
    returns the batch with every other property as it was and with
    [items] replaced by the migrated entries: one for each entry that is
    an object whose properties can be converted, in order, each field
    computed from the same-named property of the entry; the other entries
    are dropped. *)
Theorem migrateHistoryBatch_keeps_objects (batch : JsValue) (w : World) :
  let items := get batch "items" in
  ((exists msg, fst (migrateHistoryBatch batch w) = Throw msg)
   <-> isObject batch = false \/ (truthy items = true /\ isArray items = false))
  /\ (forall out,
         fst (migrateHistoryBatch batch w) = Ok out ->
         exists migrated : list OrderItem,
           out = JObj (setProp "items" (JArr (map toObject migrated))
                               (ownProps batch))
           /\ Forall2 (migratedFrom w) (filter migrates (entriesOf batch)) migrated
           /\ List.length migrated = count migrates (entriesOf batch)
           /\ get out "items" = JArr (map toObject migrated)
           /\ (forall props k,
                  batch = JObj props -> k <> "items" -> get out k = get batch k)).
Proof.
  cbn zeta.
  destruct (migrateHistoryBatch_cases batch w) as (_ & H).
  assert (Hm : migratable batch = false
               <-> isObject batch = false
                   \/ (truthy (get batch "items") = true
                       /\ isArray (get batch "items") = false)).
  { unfold migratable. destruct (isObject batch); cbn [andb].
    - destruct (truthy (get batch "items")), (isArray (get batch "items"));
        cbn; intuition congruence.
    - intuition congruence. }
  destruct (migratable batch).
  - destruct H as (out & E & migrated & -> & Hall). rewrite E. split.
    + split; [intros [msg Hmsg]; discriminate|].
      intros Hc. apply Hm in Hc. discriminate.
    + intros out' [= <-]. exists migrated. split; [reflexivity|].
      split; [exact Hall|]. split.
      * unfold count. symmetry. exact (Forall2_length Hall).
      * split; [apply lookup_setProp_same|].
        intros props k -> Hk. cbn [get ownProps].
        now apply lookup_setProp_other.
  - destruct H as (msg & E). rewrite E. split.
    + split; [intros _; now apply Hm|intros _; now exists msg].
    + intros out [=].
Qed.

(** A stored batch with three entries: [null], an order, and an order
    whose [os] cannot be converted. *)
Definition sampleBatch : JsValue :=
  JObj [("id", JStr "b1");
        ("items", JArr [JNull; JObj [("os", JStr "4787")];
                        JObj [("os", JObj [("toString", JNum 1)])]])].

Lemma migrateHistoryBatch_keeps_objects_witness :
  exists migrated : list OrderItem,
    fst (migrateHistoryBatch sampleBatch sampleWorld)
    = Ok (JObj [("id", JStr "b1"); ("items", JArr (map toObject migrated))])
    /\ List.length migrated = 1%nat.
Proof.
  assert (E0 : exists out, fst (migrateHistoryBatch sampleBatch sampleWorld) = Ok out)
    by (vm_compute; eexists; reflexivity).
  destruct E0 as [out E0].
  destruct (proj2 (migrateHistoryBatch_keeps_objects sampleBatch sampleWorld) out E0)
    as (migrated & Eout & _ & Hlen & _).
  exists migrated. split; [now rewrite E0, Eout|exact Hlen].
Defined.

(* ================================================================== *)
(** * Ingestion orchestrator: what the items and the errors add up to *)
(* ================================================================== *)

(** What an imported item owes to the name of its file. *)
Record importedFrom (fileName : string) (i : OrderItem) : Prop := {
  imported_os : os i = extractOS fileName;
  imported_colors :
    colors i = Str.join ", " (detected_colors (detectColors fileName));
  imported_games : games i = Num.ofZ (gameCount (detectColors fileName));
  imported_jobType : jobType i = JStr Novo;
  imported_price : pricePerCm2 i = DEFAULT_RATE;
  imported_obs : observations i = obsFilename \/ observations i = obsGeometry;
  imported_typed : wellTyped i = true
}.

(** The pages of the PDF files whose document was opened. *)
Definition pagesOf (f : File) : nat :=
  if isPdfName (file_name f)
  then match getDocument f with
       | DocumentResolves pdf => numPages pdf
       | DocumentRejects _ => 0%nat
       end
  else 0%nat.

Definition totalPages (files : list File) : nat :=
  fold_right Nat.add 0%nat (map pagesOf files).

Section ImportItemFacts.

Lemma toString_or_empty (s : string) : text (or (JStr s) (JStr "")) = s.
Proof.
  unfold or. cbn [truthy]. destruct (String.eqb_spec s "") as [->|_]; reflexivity.
Qed.

Lemma games_of_count (g : Z) :
  1 <= g <= 10 -> gamesOf (JNum (Num.ofZ g)) = Num.ofZ g.
Proof.
  intros H.
  assert (C : g = 1 \/ g = 2 \/ g = 3 \/ g = 4 \/ g = 5 \/ g = 6 \/ g = 7
              \/ g = 8 \/ g = 9 \/ g = 10) by lia.
  repeat (destruct C as [->|C]; [vm_compute; reflexivity|]).
  subst g. vm_compute. reflexivity.
Qed.

(** A page of a file adds one error, or one item that carries what the
    name of the file says. *)
Lemma processPage_item (file : File) (pdf : PdfDocument) (page : PageOutcome)
      (n : nat) (r : PdfImportResult) (w : World) :
  (exists e, fst (processPage (contextOf file pdf) page n r w) = pushError e r)
  \/ (exists i, fst (processPage (contextOf file pdf) page n r w) = pushItem i r
                /\ importedFrom (file_name file) i).
Proof.
  unfold processPage. destruct page as [msg|vw vh].
  - left. eexists. reflexivity.
  - assert (Hobs : snd (finalDimensions (contextOf file pdf) vw vh) = obsFilename
                   \/ snd (finalDimensions (contextOf file pdf) vw vh) = obsGeometry).
    { unfold finalDimensions. destruct (dimsFromFilename _); [now left|now right]. }
    destruct (finalDimensions (contextOf file pdf) vw vh) as [[fw fh] obs].
    cbn [snd] in Hobs.
    destruct (valid (validateDimensions fw fh)); cbn [negb].
    + right. rewrite !bind_run. rewrite migrate_object by reflexivity.
      cbn [fst]. eexists. split; [reflexivity|].
      cbn [toObject get lookup String.eqb Ascii.eqb Bool.eqb id os clientDescription
           colors jobType date width height games pricePerCm2 observations
           contextOf fileOS colorDetection].
      constructor; cbn [os colors games jobType pricePerCm2 observations].
      * apply toString_or_empty.
      * apply toString_or_empty.
      * apply games_of_count, gameCount_bounds.
      * reflexivity.
      * vm_compute. reflexivity.
      * rewrite toString_or_empty. exact Hobs.
      * unfold wellTyped. cbn [id jobType date].
        match goal with
        | |- context [if ?a then _ else _] => destruct a
        end;
        match goal with
        | |- context [if ?a then _ else _] => destruct a
        end; reflexivity.
    + left. eexists. reflexivity.
Qed.

(** What a run of pages adds to the result. *)
Lemma pages_items (file : File) (pdf : PdfDocument) (pages : list nat) :
  forall (r : PdfImportResult) (w : World),
    let r' := fst (foldM (fun pageNum =>
                            processPage (contextOf file pdf) (getPage pdf pageNum) pageNum)
                         pages r w) in
    exists newItems newErrors,
      items r' = (items r ++ newItems)%list
      /\ errors r' = (errors r ++ newErrors)%list
      /\ Forall (importedFrom (file_name file)) newItems
      /\ (List.length newItems + List.length newErrors = List.length pages)%nat.
Proof.
  induction pages as [|n pages IH]; intros r w; cbn zeta.
  - exists [], []. cbn. rewrite !app_nil_r. repeat split. constructor.
  - cbn [foldM]. rewrite bind_run.
    destruct (IH (fst (processPage (contextOf file pdf) (getPage pdf n) n r w))
                 (snd (processPage (contextOf file pdf) (getPage pdf n) n r w)))
      as (its & ers & Hi & He & Hall & Hlen).
    destruct (processPage_item file pdf (getPage pdf n) n r w) as [[e E]|[i [E Hi0]]];
      rewrite E in Hi, He |- *; cbn [pushError pushItem items errors] in Hi, He.
    + exists its, (e :: ers). rewrite Hi, He, <- app_assoc.
      repeat split; trivial. cbn [List.length]. lia.
    + exists (i :: its), ers. rewrite Hi, He, <- app_assoc.
      repeat split; trivial; [now constructor|cbn [List.length]; lia].
Qed.

(** What one file adds to the result. *)
Lemma processFile_items (total i : nat) (f : File) (r : PdfImportResult)
      (w : World) :
  let r' := fst (processFile None total i f r w) in
  exists newItems newErrors,
    items r' = (items r ++ newItems)%list
    /\ errors r' = (errors r ++ newErrors)%list
    /\ Forall (fun i => isPdfName (file_name f) = true
                        /\ importedFrom (file_name f) i) newItems
    /\ (List.length newItems + List.length newErrors
        = pagesOf f + (if failsToOpen f then 1 else 0))%nat.
Proof.
  cbn zeta. rewrite processFile_none. unfold pagesOf, failsToOpen.
  destruct (isPdfName (file_name f)) eqn:Hpdf; cbn [negb andb].
  - destruct (getDocument f) as [msg|pdf].
    + exists [], [file_name f ++ ": " ++ msg]. cbn. rewrite app_nil_r.
      repeat split. constructor.
    + cbn [fst]. unfold processPages.
      destruct (pages_items f pdf (seq 1 (numPages pdf)) r (snd (logDebug w)))
        as (its & ers & Hi & He & Hall & Hlen).
      exists its, ers. cbn [fileProcessed items errors].
      rewrite length_seq in Hlen.
      repeat split; trivial; [|lia].
      eapply Forall_impl; [|exact Hall]. intros it Hi0. now split.
  - exists [], []. cbn. rewrite !app_nil_r. repeat split. constructor.
Qed.

Lemma files_items (total : nat) (files : list File) :
  forall (i : nat) (r : PdfImportResult) (w : World),
    let r' := fst (processFiles None total i files r w) in
    exists newItems newErrors,
      items r' = (items r ++ newItems)%list
      /\ errors r' = (errors r ++ newErrors)%list
      /\ Forall (fun i => exists f, In f files /\ isPdfName (file_name f) = true
                                    /\ importedFrom (file_name f) i) newItems
      /\ (List.length newItems + List.length newErrors
          = totalPages files + count failsToOpen files)%nat.
Proof.
  unfold totalPages, count.
  induction files as [|f files IH]; intros i r w; cbn zeta.
  - exists [], []. cbn. rewrite !app_nil_r. repeat split. constructor.
  - cbn [processFiles]. rewrite bind_run.
    destruct (processFile_items total i f r w) as (i1 & e1 & Hi1 & He1 & Ha1 & Hl1).
    destruct (IH (S i) (fst (processFile None total i f r w))
                 (snd (processFile None total i f r w)))
      as (i2 & e2 & Hi2 & He2 & Ha2 & Hl2).
    exists (i1 ++ i2)%list, (e1 ++ e2)%list.
    rewrite Hi2, He2, Hi1, He1, <- !app_assoc.
    split; [reflexivity|]. split; [reflexivity|]. split.
    + apply Forall_app. split.
      * eapply Forall_impl; [|exact Ha1]. intros it [Hp Hi]. exists f.
        split; [now left|split; assumption].
      * eapply Forall_impl; [|exact Ha2]. intros it (f' & Hin & Hp & Hi).
        exists f'. split; [now right|split; assumption].
    + rewrite !length_app. cbn [map fold_right filter].
      destruct (failsToOpen f); cbn [List.length]; lia.
Qed.

End ImportItemFacts.

(** Every item [importPdfsToItems] returns comes from one of the PDF
    files given: it has the job number, the colour tags and the game
    count read off that file's name, the job kind "Novo", the default
    rate, and an id and a date that are strings.  And nothing is lost:
    every page of every opened PDF gives one item or one error, and every
    PDF that cannot be opened gives one error. *)
Theorem import_items_from_files (files : list File) (w : World) :
  files <> [] ->
  let r := fst (importPdfsToItems files w) in
  Forall (fun i => exists f, In f files /\ isPdfName (file_name f) = true
                             /\ importedFrom (file_name f) i) (items r)
  /\ (List.length (items r) + List.length (errors r)
      = totalPages files + count failsToOpen files)%nat.
Proof.
  intros Hne. cbn zeta. rewrite (import_run files w Hne). cbn [fst].
  destruct (files_items (List.length files) files 0 emptyResult w)
    as (its & ers & Hi & He & Ha & Hl).
  cbn [emptyResult items errors app] in Hi, He. rewrite Hi, He. now split.
Qed.

Lemma import_items_from_files_witness :
  (List.length (items (fst (importPdfsToItems sampleFiles sampleWorld)))
   + List.length (errors (fst (importPdfsToItems sampleFiles sampleWorld)))
   = 3)%nat.
Proof.
  exact (proj2 (import_items_from_files sampleFiles sampleWorld
                  ltac:(discriminate))).
Defined.


(* ================================================================== *)

(** * App.tsx: restoring, deleting and saving batches; adding and
    deleting items *)
(* ================================================================== *)

(** [{ ...item, id: newId }] *)
Definition withId (newId : JsValue) (i : OrderItem) : OrderItem := {|
  id := newId; os := os i; clientDescription := clientDescription i;
  colors := colors i; jobType := jobType i; date := date i;
  width := width i; height := height i; games := games i;
  pricePerCm2 := pricePerCm2 i; observations := observations i
|}.

(** [b.items.map((item) => ({ ...item, id: Math.random()... }))] *)
Fixpoint renewIds (items : list OrderItem) : M (list OrderItem) :=
  match items with
  | [] => ret []
  | i :: rest =>
      newId <- randomId ;;
      others <- renewIds rest ;;
      ret (withId (JStr newId) i :: others)
  end.

(** [batchesToRestore.flatMap(...)] *)
Fixpoint restoreItems (bs : list HistoryBatch) : M (list OrderItem) :=
  match bs with
  | [] => ret []
  | b :: rest =>
      first <- renewIds (batch_items b) ;;
      others <- restoreItems rest ;;
      ret (first ++ others)%list
  end.

(** [ids.includes(b.id)] *)
Definition selected (ids : list string) (b : HistoryBatch) : bool :=
  existsb (String.eqb (batch_id b)) ids.

Definition handleRestoreBatches (ids : list string) (st : AppState) : M AppState :=
  let batchesToRestore := filter (selected ids) (history st) in
  if (List.length batchesToRestore =? 0)%nat then ret st
  else
    confirmed <- windowConfirm ;;
    if confirmed then
      newItems <- restoreItems batchesToRestore ;;
      _ <- logInfo ;;
      ret {| app_items := (app_items st ++ newItems)%list;
             history := history st;
             totalStock := totalStock st;
             activeTab := production |}
    else ret st.

Definition handleDeleteBatches (ids : list string) (st : AppState) : M AppState :=
  confirmed <- windowConfirm ;;
  if confirmed then
    _ <- logInfo ;;
    ret {| app_items := app_items st;
           history := filter (fun h => negb (selected ids h)) (history st);
           totalStock := totalStock st;
           activeTab := activeTab st |}
  else ret st.

(** The state change of [handleSaveBatch]: the updater it gives to
    [setHistory]. *)
Definition handleSaveBatch (updatedBatch : HistoryBatch) (st : AppState) : AppState :=
  {| app_items := app_items st;
     history := map (fun b => if String.eqb (batch_id b) (batch_id updatedBatch)
                              then updatedBatch else b) (history st);
     totalStock := totalStock st;
     activeTab := activeTab st |}.

Definition handleAddItem (st : AppState) : M AppState :=
  newId <- randomId ;;
  newDay <- today ;;
  let newItem := {|
    id := JStr newId; os := ""; clientDescription := ""; colors := "";
    jobType := JStr Novo; date := JStr newDay; width := 0; height := 0;
    games := 1; pricePerCm2 := DEFAULT_RATE; observations := ""
  |} in
  _ <- logDebug ;;
  ret {| app_items := (app_items st ++ [newItem])%list;
         history := history st;
         totalStock := totalStock st;
         activeTab := activeTab st |}.

(** [item.id === id] for a string [id] *)
Definition hasId (ident : string) (i : OrderItem) : bool :=
  match id i with JStr s => String.eqb s ident | _ => false end.

(** The state change of [handleDeleteItem]: the updater it gives to
    [setItems]. *)
Definition handleDeleteItem (ident : string) (st : AppState) : AppState :=
  {| app_items := filter (fun i => negb (hasId ident i)) (app_items st);
     history := history st;
     totalStock := totalStock st;
     activeTab := activeTab st |}.

(** Two items that differ in their id at most. *)
Definition sameButId (i j : OrderItem) : Prop :=
  withId JUndefined i = withId JUndefined j.

(** The id made of the random number drawn after [k] others, from the
    world [w] on: [Math.random().toString(36).substr(2, 9)]. *)
Definition drawnId (w : World) (k : nat) : JsValue :=
  JStr (Str.substr 2 9 (randomSource w (k + randomCalls w))).

Section HandlerFacts.

Lemma renewIds_same (items : list OrderItem) :
  forall w, Forall2 sameButId (fst (renewIds items w)) items
            /\ Forall (fun i => isString (id i) = true) (fst (renewIds items w)).
Proof.
  induction items as [|i items IH]; intros w; cbn [renewIds].
  - split; constructor.
  - rewrite !bind_run. cbn [ret fst].
    destruct (IH (snd (randomId w))) as [I1 I2].
    split; constructor; trivial. reflexivity.
Qed.

Lemma restoreItems_same (bs : list HistoryBatch) :
  forall w, Forall2 sameButId (fst (restoreItems bs w))
                    (List.concat (map batch_items bs))
            /\ Forall (fun i => isString (id i) = true) (fst (restoreItems bs w)).
Proof.
  induction bs as [|b bs IH]; intros w; cbn [restoreItems map List.concat].
  - split; constructor.
  - rewrite !bind_run. cbn [ret fst].
    destruct (renewIds_same (batch_items b) w) as [R1 R2].
    destruct (IH (snd (renewIds (batch_items b) w))) as [I1 I2].
    split; [now apply Forall2_app|now apply Forall_app].
Qed.

Lemma drawnId_later (a : nat) (w : World) (b : nat) :
  forall s, map (drawnId (advance a 0 w)) (seq s b)
            = map (drawnId w) (seq (a + s) b).
Proof.
  induction b as [|b IH]; intros s; cbn [seq map]; [reflexivity|].
  rewrite IH, Nat.add_succ_r. f_equal.
  unfold drawnId, advance. cbn [randomSource randomCalls].
  replace (s + (a + randomCalls w))%nat with (a + s + randomCalls w)%nat by lia.
  reflexivity.
Qed.

(** The copies get the random numbers in the order in which they are
    drawn, one each. *)
Lemma renewIds_ids (items : list OrderItem) :
  forall w,
    map id (fst (renewIds items w)) = map (drawnId w) (seq 0 (List.length items))
    /\ snd (renewIds items w) = advance (List.length items) 0 w.
Proof.
  induction items as [|i items IH]; intros w; cbn [renewIds List.length].
  - split; [reflexivity|now rewrite advance_0].
  - rewrite !bind_run. cbn [ret fst snd map seq id withId].
    unfold randomId at 1 2 3. rewrite !bind_run. cbn [ret fst snd].
    rewrite mathRandom36_advance.
    destruct (IH (advance 1 0 w)) as [I1 I2]. rewrite I1, I2. split.
    + f_equal. rewrite (drawnId_later 1 w (List.length items) 0). reflexivity.
    + rewrite advance_advance. f_equal; lia.
Qed.

Lemma restoreItems_ids (bs : list HistoryBatch) :
  forall w,
    map id (fst (restoreItems bs w))
    = map (drawnId w) (seq 0 (List.length (List.concat (map batch_items bs))))
    /\ snd (restoreItems bs w)
       = advance (List.length (List.concat (map batch_items bs))) 0 w.
Proof.
  induction bs as [|b bs IH]; intros w; cbn [restoreItems map List.concat].
  - split; [reflexivity|now rewrite advance_0].
  - rewrite !bind_run. cbn [ret fst snd].
    destruct (renewIds_ids (batch_items b) w) as [R1 R2]. rewrite R2.
    destruct (IH (advance (List.length (batch_items b)) 0 w)) as [I1 I2].
    rewrite I2, map_app, R1, I1, length_app, seq_app, map_app. split.
    + f_equal. rewrite drawnId_later. now rewrite Nat.add_0_r.
    + rewrite advance_advance. f_equal; lia.
Qed.

Lemma filter_none {A : Type} (p : A -> bool) (l : list A) :
  Forall (fun x => p x = false) l -> filter p l = [].
Proof.
  induction 1 as [|x l Hx _ IH]; cbn [filter]; [reflexivity|]. now rewrite Hx.
Qed.

Lemma filter_all {A : Type} (p : A -> bool) (l : list A) :
  Forall (fun x => p x = true) l -> filter p l = l.
Proof.
  induction 1 as [|x l Hx _ IH]; cbn [filter]; [reflexivity|]. now rewrite Hx, IH.
Qed.

Lemma selected_single (ident : string) (b : HistoryBatch) :
  selected [ident] b = String.eqb (batch_id b) ident.
Proof. unfold selected. cbn [existsb]. apply orb_false_r. Qed.

End HandlerFacts.

(** [handleRestoreBatches] never touches the history or the stock.  When
    some batch is selected and the user confirms, it appends to the
    working set a copy of every item of the selected batches, in history
    order, equal to the original in all but the id, and shows the
    production tab; the ids of the copies are made of the random numbers
    drawn during the call, one for each copy in the order of the copies.
    Otherwise nothing changes. *)
Theorem handleRestoreBatches_copies (ids : list string) (st : AppState) (w : World) :
  let st' := fst (handleRestoreBatches ids st w) in
  let chosen := filter (selected ids) (history st) in
  history st' = history st /\ totalStock st' = totalStock st
  /\ (chosen <> [] -> userConfirms w = true ->
      exists copies,
        app_items st' = (app_items st ++ copies)%list
        /\ Forall2 sameButId copies (List.concat (map batch_items chosen))
        /\ map id copies = map (drawnId w) (seq 0 (List.length copies))
        /\ Forall (fun i => isString (id i) = true) copies
        /\ activeTab st' = production)
  /\ (chosen = [] \/ userConfirms w = false -> st' = st).
Proof.
  cbn zeta. unfold handleRestoreBatches.
  destruct (filter (selected ids) (history st)) as [|b bs] eqn:Hsel.
  - cbn. split; [reflexivity|]. split; [reflexivity|]. split; [congruence|].
    reflexivity.
  - cbn [List.length Nat.eqb]. unfold bind, windowConfirm, logInfo, ret.
    destruct (userConfirms w) eqn:Hc.
    + destruct (restoreItems_same (b :: bs) w) as [R1 R2].
      destruct (restoreItems_ids (b :: bs) w) as [R3 _].
      rewrite <- (Forall2_length R1) in R3.
      destruct (restoreItems (b :: bs) w) as [copies w'].
      cbn [fst history totalStock app_items activeTab] in *.
      split; [reflexivity|]. split; [reflexivity|]. split.
      * intros _ _. exists copies. split; [reflexivity|]. split; [exact R1|].
        split; [exact R3|]. split; [exact R2|reflexivity].
      * intros [H|H]; discriminate.
    + cbn [fst]. split; [reflexivity|]. split; [reflexivity|].
      split; [intros _ H; discriminate|reflexivity].
Qed.

Lemma handleRestoreBatches_copies_witness :
  exists copies,
    app_items (fst (handleRestoreBatches ["4fzyo82mv"]
                      (fst (handleArchive sampleState sampleWorld))
                      (snd (handleArchive sampleState sampleWorld))))
    = copies
    /\ Forall2 sameButId copies [firstInitialItem]
    /\ map id copies = [JStr "4fzyo82mv"].
Proof.
  destruct (proj1 (proj2 (proj2
              (handleRestoreBatches_copies ["4fzyo82mv"]
                 (fst (handleArchive sampleState sampleWorld))
                 (snd (handleArchive sampleState sampleWorld))))))
    as (copies & Hitems & Hsame & Hids & _).
  - discriminate.
  - reflexivity.
  - exists copies. split; [exact Hitems|]. split; [exact Hsame|].
    rewrite Hids, (Forall2_length Hsame). reflexivity.
Defined.

(** Archiving and then restoring the new batch brings the working set
    back, item for item, up to the ids, and keeps the batch in the
    history, provided the user confirms both prompts and no older batch
    carries the id generated for the new one. *)
Theorem archive_then_restore (st : AppState) (w : World) :
  app_items st <> [] -> userConfirms w = true ->
  Forall (fun h => batch_id h <> generatedId w) (history st) ->
  let archived := handleArchive st w in
  let restored := fst (handleRestoreBatches [generatedId w] (fst archived) (snd archived)) in
  Forall2 sameButId (app_items restored) (app_items st)
  /\ history restored = archivedBatch st w :: history st
  /\ activeTab restored = production.
Proof.
  intros Hne Hyes Hfresh. cbn zeta.
  assert (Harch : fst (handleArchive st w)
                  = {| app_items := []; history := archivedBatch st w :: history st;
                       totalStock := totalStock st; activeTab := history_tab |}
                  /\ userConfirms (snd (handleArchive st w)) = true).
  { unfold handleArchive, archivedBatch, generatedId.
    destruct (app_items st) as [|i rest] eqn:Hi; [contradiction|].
    cbn [List.length Nat.eqb].
    unfold windowConfirm, newDate, randomId, mathRandom36, logInfo, bind, ret.
    rewrite Hyes. cbn. split; [reflexivity|exact Hyes]. }
  destruct Harch as [Hst Hconf].
  destruct (handleArchive st w) as [st1 w1]. cbn [fst snd] in *. subst st1.
  assert (Hsel : filter (selected [generatedId w])
                        (archivedBatch st w :: history st) = [archivedBatch st w]).
  { cbn [filter]. rewrite selected_single. cbn [archivedBatch batch_id].
    rewrite String.eqb_refl. f_equal. apply filter_none.
    eapply Forall_impl; [|exact Hfresh]. intros h Hh.
    rewrite selected_single. now apply String.eqb_neq. }
  unfold handleRestoreBatches. cbn [history app_items totalStock].
  rewrite Hsel. cbn [List.length Nat.eqb].
  unfold bind, windowConfirm, logInfo, ret.
  rewrite Hconf.
  destruct (restoreItems_same [archivedBatch st w] w1) as [R _].
  cbn [map List.concat archivedBatch batch_items] in R. rewrite app_nil_r in R.
  destruct (restoreItems [archivedBatch st w] w1) as [copies w2].
  cbn [fst app_items history activeTab app] in *.
  repeat split; trivial.
Qed.

Lemma archive_then_restore_witness :
  Forall2 sameButId
    (app_items (fst (handleRestoreBatches [generatedId sampleWorld]
                       (fst (handleArchive sampleState sampleWorld))
                       (snd (handleArchive sampleState sampleWorld)))))
    (app_items sampleState).
Proof.
  apply (archive_then_restore sampleState sampleWorld).
  - discriminate.
  - reflexivity.
  - constructor.
Defined.

(** [handleDeleteBatches], once confirmed, removes from the history the
    batches whose id is listed, all of them, keeps the others in their
    order and leaves the working set alone; declined, it changes nothing.
    Deleting the batch just archived gives back the history as it was
    before, provided no older batch carries the same id. *)
Theorem handleDeleteBatches_removes (ids : list string) (st : AppState) (w : World) :
  let st' := fst (handleDeleteBatches ids st w) in
  app_items st' = app_items st
  /\ (userConfirms w = false -> st' = st)
  /\ (userConfirms w = true ->
      history st' = filter (fun h => negb (selected ids h)) (history st)
      /\ (forall h, In h (history st') <->
                    In h (history st) /\ ~ In (batch_id h) ids)
      /\ (forall fresh newBatch,
             ids = [fresh] -> batch_id newBatch = fresh ->
             Forall (fun h => batch_id h <> fresh) (history st) ->
             fst (handleDeleteBatches ids
                    {| app_items := app_items st;
                       history := newBatch :: history st;
                       totalStock := totalStock st;
                       activeTab := activeTab st |} w)
             = st)).
Proof.
  cbn zeta. unfold handleDeleteBatches, bind, windowConfirm, logInfo, ret.
  cbv beta iota. destruct (userConfirms w).
  - cbn [fst app_items history]. split; [reflexivity|].
    split; [discriminate|]. intros _. split; [reflexivity|]. split.
    + intros h. rewrite filter_In. unfold selected. split.
      * intros [Hin Hsel]. split; [exact Hin|]. intros Hid.
        apply negb_true_iff in Hsel.
        assert (E : existsb (String.eqb (batch_id h)) ids = true).
        { apply existsb_exists. exists (batch_id h). split; [exact Hid|].
          apply String.eqb_refl. }
        congruence.
      * intros [Hin Hid]. split; [exact Hin|]. apply negb_true_iff.
        destruct (existsb (String.eqb (batch_id h)) ids) eqn:E; [|reflexivity].
        apply existsb_exists in E. destruct E as (x & Hx & Ex).
        apply String.eqb_eq in Ex. subst x. contradiction.
    + intros fresh newBatch -> Hid Hfresh.
      cbn [app_items history totalStock activeTab filter].
      rewrite selected_single, Hid, String.eqb_refl. cbn [negb].
      rewrite filter_all; [now destruct st|].
      eapply Forall_impl; [|exact Hfresh]. intros h Hh.
      rewrite selected_single. apply negb_true_iff. now apply String.eqb_neq.
  - cbn [fst]. repeat split; trivial; discriminate.
Qed.

(** [handleSaveBatch] keeps the length and the order of the history and
    the batches with other ids; every batch with the id of the updated
    batch becomes the updated batch; without such a batch nothing changes;
    and saving the same batch twice is the same as saving it once. *)
Theorem handleSaveBatch_replaces (updated : HistoryBatch) (st : AppState) :
  let st' := handleSaveBatch updated st in
  List.length (history st') = List.length (history st)
  /\ (forall n b, nth_error (history st) n = Some b ->
                  nth_error (history st') n
                  = Some (if String.eqb (batch_id b) (batch_id updated)
                          then updated else b))
  /\ (Forall (fun b => batch_id b <> batch_id updated) (history st) -> st' = st)
  /\ handleSaveBatch updated st' = st'
  /\ map batch_id (history st') = map batch_id (history st).
Proof.
  cbn zeta. unfold handleSaveBatch. cbn [history app_items totalStock activeTab].
  split; [apply length_map|]. split; [|split; [|split]].
  - intros n b Hn. rewrite nth_error_map, Hn. reflexivity.
  - intros Hall. destruct st as [its hist stock tab]. cbn in *. f_equal.
    induction Hall as [|b l Hb _ IH]; cbn [map]; [reflexivity|].
    apply String.eqb_neq in Hb. now rewrite Hb, IH.
  - f_equal. rewrite map_map. apply map_ext. intros b.
    destruct (String.eqb (batch_id b) (batch_id updated)) eqn:E;
      [now rewrite String.eqb_refl|now rewrite E].
  - rewrite map_map. apply map_ext. intros b.
    destruct (String.eqb_spec (batch_id b) (batch_id updated)); congruence.
Qed.

(** [handleDeleteItem] removes every item whose id is the given string
    and no other; it changes nothing when no item has that id.  Deleting
    the item [handleAddItem] has just added gives back the working set
    as it was, provided no older item carries the generated id. *)
Theorem add_then_delete_item (st : AppState) (w : World) :
  (forall ident,
      Forall (fun i => hasId ident i = false) (app_items (handleDeleteItem ident st))
      /\ (forall i, In i (app_items (handleDeleteItem ident st)) <->
                    In i (app_items st) /\ hasId ident i = false)
      /\ (Forall (fun i => hasId ident i = false) (app_items st) ->
          handleDeleteItem ident st = st))
  /\ (Forall (fun i => hasId (generatedId w) i = false) (app_items st) ->
      handleDeleteItem (generatedId w) (fst (handleAddItem st w)) = st)
  /\ List.length (app_items (fst (handleAddItem st w)))
     = S (List.length (app_items st)).
Proof.
  split; [|split].
  - intros ident. unfold handleDeleteItem. cbn [app_items]. split; [|split].
    + apply Forall_forall. intros i Hi. apply filter_In in Hi.
      now apply negb_true_iff.
    + intros i. rewrite filter_In, negb_true_iff. reflexivity.
    + intros Hall. rewrite filter_all; [now destruct st|].
      eapply Forall_impl; [|exact Hall]. intros i Hi. now rewrite Hi.
  - intros Hall. unfold handleAddItem, handleDeleteItem.
    rewrite !bind_run. cbn [ret fst app_items history totalStock activeTab].
    rewrite filter_app. cbn [filter]. unfold hasId at 2. cbn [id].
    change (fst (randomId w)) with (generatedId w). rewrite String.eqb_refl.
    cbn [negb]. rewrite app_nil_r, filter_all; [now destruct st|].
    eapply Forall_impl; [|exact Hall]. intros i Hi. now rewrite Hi.
  - unfold handleAddItem. rewrite !bind_run. cbn [ret fst app_items].
    rewrite length_app. cbn [List.length]. lia.
Qed.

Lemma add_then_delete_item_witness :
  handleDeleteItem (generatedId sampleWorld) (fst (handleAddItem sampleState sampleWorld))
  = sampleState.
Proof.
  apply (proj1 (proj2 (add_then_delete_item sampleState sampleWorld))).
  repeat constructor.
Defined.


(** The working set starts from the stored items when the stored value
    has an array under [items], also an empty one: it holds the migration
    of every entry that is an object whose properties can be converted,
    in order, each field computed from the same-named property of the
    entry; the other entries are dropped.  In every other case, a missing
    or corrupt store included, it starts from the three items of
    [INITIAL_DATA]. *)
Theorem initialItems_from_store (saved : JsValue) (w : World) :
  (forall elems,
      get saved "items" = JArr elems ->
      Forall2 (migratedFrom w) (filter migrates elems) (fst (initialItems saved w))
      /\ List.length (fst (initialItems saved w)) = count migrates elems)
  /\ (isArray (get saved "items") = false ->
      initialItems saved w = (INITIAL_DATA, w))
  /\ (get saved "items" = JArr [] -> initialItems saved w = ([], w)).
Proof.
  unfold initialItems. split; [|split].
  - intros elems ->. split; [apply migrateAll_spec|apply migrateAll_length].
  - destruct (get saved "items"); try reflexivity. discriminate.
  - intros ->. reflexivity.
Qed.

(** A stored state with three entries: [null], an order, and an order
    whose [os] cannot be converted. *)
Definition sampleSaved : JsValue :=
  JObj [("items", JArr [JNull; JObj [("os", JStr "4787")];
                        JObj [("os", JObj [("toString", JNum 1)])]])].

Lemma initialItems_from_store_witness :
  List.length (fst (initialItems sampleSaved sampleWorld)) = 1%nat
  /\ initialItems JNull sampleWorld = (INITIAL_DATA, sampleWorld).
Proof.
  split.
  - exact (proj2 (proj1 (initialItems_from_store sampleSaved sampleWorld)
                        _ eq_refl)).
  - exact (proj1 (proj2 (initialItems_from_store JNull sampleWorld)) eq_refl).
Defined.



(* ================================================================== *)

(** * utils.ts: [loadFromStorage], [saveToStorage]

    [localStorage] is a list of keys with their texts.  What the run time
    decides is taken as it comes: whether [window] exists, whether
    [localStorage] can be used at all ([getItem] and [removeItem] throw
    when it cannot), what [JSON.parse] and [JSON.stringify] answer, and
    whether [setItem] throws for a given key and text. *)
(* ================================================================== *)

Definition Storage : Type := list (string * string).

Fixpoint getItem (key : string) (store : Storage) : option string :=
  match store with
  | [] => None
  | (k, text) :: rest => if String.eqb key k then Some text else getItem key rest
  end.

Definition removeItem (key : string) (store : Storage) : Storage :=
  filter (fun entry => negb (String.eqb key (fst entry))) store.

Definition setItem (key text : string) (store : Storage) : Storage :=
  (key, text) :: removeItem key store.

Record SaveResult : Type := {
  save_success : bool;
  save_error : option string
}.

Definition windowIsNotDefined : string := "Window is not defined".

(** [localStorage.setItem] stores [String(text)]: [JSON.stringify] answers
    [undefined] for a value it cannot express. *)
Definition storedText (serialized : option string) : string :=
  match serialized with Some text => text | None => "undefined" end.

Section StorageFunctions.

(** [typeof window !== 'undefined'] *)
Variable hasWindow : bool.
(** [localStorage.getItem] and [localStorage.removeItem] do not throw *)
Variable accessible : bool.
(** [JSON.parse] and [JSON.stringify] *)
Variable parse : string -> Result JsValue.
Variable stringify : JsValue -> Result (option string).
(** the message of the error that [localStorage.setItem] throws, if any *)
Variable refuses : string -> string -> option string.

Definition loadFromStorage (key : string) (defaultValue : JsValue) (store : Storage)
  : JsValue * Storage :=
  if negb hasWindow then (defaultValue, store)
  else if negb accessible then (defaultValue, store)
  else
    match getItem key store with
    | None => (defaultValue, store)
    | Some saved =>
        if String.eqb saved "" then (defaultValue, store)
        else
          match parse saved with
          | Ok parsed => (or parsed defaultValue, store)
          | Throw _ => (defaultValue, removeItem key store)
          end
    end.

Definition saveToStorage (key : string) (data : JsValue) (store : Storage)
  : SaveResult * Storage :=
  if negb hasWindow
  then ({| save_success := false; save_error := Some windowIsNotDefined |}, store)
  else
    match stringify data with
    | Throw errorMessage =>
        ({| save_success := false; save_error := Some errorMessage |}, store)
    | Ok serialized =>
        match refuses key (storedText serialized) with
        | Some errorMessage =>
            ({| save_success := false; save_error := Some errorMessage |}, store)
        | None =>
            ({| save_success := true; save_error := None |},
             setItem key (storedText serialized) store)
        end
    end.

Lemma getItem_removeItem (key k : string) (store : Storage) :
  getItem k (removeItem key store)
  = if String.eqb key k then None else getItem k store.
Proof.
  unfold removeItem. induction store as [|[k' t] store IH]; cbn [filter getItem fst].
  - now destruct (String.eqb key k).
  - destruct (String.eqb_spec key k') as [<-|Hk]; cbn [negb getItem].
    + rewrite IH. destruct (String.eqb_spec key k) as [<-|Hne].
      * reflexivity.
      * destruct (String.eqb_spec k key); [congruence|reflexivity].
    + rewrite IH. destruct (String.eqb_spec key k) as [<-|Hne].
      * destruct (String.eqb_spec key k'); [congruence|reflexivity].
      * reflexivity.
Qed.

Lemma getItem_setItem (key k text : string) (store : Storage) :
  getItem k (setItem key text store)
  = if String.eqb k key then Some text else getItem k store.
Proof.
  unfold setItem. cbn [getItem].
  destruct (String.eqb_spec k key) as [->|Hne]; [reflexivity|].
  rewrite getItem_removeItem.
  destruct (String.eqb_spec key k); [congruence|reflexivity].
Qed.

(** [loadFromStorage] returns the default or a truthy value that the
    stored text parses to, never anything else.  When the store can be
    used and [JSON.parse] rejects the text under the key, that key, and no
    other, is removed and the default is returned, so that the next load
    finds no entry and returns the default again.  When the text parses,
    the store is left as it is. *)
Theorem loadFromStorage_recovers (key : string) (defaultValue : JsValue)
        (store : Storage) :
  let out := loadFromStorage key defaultValue store in
  (fst out = defaultValue
   \/ (truthy (fst out) = true
       /\ exists text, getItem key store = Some text /\ parse text = Ok (fst out)))
  /\ (forall text msg,
         hasWindow = true -> accessible = true ->
         getItem key store = Some text -> text <> "" -> parse text = Throw msg ->
         fst out = defaultValue
         /\ getItem key (snd out) = None
         /\ (forall k, k <> key -> getItem k (snd out) = getItem k store)
         /\ loadFromStorage key defaultValue (snd out) = (defaultValue, snd out))
  /\ (forall text parsed,
         getItem key store = Some text -> parse text = Ok parsed ->
         snd out = store).
Proof.
  cbn zeta. unfold loadFromStorage.
  destruct hasWindow; cbn [negb].
  2:{ split; [now left|]. split; [discriminate|reflexivity]. }
  destruct accessible; cbn [negb].
  2:{ split; [now left|]. split; [discriminate|reflexivity]. }
  destruct (getItem key store) as [saved|] eqn:Hget.
  2:{ split; [now left|]. split; [discriminate|reflexivity]. }
  destruct (String.eqb_spec saved "") as [->|Hne].
  { split; [now left|]. split; [|reflexivity].
    intros text msg _ _ [= <-] H. congruence. }
  destruct (parse saved) as [parsed|msg0] eqn:Hparse.
  - cbn [fst snd]. split; [|split; [|reflexivity]].
    + unfold or. destruct (truthy parsed) eqn:T; [right|now left].
      split; [exact T|]. now exists saved.
    + intros text msg _ _ [= <-] _ H. congruence.
  - cbn [fst snd]. split; [now left|]. split.
    + intros text msg _ _ _ _ _.
      assert (G : getItem key (removeItem key store) = None)
        by (rewrite getItem_removeItem; now rewrite String.eqb_refl).
      split; [reflexivity|]. split; [exact G|]. split.
      * intros k Hk. rewrite getItem_removeItem.
        destruct (String.eqb_spec key k); [congruence|reflexivity].
      * now rewrite G.
    + intros text parsed [= <-] H. congruence.
Qed.

(** What [saveToStorage] has stored, [loadFromStorage] reads back: a save
    succeeds exactly when it reports no error, and then the key holds the
    serialized text, the other keys are untouched, and loading the key
    gives the value that this text parses to, or the default when that
    value is falsy.  A save that fails leaves the store as it was. *)
Theorem save_then_load (key : string) (data defaultValue : JsValue) (store : Storage) :
  let saved := saveToStorage key data store in
  (save_success (fst saved) = true ->
   exists serialized,
     stringify data = Ok serialized
     /\ getItem key (snd saved) = Some (storedText serialized)
     /\ (forall k, k <> key -> getItem k (snd saved) = getItem k store)
     /\ (forall parsed,
            accessible = true -> storedText serialized <> "" ->
            parse (storedText serialized) = Ok parsed ->
            loadFromStorage key defaultValue (snd saved)
            = (or parsed defaultValue, snd saved)))
  /\ (save_success (fst saved) = false -> snd saved = store)
  /\ (save_success (fst saved) = true <-> save_error (fst saved) = None).
Proof.
  cbn zeta. unfold saveToStorage, loadFromStorage.
  destruct hasWindow; cbn [negb].
  2:{ cbn. repeat split; try discriminate. }
  destruct (stringify data) as [serialized|msg].
  2:{ cbn. repeat split; try discriminate. }
  destruct (refuses key (storedText serialized)); cbn [fst snd save_success save_error].
  { repeat split; try discriminate. }
  split; [|split; [discriminate|split; reflexivity]].
  intros _. exists serialized.
  assert (G : getItem key (setItem key (storedText serialized) store)
              = Some (storedText serialized))
    by (rewrite getItem_setItem; now rewrite String.eqb_refl).
  split; [reflexivity|]. split; [exact G|]. split.
  - intros k Hk. rewrite getItem_setItem.
    destruct (String.eqb_spec k key); [contradiction|reflexivity].
  - intros parsed -> Hne Hparse. cbn [negb]. rewrite G.
    destruct (String.eqb_spec (storedText serialized) ""); [contradiction|].
    now rewrite Hparse.
Qed.

End StorageFunctions.

(** A run time for the examples: it reads the two texts below and
    rejects every other one, and never refuses to store. *)
Definition sampleParse (text : string) : Result JsValue :=
  if String.eqb text "[]" then Ok (JArr [])
  else if String.eqb text "0" then Ok (JNum 0)
  else Throw "SyntaxError".

Definition sampleStringify (data : JsValue) : Result (option string) :=
  match data with
  | JArr [] => Ok (Some "[]")
  | JUndefined => Ok None
  | _ => Throw "TypeError"
  end.

Definition sampleStore : Storage :=
  [("flexcell_history_data", "{oops"); ("flexcell_email_settings", "[]")].

Lemma loadFromStorage_recovers_witness :
  let out := loadFromStorage true true sampleParse "flexcell_history_data" JNull sampleStore in
  fst out = JNull /\ getItem "flexcell_history_data" (snd out) = None
  /\ getItem "flexcell_email_settings" (snd out) = Some "[]".
Proof.
  cbn zeta.
  destruct (proj1 (proj2 (loadFromStorage_recovers true true sampleParse
                            "flexcell_history_data" JNull sampleStore))
                  "{oops" "SyntaxError" eq_refl eq_refl eq_refl
                  ltac:(discriminate) eq_refl)
    as (H1 & H2 & H3 & _).
  split; [exact H1|]. split; [exact H2|].
  rewrite (H3 "flexcell_email_settings" ltac:(discriminate)). reflexivity.
Defined.

Lemma save_then_load_witness :
  exists store,
    saveToStorage true sampleStringify (fun _ _ => None) "flexcell_history_data" (JArr [])
                  sampleStore
    = ({| save_success := true; save_error := None |}, store)
    /\ loadFromStorage true true sampleParse "flexcell_history_data" JNull store
       = (JArr [], store).
Proof.
  destruct (proj1 (save_then_load true true sampleParse sampleStringify
                                  (fun _ _ => None) "flexcell_history_data" (JArr []) JNull
                                  sampleStore) eq_refl)
    as (serialized & Hs & _ & _ & Hload).
  injection Hs as <-.
  eexists. split; [reflexivity|].
  exact (Hload (JArr []) eq_refl ltac:(discriminate) eq_refl).
Defined.


(* ================================================================== *)
(** * utils.ts: [initPdfWorker], [cleanupPdfWorker]

    The module keeps [blobUrl]; pdf.js keeps
    [GlobalWorkerOptions.workerSrc].  The state below holds both, with
    the requests made and the URLs revoked so far.  What the network
    answers is taken as it comes. *)
(* ================================================================== *)

Definition WORKER_URLS : list string :=
  ["https://unpkg.com/pdfjs-dist@3.11.174/build/pdf.worker.min.js";
   "https://cdn.jsdelivr.net/npm/pdfjs-dist@3.11.174/build/pdf.worker.min.js"].

(** What [await fetch(url)] followed by [await response.text()] comes to:
    a rejection (the abort after five seconds included), a response that
    is not [ok], or the text of the script. *)
Inductive FetchOutcome : Type :=
| Rejected
| NotOk (status : Z)
| Body (workerScript : string).

Record Worker : Type := {
  workerSrc : string;          (* "" while unset *)
  blobUrl : option string;     (* [None] for [null] *)
  requested : list string;
  revoked : list string
}.

Definition nonEmpty (s : string) : bool := negb (String.eqb s "").

Section PdfWorker.

(** [typeof window !== 'undefined'], [pdfjs.GlobalWorkerOptions] exists *)
Variable hasWindow : bool.
Variable hasOptions : bool.
Variable fetch : string -> FetchOutcome.
(** the identifier in the URL that [URL.createObjectURL] makes for a
    blob of this script *)
Variable uuid : string -> string.

Definition createObjectURL (workerScript : string) : string :=
  "blob:" ++ uuid workerScript.

Definition request (url : string) (s : Worker) : Worker :=
  {| workerSrc := workerSrc s; blobUrl := blobUrl s;
     requested := (requested s ++ [url])%list; revoked := revoked s |}.

Definition useBlob (url : string) (s : Worker) : Worker :=
  {| workerSrc := url; blobUrl := Some url;
     requested := requested s; revoked := revoked s |}.

Definition useFallback (s : Worker) : Worker :=
  {| workerSrc := nth 0 WORKER_URLS ""; blobUrl := blobUrl s;
     requested := requested s; revoked := revoked s |}.

(** The loop over the URLs, with the fallback after it. *)
Fixpoint loadFrom (urls : list string) (s : Worker) : bool * Worker :=
  match urls with
  | [] => (false, useFallback s)
  | url :: rest =>
      match fetch url with
      | Body workerScript => (true, useBlob (createObjectURL workerScript) (request url s))
      | _ => loadFrom rest (request url s)
      end
  end.

Definition initPdfWorker (s : Worker) : bool * Worker :=
  if negb hasWindow then (false, s)
  else if negb hasOptions then (false, s)
  else if nonEmpty (workerSrc s) then (true, s)
  else loadFrom WORKER_URLS s.

Definition cleanupPdfWorker (s : Worker) : Worker :=
  match blobUrl s with
  | Some url =>
      if nonEmpty url
      then {| workerSrc := workerSrc s; blobUrl := None;
              requested := requested s; revoked := url :: revoked s |}
      else s
  | None => s
  end.

Definition serves (url : string) : bool :=
  match fetch url with Body _ => true | _ => false end.

(** The URLs asked, in order: up to the first that serves the script. *)
Fixpoint asked (urls : list string) : list string :=
  match urls with
  | [] => []
  | url :: rest => if serves url then [url] else url :: asked rest
  end.

Lemma loadFrom_spec (urls : list string) :
  forall s,
    let out := loadFrom urls s in
    fst out = existsb serves urls
    /\ requested (snd out) = (requested s ++ asked urls)%list
    /\ revoked (snd out) = revoked s
    /\ nonEmpty (workerSrc (snd out)) = true
    /\ (fst out = true ->
        blobUrl (snd out) = Some (workerSrc (snd out))
        /\ exists url workerScript,
             In url urls /\ fetch url = Body workerScript
             /\ workerSrc (snd out) = createObjectURL workerScript)
    /\ (fst out = false ->
        blobUrl (snd out) = blobUrl s
        /\ workerSrc (snd out) = nth 0 WORKER_URLS "").
Proof.
  induction urls as [|url rest IH]; intros s; cbn zeta.
  - cbn. rewrite app_nil_r. repeat split; discriminate.
  - cbn [loadFrom existsb asked]. unfold serves at 1 3.
    destruct (fetch url) as [|status|workerScript] eqn:F; cbn [orb].
    1,2: destruct (IH (request url s)) as (H1 & H2 & H3 & H4 & H5 & H6);
      split; [exact H1|]; split;
      [rewrite H2; cbn [request requested]; now rewrite <- app_assoc|];
      split; [exact H3|]; split; [exact H4|]; split;
      [intros Hok; destruct (H5 Hok) as (Hb & u & sc & Hin & Hf & Hw);
       split; [exact Hb|]; exists u, sc; split; [now right|now split]
      |exact H6].
    cbn [fst snd useBlob request requested revoked workerSrc blobUrl].
    split; [reflexivity|]. split; [reflexivity|]. split; [reflexivity|].
    split; [reflexivity|]. split; [|discriminate].
    intros _. split; [reflexivity|]. exists url, workerScript.
    split; [now left|now split].
Qed.

Lemma existsb_serves (urls : list string) :
  existsb serves urls = true
  <-> exists url workerScript, In url urls /\ fetch url = Body workerScript.
Proof.
  rewrite existsb_exists. unfold serves. split.
  - intros (url & Hin & H). exists url.
    destruct (fetch url) as [| |sc]; try discriminate. now exists sc.
  - intros (url & sc & Hin & H). exists url. now rewrite H.
Qed.

End PdfWorker.

Lemma initPdfWorker_sets_source
      (fetch : string -> FetchOutcome) (uuid : string -> string) (s : Worker) :
  workerSrc s = "" ->
  nonEmpty (workerSrc (snd (initPdfWorker true true fetch uuid s))) = true
  /\ (fst (initPdfWorker true true fetch uuid s) = true ->
      blobUrl (snd (initPdfWorker true true fetch uuid s))
      = Some (workerSrc (snd (initPdfWorker true true fetch uuid s)))).
Proof.
  intros Hsrc. unfold initPdfWorker. rewrite Hsrc. cbn [negb nonEmpty String.eqb].
  destruct (loadFrom_spec fetch uuid WORKER_URLS s) as (_ & _ & _ & H4 & H5 & _).
  cbn zeta in *. split; [exact H4|]. intros Hok. exact (proj1 (H5 Hok)).
Qed.

(** In a browser with pdf.js loaded and no worker source set,
    [initPdfWorker] asks the two URLs in order and stops at the first
    that serves the script.  It returns [true] exactly when one of them
    does, and then the worker source is the blob URL it keeps; otherwise
    the worker source becomes the first URL itself.  Either way a worker
    source is set afterwards, and nothing is revoked. *)
Theorem initPdfWorker_loads_first_available
        (fetch : string -> FetchOutcome) (uuid : string -> string) (s : Worker) :
  workerSrc s = "" ->
  let out := initPdfWorker true true fetch uuid s in
  (fst out = true
   <-> exists url workerScript, In url WORKER_URLS /\ fetch url = Body workerScript)
  /\ requested (snd out) = (requested s ++ asked fetch WORKER_URLS)%list
  /\ nonEmpty (workerSrc (snd out)) = true
  /\ revoked (snd out) = revoked s
  /\ (fst out = true -> blobUrl (snd out) = Some (workerSrc (snd out)))
  /\ (fst out = false ->
      workerSrc (snd out) = nth 0 WORKER_URLS "" /\ blobUrl (snd out) = blobUrl s).
Proof.
  intros Hsrc. cbn zeta. unfold initPdfWorker. rewrite Hsrc. cbn [negb nonEmpty String.eqb].
  destruct (loadFrom_spec fetch uuid WORKER_URLS s) as (H1 & H2 & H3 & H4 & H5 & H6).
  cbn zeta in *.
  split; [rewrite H1; apply existsb_serves|].
  split; [exact H2|]. split; [exact H4|]. split; [exact H3|].
  split; [intros Hok; exact (proj1 (H5 Hok))|].
  intros Hno. destruct (H6 Hno). now split.
Qed.

(** A run time for the examples: the first URL times out, the second
    one serves the script. *)
Definition sampleFetch (url : string) : FetchOutcome :=
  if String.eqb url (nth 1 WORKER_URLS "") then Body "onmessage = null" else Rejected.

Definition sampleUuid (workerScript : string) : string := "3f0c".

Definition freshWorker : Worker :=
  {| workerSrc := ""; blobUrl := None; requested := []; revoked := [] |}.

Lemma initPdfWorker_loads_first_available_witness :
  fst (initPdfWorker true true sampleFetch sampleUuid freshWorker) = true
  /\ requested (snd (initPdfWorker true true sampleFetch sampleUuid freshWorker))
     = WORKER_URLS.
Proof.
  destruct (initPdfWorker_loads_first_available sampleFetch sampleUuid freshWorker eq_refl)
    as (H1 & H2 & _).
  split.
  - apply H1. exists (nth 1 WORKER_URLS ""), "onmessage = null".
    split; [right; left; reflexivity|reflexivity].
  - rewrite H2. reflexivity.
Defined.

(** Only the first call of [initPdfWorker] loads anything.  Whatever the
    first call returned, also [false] after falling back to the first
    URL, every later call returns [true], asks nothing and changes
    nothing. *)
Theorem initPdfWorker_second_call_reports_success
        (fetch fetch' : string -> FetchOutcome) (uuid uuid' : string -> string)
        (s : Worker) :
  let first := initPdfWorker true true fetch uuid s in
  initPdfWorker true true fetch' uuid' (snd first) = (true, snd first).
Proof.
  cbn zeta.
  assert (H : nonEmpty (workerSrc (snd (initPdfWorker true true fetch uuid s))) = true).
  { unfold initPdfWorker. cbn [negb].
    destruct (nonEmpty (workerSrc s)) eqn:E; [exact E|].
    exact (proj1 (proj2 (proj2 (proj2 (loadFrom_spec fetch uuid WORKER_URLS s))))). }
  set (first := snd (initPdfWorker true true fetch uuid s)) in *.
  unfold initPdfWorker. cbn [negb]. now rewrite H.
Qed.

(** [cleanupPdfWorker] revokes the blob URL and forgets it, but leaves it
    as the worker source: after a load that succeeded and a cleanup, the
    worker source is a revoked URL, and [initPdfWorker] returns [true]
    without loading the script again. *)
Theorem cleanup_keeps_revoked_source
        (fetch fetch' : string -> FetchOutcome) (uuid uuid' : string -> string)
        (s : Worker) :
  workerSrc s = "" ->
  fst (initPdfWorker true true fetch uuid s) = true ->
  let cleaned := cleanupPdfWorker (snd (initPdfWorker true true fetch uuid s)) in
  blobUrl cleaned = None
  /\ In (workerSrc cleaned) (revoked cleaned)
  /\ initPdfWorker true true fetch' uuid' cleaned = (true, cleaned)
  /\ cleanupPdfWorker cleaned = cleaned.
Proof.
  intros Hsrc Hok. cbn zeta.
  destruct (initPdfWorker_sets_source fetch uuid s Hsrc) as (Hne & Hblob).
  specialize (Hblob Hok).
  set (loaded := snd (initPdfWorker true true fetch uuid s)) in *.
  assert (Hc : cleanupPdfWorker loaded
               = {| workerSrc := workerSrc loaded; blobUrl := None;
                    requested := requested loaded;
                    revoked := workerSrc loaded :: revoked loaded |}).
  { unfold cleanupPdfWorker. now rewrite Hblob, Hne. }
  rewrite Hc. cbn [blobUrl workerSrc revoked].
  split; [reflexivity|]. split; [now left|]. split.
  - unfold initPdfWorker. cbn [negb workerSrc]. now rewrite Hne.
  - reflexivity.
Qed.

Lemma cleanup_keeps_revoked_source_witness :
  let loaded := snd (initPdfWorker true true sampleFetch sampleUuid freshWorker) in
  workerSrc (cleanupPdfWorker loaded) = "blob:3f0c"
  /\ revoked (cleanupPdfWorker loaded) = ["blob:3f0c"]
  /\ initPdfWorker true true (fun _ => Rejected) sampleUuid (cleanupPdfWorker loaded)
     = (true, cleanupPdfWorker loaded).
Proof.
  cbn zeta.
  destruct (cleanup_keeps_revoked_source sampleFetch (fun _ => Rejected)
                                         sampleUuid sampleUuid freshWorker
                                         eq_refl eq_refl)
    as (_ & _ & H & _).
  split; [reflexivity|]. split; [reflexivity|]. exact H.
Defined.


(* ================================================================== *)

(** * App.tsx: the initial history, [handleImportPDF] *)
(* ================================================================== *)

Definition HISTORY_KEY : string := "flexcell_history_data".

(** [saved.map(batch => { try { return migrateHistoryBatch(batch) } catch
    { return null } }).filter(batch => batch !== null)] *)
Fixpoint migrateBatches (batches : list JsValue) : M (list JsValue) :=
  match batches with
  | [] => ret []
  | batch :: rest =>
      migrated <- migrateHistoryBatch batch ;;
      match migrated with
      | Ok b =>
          others <- migrateBatches rest ;;
          ret (b :: others)
      | Throw _ =>
          _ <- logWarn ;;
          migrateBatches rest
      end
  end.

(** The initial value of the [history] state, from what [loadFromStorage]
    returned for [HISTORY_KEY]; the call of [.map] is outside every
    [try]. *)
Definition initialHistory (saved : JsValue) : M (Result (list JsValue)) :=
  match saved with
  | JArr batches =>
      kept <- migrateBatches batches ;;
      ret (Ok kept)
  | _ => ret (Throw "saved.map is not a function")
  end.

(** The callback [handleImportPDF] gives to the importer: a debug line. *)
Definition logProgress : Progress :=
  Some (fun _ _ => _ <- logDebug ;; ret (Ok tt)).

(** [handleImportPDF], with the [isImporting] it sees: the new state and
    the requests handed to the e-mail transport.  Alerts are left out. *)
Definition handleImportPDF (send : SendRequest -> option string)
           (emailSettings : EmailSettings) (isImporting : bool)
           (files : list File) (st : AppState)
  : M (AppState * list SendRequest) :=
  if isImporting then ret (st, [])
  else
    _ <- logInfo ;;
    result <- importPdfsToItemsWith logProgress files ;;
    st' <- (if (0 <? List.length (items result))%nat
            then
              _ <- logInfo ;;
              ret {| app_items := (app_items st ++ items result)%list;
                     history := history st;
                     totalStock := totalStock st;
                     activeTab := activeTab st |}
            else ret st) ;;
    requests <- (if (0 <? List.length (items result))%nat && enabled emailSettings
                 then
                   emailResult <- sendBatchNotification send None (items result)
                                                        emailSettings ;;
                   _ <- (if send_success (fst emailResult) then logInfo
                         else logWarn) ;;
                   ret (snd emailResult)
                 else ret []) ;;
    ret (st', requests).

Section LoaderFacts.

Lemma batchMigratedFrom_later (r c : nat) (w : World) (b out : JsValue) :
  batchMigratedFrom (advance r c w) b out -> batchMigratedFrom w b out.
Proof.
  intros (migrated & E & Hall). exists migrated. split; [exact E|].
  eapply Forall2_impl; [|exact Hall]. intros x y. apply migratedFrom_later.
Qed.

(** The kept batches are the migrations of the accepted batches, in
    order. *)
Lemma migrateBatches_spec (batches : list JsValue) :
  forall w,
    (exists r c, snd (migrateBatches batches w) = advance r c w)
    /\ Forall2 (batchMigratedFrom w) (filter migratable batches)
               (fst (migrateBatches batches w)).
Proof.
  induction batches as [|b batches IH]; intros w.
  - split; [exists 0%nat, 0%nat; now rewrite advance_0|constructor].
  - cbn [migrateBatches filter]. rewrite bind_run.
    destruct (migrateHistoryBatch_cases b w) as ((r & c & Hw) & Hr).
    destruct (migrateHistoryBatch b w) as [res w1]. cbn [fst snd] in *. subst w1.
    destruct (migratable b).
    + destruct Hr as (out & -> & Hout). rewrite bind_run. cbn [ret fst snd].
      destruct (IH (advance r c w)) as ((r' & c' & Hw') & Hall).
      split.
      * rewrite Hw', advance_advance. now eexists _, _.
      * constructor; [exact Hout|].
        eapply Forall2_impl; [|exact Hall].
        intros x y. apply batchMigratedFrom_later.
    + destruct Hr as (msg & ->). rewrite bind_run. cbn [logWarn fst snd].
      rewrite tick_advance, advance_advance.
      destruct (IH (advance (0 + r) (1 + c) w)) as ((r' & c' & Hw') & Hall).
      split.
      * rewrite Hw', advance_advance. now eexists _, _.
      * eapply Forall2_impl; [|exact Hall].
        intros x y. apply batchMigratedFrom_later.
Qed.

Lemma sendBatchNotification_requests (send : SendRequest -> option string)
      (onProgress : Progress) (items : list OrderItem) (settings : EmailSettings)
      (w : World) :
  snd (fst (sendBatchNotification send onProgress items settings w))
  = if goesOut settings
    then map (requestFor settings) (splitIntoEmailBatches items)
    else [].
Proof.
  unfold sendBatchNotification, goesOut.
  destruct (enabled settings); cbn [negb andb]; [|reflexivity].
  destruct (validateEmail (targetEmail settings)); cbn [negb andb]; [|reflexivity].
  destruct (settingsComplete settings); cbn [negb]; [|reflexivity].
  destruct items as [|i items]; [reflexivity|]. cbn [List.length Nat.eqb].
  rewrite bind_run.
  exact (proj1 (send_loop send onProgress settings _
                          (splitIntoEmailBatches (i :: items)) _ [] _)).
Qed.

(** The build mode is fixed: no step of the importer changes it. *)
Lemma processPage_build (ctx : FileContext) (page : PageOutcome) (n : nat)
      (r : PdfImportResult) (w : World) :
  development (snd (processPage ctx page n r w)) = development w.
Proof.
  unfold processPage. destruct page as [msg|vw vh]; [reflexivity|].
  destruct (finalDimensions ctx vw vh) as [[fw fh] obs].
  destruct (valid (validateDimensions fw fh)); cbn [negb]; [|reflexivity].
  rewrite !bind_run. rewrite migrate_object by reflexivity. reflexivity.
Qed.

Lemma pages_build (ctx : FileContext) (pdf : PdfDocument) (pages : list nat) :
  forall (r : PdfImportResult) (w : World),
    development
      (snd (foldM (fun pageNum => processPage ctx (getPage pdf pageNum) pageNum)
                  pages r w))
    = development w.
Proof.
  induction pages as [|n pages IH]; intros r w; [reflexivity|].
  cbn [foldM]. rewrite bind_run, IH. apply processPage_build.
Qed.

Lemma processFile_build (total i : nat) (f : File) (r : PdfImportResult)
      (w : World) :
  development (snd (processFile None total i f r w)) = development w.
Proof.
  unfold processFile. rewrite bind_run. cbn [callProgress ret fst snd].
  destruct (isPdfName (file_name f)); cbn [negb]; [|reflexivity].
  destruct (getDocument f) as [msg|pdf]; [reflexivity|].
  rewrite !bind_run. cbn [ret snd]. rewrite pages_build.
  unfold logDebug. cbn [snd]. now destruct (development w) eqn:D; cbn; rewrite ?D.
Qed.

(** In a build that is not a development build the callback of
    [handleImportPDF] does nothing, and the import runs as without
    callback. *)
Lemma processFiles_logProgress (total : nat) (files : list File) :
  forall (i : nat) (r : PdfImportResult) (w : World),
    development w = false ->
    processFiles logProgress total i files r w
    = processFiles None total i files r w.
Proof.
  induction files as [|f files IH]; intros i r w D; [reflexivity|].
  cbn [processFiles]. rewrite !bind_run.
  assert (E : processFile logProgress total i f r w
              = processFile None total i f r w).
  { assert (C : callProgress logProgress (i + 1) total w
                = callProgress None (i + 1) total w).
    { unfold logProgress. cbn [callProgress]. rewrite bind_run.
      unfold logDebug. now rewrite D. }
    unfold processFile. now rewrite !bind_run, C. }
  rewrite E. apply IH. now rewrite processFile_build.
Qed.

Lemma import_logProgress (files : list File) (w : World) :
  development w = false ->
  importPdfsToItemsWith logProgress files w = importPdfsToItems files w.
Proof.
  intros D. unfold importPdfsToItems, importPdfsToItemsWith.
  destruct (List.length files =? 0)%nat; [reflexivity|].
  rewrite !bind_run. now rewrite processFiles_logProgress.
Qed.

End LoaderFacts.

(** The history starts empty when nothing is stored under its key or
    when the stored text does not parse; the corrupt text is then
    removed.  When the text parses to an array, the history holds the
    migration of every entry that [migrateHistoryBatch] accepts, in
    order: the entry with its [items] replaced by its migrated orders;
    the other entries are dropped.  But when the text parses to a truthy
    value that is not an array, the state initialiser throws. *)
Theorem initialHistory_from_store (parse : string -> Result JsValue)
        (store : Storage) (w : World) :
  let loaded := loadFromStorage true true parse HISTORY_KEY (JArr []) store in
  let start := initialHistory (fst loaded) w in
  (getItem HISTORY_KEY store = None -> start = (Ok [], w) /\ snd loaded = store)
  /\ (forall text msg,
         getItem HISTORY_KEY store = Some text -> text <> "" ->
         parse text = Throw msg ->
         start = (Ok [], w) /\ getItem HISTORY_KEY (snd loaded) = None)
  /\ (forall text batches,
         getItem HISTORY_KEY store = Some text -> text <> "" ->
         parse text = Ok (JArr batches) ->
         exists kept,
           fst start = Ok kept
           /\ Forall2 (batchMigratedFrom w) (filter migratable batches) kept
           /\ List.length kept = count migratable batches)
  /\ (forall text parsed,
         getItem HISTORY_KEY store = Some text -> text <> "" ->
         parse text = Ok parsed -> truthy parsed = true -> isArray parsed = false ->
         exists msg, start = (Throw msg, w)).
Proof.
  cbn zeta. unfold loadFromStorage. cbn [negb].
  destruct (getItem HISTORY_KEY store) as [saved|] eqn:Hget.
  2:{ split; [intros _; now split|]. repeat split; intros; discriminate. }
  split; [discriminate|].
  split; [|split].
  - intros text msg [= <-] Hne Hp.
    destruct (String.eqb_spec saved ""); [contradiction|]. rewrite Hp.
    cbn [fst snd]. split; [reflexivity|].
    rewrite getItem_removeItem. now rewrite String.eqb_refl.
  - intros text batches [= <-] Hne Hp.
    destruct (String.eqb_spec saved ""); [contradiction|]. rewrite Hp.
    cbn [fst or truthy initialHistory]. rewrite bind_run. cbn [ret fst].
    destruct (migrateBatches_spec batches w) as (_ & Hall).
    eexists. split; [reflexivity|]. split; [exact Hall|].
    unfold count. symmetry. exact (Forall2_length Hall).
  - intros text parsed [= <-] Hne Hp Ht Ha.
    destruct (String.eqb_spec saved ""); [contradiction|]. rewrite Hp.
    cbn [fst]. unfold or. rewrite Ht.
    destruct parsed; try discriminate; eexists; reflexivity.
Qed.

(** A run time that reads one text, as an empty object. *)
Definition objectParse (text : string) : Result JsValue :=
  if String.eqb text "{}" then Ok (JObj []) else Throw "SyntaxError".

Lemma initialHistory_from_store_witness :
  exists msg,
    initialHistory
      (fst (loadFromStorage true true objectParse HISTORY_KEY (JArr [])
                            [(HISTORY_KEY, "{}")])) sampleWorld
    = (Throw msg, sampleWorld).
Proof.
  exact (proj2 (proj2 (proj2 (initialHistory_from_store
                                objectParse [(HISTORY_KEY, "{}")] sampleWorld)))
               "{}" (JObj []) eq_refl ltac:(discriminate) eq_refl eq_refl eq_refl).
Defined.

(** [handleImportPDF] logs the start of the import and then imports with
    its own callback, a debug line per file.  It appends the imported
    items to the working set, after the items that were there, and
    touches nothing else.  The e-mail notification is about the imported
    items and only them: when it goes out, there is one request per batch
    of the imported items, and the batches together are the imported
    items in order.  While an import is seen to be running, nothing
    happens. *)
Theorem handleImportPDF_appends_and_notifies
        (send : SendRequest -> option string) (emailSettings : EmailSettings)
        (files : list File) (st : AppState) (w : World) :
  let imported :=
    items (fst (importPdfsToItemsWith logProgress files (snd (logInfo w)))) in
  let out := fst (handleImportPDF send emailSettings false files st w) in
  app_items (fst out) = (app_items st ++ imported)%list
  /\ history (fst out) = history st
  /\ totalStock (fst out) = totalStock st
  /\ activeTab (fst out) = activeTab st
  /\ snd out = (if goesOut emailSettings
                then map (requestFor emailSettings) (splitIntoEmailBatches imported)
                else [])
  /\ List.concat (map batch_of (splitIntoEmailBatches imported)) = imported
  /\ handleImportPDF send emailSettings true files st w = ((st, []), w)
  /\ (development w = false ->
      imported = items (fst (importPdfsToItems files (snd (logInfo w))))).
Proof.
  cbn zeta.
  assert (Last : development w = false ->
                 items (fst (importPdfsToItemsWith logProgress files
                                                   (snd (logInfo w))))
                 = items (fst (importPdfsToItems files (snd (logInfo w)))))
    by (intros D; now rewrite import_logProgress).
  unfold handleImportPDF. rewrite !bind_run. cbn [ret fst snd].
  set (run := importPdfsToItemsWith logProgress files (snd (logInfo w))) in *.
  revert Last. destruct (items (fst run)) as [|i imported] eqn:E; intros Last.
  - cbn [List.length Nat.ltb Nat.leb andb ret fst snd]. rewrite app_nil_r.
    repeat split; [now destruct (goesOut emailSettings)|exact Last].
  - change (0 <? List.length (i :: imported))%nat with true. cbn [andb].
    rewrite !bind_run. cbn [ret fst snd app_items history totalStock activeTab].
    split; [reflexivity|]. split; [reflexivity|]. split; [reflexivity|].
    split; [reflexivity|].
    split; [|split; [apply split_concat|split; [reflexivity|exact Last]]].
    unfold goesOut. destruct (enabled emailSettings) eqn:En; cbn [andb].
    + rewrite !bind_run. cbn [ret fst snd].
      rewrite sendBatchNotification_requests. unfold goesOut. now rewrite En.
    + reflexivity.
Qed.

(** Without a callback that throws nothing is lost on the way: the
    callback of [handleImportPDF] returns normally, so a file that is no
    PDF is skipped and a PDF is never failed by the callback. *)
Lemma logProgress_returns : returnsNormally logProgress.
Proof. intros current total w. eexists. reflexivity. Qed.
